(** * LED animation engine (animation.c): shallow embedding and properties

    The animation virtual machine of the firmware is embedded as pure
    functions over an explicit [engine] record that collects the globals
    the C code reads and writes.  Machine integers are [Z] with their
    wrap-around written out ([u8], [u16], [i8]); the two brightness arrays
    are lists updated by index; an instruction fetch through
    [psInstructionsNormal] / [psInstructionsRGB] is a list lookup, so a
    fetch outside the array has no defined result ([None]); [in_memory]
    makes the bytes that follow an RGB instruction array explicit. *)

From Stdlib Require Import ZArith Lia Bool List.
From stdpp Require Import base option list.

Open Scope Z_scope.

(** ** Machine integers (types.h: U8, U16, I8) *)

Definition u8 (x : Z) : Z := x mod 256.
Definition u16 (x : Z) : Z := x mod 65536.
(** The cast [(I8)x] of an 8-bit pattern. *)
Definition i8 (x : Z) : Z := let y := x mod 256 in if y <? 128 then y else y - 256.

(** ** Constants *)

(** led.h *)
Definition LEDS_NUM : nat := 7.
(** Modelled from the spec: rgbled.h is absent; the multi-channel LED has
    4 channels (every RGB instruction initialiser has 4 elements). *)
Definition NUM_RGBLED_COLORS : nat := 4.
(** animation.c *)
Definition RIGHT_LEDS_START : nat := 6.

(** E_ANIMATION_OPCODE *)
Definition LOAD : Z := 0x00.
Definition ADD : Z := 0x01.
Definition RSHIFT : Z := 0x02.
Definition LSHIFT : Z := 0x04.
Definition DIV : Z := 0x10.
Definition USOURCE : Z := 0x20.
Definition DSOURCE : Z := 0x40.
Definition REPEAT : Z := 0x80.

(** The C test [if( FLAG & u8OpCode )]. *)
Definition has (flag op : Z) : bool := negb (Z.land flag op =? 0).

(** ** Instruction and animation structures *)

Record S_ANIMATION_INSTRUCTION_NORMAL := mkNormal {
  u16TimingMs : Z;
  au8LEDBrightness : list Z;
  u8AnimationOpcode : Z;
  u8AnimationOperand : Z
}.

Record S_ANIMATION_INSTRUCTION_RGB := mkRGB {
  u16TimingMsRGB : Z;
  au8RGBLEDBrightness : list Z;
  u8AnimationOpcodeRGB : Z;
  u8AnimationOperandRGB : Z
}.

Record S_ANIMATION := mkAnimation {
  u8AnimationLengthNormal : Z;
  psInstructionsNormal : list S_ANIMATION_INSTRUCTION_NORMAL;
  u8AnimationLengthRGB : Z;
  psInstructionsRGB : list S_ANIMATION_INSTRUCTION_RGB
}.

(** ** Engine state: the globals of animation.c, led.c, rgbled.c and the
    persisted animation index *)

Record engine := mkEngine {
  gau8LEDBrightness : list Z;
  gau8RGBLEDs : list Z;
  gu16NormalTimer : Z;
  gu16RGBTimer : Z;
  gu16LastCall : Z;
  u8LastState : Z;
  u8RepetitionCounter : Z;
  u8LastStateRGB : Z;
  u8RepetitionCounterRGB : Z;
  u8AnimationIndex : Z
}.

Definition set_LEDBrightness (v : list Z) (s : engine) : engine :=
  mkEngine v (gau8RGBLEDs s) (gu16NormalTimer s) (gu16RGBTimer s) (gu16LastCall s)
    (u8LastState s) (u8RepetitionCounter s) (u8LastStateRGB s)
    (u8RepetitionCounterRGB s) (u8AnimationIndex s).
Definition set_RGBLEDs (v : list Z) (s : engine) : engine :=
  mkEngine (gau8LEDBrightness s) v (gu16NormalTimer s) (gu16RGBTimer s) (gu16LastCall s)
    (u8LastState s) (u8RepetitionCounter s) (u8LastStateRGB s)
    (u8RepetitionCounterRGB s) (u8AnimationIndex s).
Definition set_NormalTimer (v : Z) (s : engine) : engine :=
  mkEngine (gau8LEDBrightness s) (gau8RGBLEDs s) v (gu16RGBTimer s) (gu16LastCall s)
    (u8LastState s) (u8RepetitionCounter s) (u8LastStateRGB s)
    (u8RepetitionCounterRGB s) (u8AnimationIndex s).
Definition set_RGBTimer (v : Z) (s : engine) : engine :=
  mkEngine (gau8LEDBrightness s) (gau8RGBLEDs s) (gu16NormalTimer s) v (gu16LastCall s)
    (u8LastState s) (u8RepetitionCounter s) (u8LastStateRGB s)
    (u8RepetitionCounterRGB s) (u8AnimationIndex s).
Definition set_LastCall (v : Z) (s : engine) : engine :=
  mkEngine (gau8LEDBrightness s) (gau8RGBLEDs s) (gu16NormalTimer s) (gu16RGBTimer s) v
    (u8LastState s) (u8RepetitionCounter s) (u8LastStateRGB s)
    (u8RepetitionCounterRGB s) (u8AnimationIndex s).
Definition set_LastState (v : Z) (s : engine) : engine :=
  mkEngine (gau8LEDBrightness s) (gau8RGBLEDs s) (gu16NormalTimer s) (gu16RGBTimer s)
    (gu16LastCall s) v (u8RepetitionCounter s) (u8LastStateRGB s)
    (u8RepetitionCounterRGB s) (u8AnimationIndex s).
Definition set_RepetitionCounter (v : Z) (s : engine) : engine :=
  mkEngine (gau8LEDBrightness s) (gau8RGBLEDs s) (gu16NormalTimer s) (gu16RGBTimer s)
    (gu16LastCall s) (u8LastState s) v (u8LastStateRGB s)
    (u8RepetitionCounterRGB s) (u8AnimationIndex s).
Definition set_LastStateRGB (v : Z) (s : engine) : engine :=
  mkEngine (gau8LEDBrightness s) (gau8RGBLEDs s) (gu16NormalTimer s) (gu16RGBTimer s)
    (gu16LastCall s) (u8LastState s) (u8RepetitionCounter s) v
    (u8RepetitionCounterRGB s) (u8AnimationIndex s).
Definition set_RepetitionCounterRGB (v : Z) (s : engine) : engine :=
  mkEngine (gau8LEDBrightness s) (gau8RGBLEDs s) (gu16NormalTimer s) (gu16RGBTimer s)
    (gu16LastCall s) (u8LastState s) (u8RepetitionCounter s) (u8LastStateRGB s)
    v (u8AnimationIndex s).
Definition set_AnimationIndex (v : Z) (s : engine) : engine :=
  mkEngine (gau8LEDBrightness s) (gau8RGBLEDs s) (gu16NormalTimer s) (gu16RGBTimer s)
    (gu16LastCall s) (u8LastState s) (u8RepetitionCounter s) (u8LastStateRGB s)
    (u8RepetitionCounterRGB s) v.

(** ** Brightness arrays *)

(** [a[i]] for an index inside the array. *)
Definition rd (a : list Z) (i : nat) : Z := default 0 (a !! i).

(** [SaturateBrightness]: the new value of the pointed-to variable and the
    returned I8. *)
Definition SaturateBrightness (v : Z) : Z * Z :=
  if i8 v <? 0 then (0, i8 v)
  else if i8 v >? 15 then (15, i8 (i8 v - 15))
  else (v, 0).

(** [a[dst] += SaturateBrightness( &a[src] )] *)
Definition carry (src dst : nat) (a : list Z) : list Z :=
  let '(v, r) := SaturateBrightness (rd a src) in
  let a1 := <[src := v]> a in
  <[dst := u8 (rd a1 dst + r)]> a1.

(** [SaturateBrightness( &a[i] )] with the result dropped. *)
Definition saturate_at (i : nat) (a : list Z) : list Z :=
  <[i := fst (SaturateBrightness (rd a i))]> a.

(** [i8Change = ops[i]; a[i] += i8Change] *)
Definition bump (ops : list Z) (i : nat) (a : list Z) : list Z :=
  <[i := u8 (rd a i + i8 (rd ops i))]> a.

(** A [for] loop over the given index sequence. *)
Definition for_each {A} (idx : list nat) (body : nat -> A -> A) (a : A) : A :=
  fold_left (fun acc i => body i acc) idx a.

(** Ascending [lo <= i < hi] and descending [hi >= i > lo] index ranges. *)
Definition upto (lo hi : nat) : list nat := seq lo (hi - lo).
Definition downto (hi lo : nat) : list nat := rev (seq (S lo) (hi - lo)).

(** The ADD loop, over [n] channels. *)
Definition op_ADD (n : nat) (ops a : list Z) : list Z :=
  for_each (upto 0 n) (fun i a =>
    let a1 := <[i := u8 (rd a i + rd ops i)]> a in
    if rd a1 i >? 15 then <[i := 0]> a1 else a1) a.

Definition op_RSHIFT (a : list Z) : list Z :=
  let u8Temp := rd a (LEDS_NUM - 1) in
  let a1 := for_each (downto (LEDS_NUM - 1) 0) (fun i a => <[i := rd a (i - 1)]> a) a in
  <[0%nat := u8Temp]> a1.

Definition op_LSHIFT (a : list Z) : list Z :=
  let u8Temp := rd a 0 in
  let a1 := for_each (upto 0 (LEDS_NUM - 1)) (fun i a => <[i := rd a (i + 1)]> a) a in
  <[(LEDS_NUM - 1)%nat := u8Temp]> a1.

Definition op_USOURCE (ops a : list Z) : list Z :=
  (* Left side *)
  let a := for_each (upto 0 (RIGHT_LEDS_START - 1)) (fun u8Index a =>
             let a := bump ops u8Index a in
             for_each (upto u8Index (RIGHT_LEDS_START - 1))
               (fun u8InnerIndex a => carry u8InnerIndex (u8InnerIndex + 1) a) a) a in
  let a := bump ops (RIGHT_LEDS_START - 1) a in
  let a := saturate_at (RIGHT_LEDS_START - 1) a in
  (* Right side *)
  let a := for_each (downto (LEDS_NUM - 1) RIGHT_LEDS_START) (fun u8Index a =>
             let a := bump ops u8Index a in
             for_each (downto (LEDS_NUM - 1) RIGHT_LEDS_START)
               (fun u8InnerIndex a => carry u8InnerIndex (u8InnerIndex - 1) a) a) a in
  let a := bump ops RIGHT_LEDS_START a in
  saturate_at RIGHT_LEDS_START a.

Definition op_DSOURCE (ops a : list Z) : list Z :=
  (* Left side *)
  let a := for_each (downto (RIGHT_LEDS_START - 1) 0) (fun u8Index a =>
             let a := bump ops u8Index a in
             for_each (downto u8Index 0)
               (fun u8InnerIndex a => carry u8InnerIndex (u8InnerIndex - 1) a) a) a in
  let a := bump ops 0 a in
  let a := saturate_at 0 a in
  (* Right side *)
  let a := for_each (upto RIGHT_LEDS_START (LEDS_NUM - 1)) (fun u8Index a =>
             let a := bump ops u8Index a in
             for_each (upto RIGHT_LEDS_START (LEDS_NUM - 1))
               (fun u8InnerIndex a => carry u8InnerIndex (u8InnerIndex + 1) a) a) a in
  let a := bump ops (LEDS_NUM - 1) a in
  saturate_at (LEDS_NUM - 1) a.

(** The DIV loop, over [n] channels. *)
Definition op_DIV (n : nat) (ops a : list Z) : list Z :=
  for_each (upto 0 n) (fun i a =>
    let u8Temp := rd ops i in
    if negb (u8Temp =? 0) then <[i := rd a i / u8Temp]> a else a) a.

(** The opcode effects in their fixed order, linear bank. *)
Definition effect_Normal (op : Z) (ops a : list Z) : list Z :=
  let a := if has ADD op then op_ADD LEDS_NUM ops a else a in
  let a := if has RSHIFT op then op_RSHIFT a else a in
  let a := if has LSHIFT op then op_LSHIFT a else a in
  let a := if has USOURCE op then op_USOURCE ops a else a in
  let a := if has DSOURCE op then op_DSOURCE ops a else a in
  if has DIV op then op_DIV LEDS_NUM ops a else a.

(** The opcode effects of the RGB LED: the shifts and sources are not
    implemented there. *)
Definition effect_RGB (op : Z) (ops a : list Z) : list Z :=
  let a := if has ADD op then op_ADD NUM_RGBLED_COLORS ops a else a in
  if has DIV op then op_DIV NUM_RGBLED_COLORS ops a else a.

(** ** The instruction interpreter *)

(** The "Repeat instruction" block and its [else]: it acts on the timer,
    the last executed index and the repetition counter of one timeline. *)
Definition repeat_ctl (op operand timing k : Z) (tlr : Z * Z * Z) : Z * Z * Z :=
  let '(timer, last, rep) := tlr in
  if has REPEAT op then
    if rep =? 0 then
      (* If we're here the first time *)
      (u16 (timer - timing), last, operand)
    else
      (* We're already repeating... *)
      let rep := u8 (rep - 1) in
      if negb (rep =? 0) then (u16 (timer - timing), last, rep)
      else (timer, k, rep)
  else (timer, k, rep).

(** Body of [if( u8LastState != u8AnimationState )], linear bank.  The
    [memcpy] of a LOAD copies the [LEDS_NUM] brightness bytes of the
    instruction over the whole array. *)
Definition Exec_Normal (i : S_ANIMATION_INSTRUCTION_NORMAL) (k : Z) (s : engine) : engine :=
  let u8OpCode := u8AnimationOpcode i in
  if u8OpCode =? LOAD then
    set_LastState k (set_LEDBrightness (au8LEDBrightness i) s)
  else
    let s := set_LEDBrightness
               (effect_Normal u8OpCode (au8LEDBrightness i) (gau8LEDBrightness s)) s in
    let '(timer, last, rep) :=
      repeat_ctl u8OpCode (u8AnimationOperand i) (u16TimingMs i) k
        (gu16NormalTimer s, u8LastState s, u8RepetitionCounter s) in
    set_NormalTimer timer (set_LastState last (set_RepetitionCounter rep s)).

(** Body of [if( u8LastStateRGB != u8AnimationState )], RGB LED; the
    [memcpy] copies the [NUM_RGBLED_COLORS] bytes of the instruction. *)
Definition Exec_RGB (i : S_ANIMATION_INSTRUCTION_RGB) (k : Z) (s : engine) : engine :=
  let u8OpCode := u8AnimationOpcodeRGB i in
  if u8OpCode =? LOAD then
    set_LastStateRGB k (set_RGBLEDs (au8RGBLEDBrightness i) s)
  else
    let s := set_RGBLEDs
               (effect_RGB u8OpCode (au8RGBLEDBrightness i) (gau8RGBLEDs s)) s in
    let '(timer, last, rep) :=
      repeat_ctl u8OpCode (u8AnimationOperandRGB i) (u16TimingMsRGB i) k
        (gu16RGBTimer s, u8LastStateRGB s, u8RepetitionCounterRGB s) in
    set_RGBTimer timer (set_LastStateRGB last (set_RepetitionCounterRGB rep s)).

(** "Calculate the state of the animation": the loop that sums the
    durations until the running sum exceeds the timer.  [fuel] is the
    number of iterations left ([length - k]); the result is the value of
    [u8AnimationState] after the loop, the length when it never breaks. *)
Fixpoint scan_Normal (instrs : list S_ANIMATION_INSTRUCTION_NORMAL) (timer : Z)
    (fuel : nat) (k u16StateTimer : Z) : option Z :=
  match fuel with
  | O => Some k
  | S fuel =>
      i ← instrs !! Z.to_nat k;
      let u16StateTimer := u16 (u16StateTimer + u16TimingMs i) in
      if u16StateTimer >? timer then Some k
      else scan_Normal instrs timer fuel (k + 1) u16StateTimer
  end.

Fixpoint scan_RGB (instrs : list S_ANIMATION_INSTRUCTION_RGB) (timer : Z)
    (fuel : nat) (k u16StateTimer : Z) : option Z :=
  match fuel with
  | O => Some k
  | S fuel =>
      i ← instrs !! Z.to_nat k;
      let u16StateTimer := u16 (u16StateTimer + u16TimingMsRGB i) in
      if u16StateTimer >? timer then Some k
      else scan_RGB instrs timer fuel (k + 1) u16StateTimer
  end.

Definition state_Normal (a : S_ANIMATION) (s : engine) : option Z :=
  scan_Normal (psInstructionsNormal a) (gu16NormalTimer s)
    (Z.to_nat (u8AnimationLengthNormal a)) 0 0.

Definition state_RGB (a : S_ANIMATION) (s : engine) : option Z :=
  scan_RGB (psInstructionsRGB a) (gu16RGBTimer s)
    (Z.to_nat (u8AnimationLengthRGB a)) 0 0.

(** "restart animation" *)
Definition restart (s : engine) : engine := set_RGBTimer 0 (set_NormalTimer 0 s).

(** The section "For the normal LEDs" of [Animation_Cycle]. *)
Definition Cycle_Normal (a : S_ANIMATION) (s : engine) : option engine :=
  u8AnimationState ← state_Normal a s;
  let '(u8AnimationState, s) :=
    if u8AnimationLengthNormal a <=? u8AnimationState then (0, restart s)
    else (u8AnimationState, s) in
  if negb (u8LastState s =? u8AnimationState) then
    i ← psInstructionsNormal a !! Z.to_nat u8AnimationState;
    Some (Exec_Normal i u8AnimationState s)
  else Some s.

(** The section "For the RGB LED" of [Animation_Cycle]; its restart block
    is commented out in the source. *)
Definition Cycle_RGB (a : S_ANIMATION) (s : engine) : option engine :=
  u8AnimationState ← state_RGB a s;
  if negb (u8LastStateRGB s =? u8AnimationState) then
    i ← psInstructionsRGB a !! Z.to_nat u8AnimationState;
    Some (Exec_RGB i u8AnimationState s)
  else Some s.

Section Engine.

(** animation.h is absent: [gasAnimations] is declared with
    [NUM_ANIMATIONS] entries, so the bound is the length of the table. *)
Variable gasAnimations : list S_ANIMATION.

Definition NUM_ANIMATIONS : Z := Z.of_nat (length gasAnimations).

(** [Animation_Init]; [now] is the value of [Util_GetTimerMs()]. *)
Definition Animation_Init (now : Z) (s : engine) : engine :=
  set_LastCall now (set_RGBTimer 0 (set_NormalTimer 0 s)).

(** "Increase the synchronized timer with the difference" and "Make sure
    not to overindex arrays". *)
Definition advance (u16TimeNow : Z) (s : engine) : engine :=
  let s := set_NormalTimer (u16 (gu16NormalTimer s + u16 (u16TimeNow - gu16LastCall s))) s in
  let s := set_RGBTimer (u16 (gu16RGBTimer s + u16 (u16TimeNow - gu16LastCall s))) s in
  if NUM_ANIMATIONS <=? u8AnimationIndex s then set_AnimationIndex 0 s else s.

(** [Animation_Cycle]; [u16TimeNow] is the value of [Util_GetTimerMs()]. *)
Definition Animation_Cycle (u16TimeNow : Z) (s : engine) : option engine :=
  if negb (u16TimeNow =? gu16LastCall s) then
    let s := advance u16TimeNow s in
    a ← gasAnimations !! Z.to_nat (u8AnimationIndex s);
    s ← Cycle_Normal a s;
    s ← Cycle_RGB a s;
    Some (set_LastCall u16TimeNow s)
  else Some s.

(** [Animation_Set] *)
Definition Animation_Set (u8AnimationIndex : Z) (s : engine) : engine :=
  if u8AnimationIndex <? NUM_ANIMATIONS then
    let s := set_AnimationIndex u8AnimationIndex s in
    let s := set_NormalTimer 0 s in
    let s := set_RGBTimer 0 s in
    let s := set_LastState 0xFF s in
    let s := set_RepetitionCounter 0 s in
    let s := set_LastStateRGB 0xFF s in
    set_RepetitionCounterRGB 0 s
  else s.

End Engine.

(** ** The shipped animation catalog *)

Module Catalog.

(** An initialiser row; a negative brightness initialiser is stored as
    its 8-bit pattern. *)
Definition N (t : Z) (b : list Z) (op operand : Z) : S_ANIMATION_INSTRUCTION_NORMAL :=
  mkNormal t (map u8 b) op operand.
Definition C (t : Z) (b : list Z) (op operand : Z) : S_ANIMATION_INSTRUCTION_RGB :=
  mkRGB t (map u8 b) op operand.

(** Array elements without an initialiser are zero-initialised. *)
Definition N0 : S_ANIMATION_INSTRUCTION_NORMAL := N 0 [0; 0; 0; 0; 0; 0; 0] 0 0.
Definition C0 : S_ANIMATION_INSTRUCTION_RGB := C 0 [0; 0; 0; 0] 0 0.

Definition ADD_REPEAT : Z := Z.lor ADD REPEAT.

Definition gasKITT : list S_ANIMATION_INSTRUCTION_NORMAL :=
  [ N 200 [ 0;  0;  0;  0;  0;  0;  0] LOAD 0;
    N 100 [ 5;  0;  0;  0;  0;  0;  0] LOAD 0;
    N 100 [10;  5;  0;  0;  0;  0;  0] LOAD 0;
    N 100 [15; 10;  5;  0;  0;  0;  0] LOAD 0;
    N 100 [10; 15; 10;  5;  0;  0;  0] LOAD 0;
    N 100 [ 5; 10; 15; 10;  5;  0;  0] LOAD 0;
    N 100 [ 0;  5; 10; 15; 10;  5;  0] LOAD 0;
    N 100 [ 0;  0;  5; 10; 15; 10;  5] LOAD 0;
    N 100 [ 0;  0;  5; 10; 10; 15; 10] LOAD 0;
    N 100 [ 0;  0;  0;  5; 10; 10; 15] LOAD 0;
    N 100 [ 0;  0;  0;  0;  5; 10; 10] LOAD 0;
    N 100 [ 0;  0;  0;  0;  0;  5; 10] LOAD 0;
    N 100 [ 0;  0;  0;  0;  0;  0;  5] LOAD 0;
    N 200 [ 0;  0;  0;  0;  0;  0;  0] LOAD 0 ].
Definition gasKITTRGB : list S_ANIMATION_INSTRUCTION_RGB :=
  [ C 100 [ 0;  0;  0;  0] LOAD 0;
    C 100 [ 5;  0;  0;  0] ADD_REPEAT 2;
    C  50 [ 0;  5;  0;  0] ADD_REPEAT 2;
    C  50 [ 0;  0;  5;  0] ADD_REPEAT 2;
    C  50 [ 0;  0;  0;  5] ADD_REPEAT 2;
    C 750 [15; 15; 15; 15] LOAD 0 ].

(** Declared with 13 (resp. 6) elements, 3 of them initialised. *)
Definition gasAnimation2 : list S_ANIMATION_INSTRUCTION_NORMAL :=
  [ N 115 [ 0;  0;  0;  0;  0;  0;  0] LOAD 0;
    N 115 [ 3;  3;  3;  3;  3;  3;  3] ADD_REPEAT 4;
    N 115 [-3; -3; -3; -3; -3; -3; -3] ADD_REPEAT 4 ] ++ replicate 10 N0.
Definition gasAnimation2RGB : list S_ANIMATION_INSTRUCTION_RGB :=
  [ C 115 [ 0;  0;  0;  0] LOAD 0;
    C 115 [ 3;  3;  3;  3] ADD_REPEAT 4;
    C 115 [-3; -3; -3; -3] ADD_REPEAT 4 ] ++ replicate 3 C0.

Definition gasAnimation3 : list S_ANIMATION_INSTRUCTION_NORMAL :=
  [ N 70 [15; 15; 15; 15; 15; 15; 15] LOAD 0;
    N 70 [-1; -1; -1; -1; -1; -1; -1] ADD_REPEAT 14;
    N 70 [ 0;  0;  0;  0;  0;  0;  0] LOAD 0;
    N 70 [ 1;  1;  1;  1;  1;  1;  1] ADD_REPEAT 14 ].
Definition gasAnimation3RGB : list S_ANIMATION_INSTRUCTION_RGB :=
  [ C 70 [15; 15;  0;  0] LOAD 0;
    C 70 [-1; -1;  1;  1] ADD_REPEAT 14;
    C 70 [ 0;  0; 15; 15] LOAD 0;
    C 70 [ 1;  1; -1; -1] ADD_REPEAT 14 ].

Definition gasAnimation4 : list S_ANIMATION_INSTRUCTION_NORMAL :=
  [ N 125 [ 0;  0;  0;  0;  0;  0;  0] LOAD 0;
    N 125 [ 0;  0;  3;  0;  0;  0;  0] LOAD 0;
    N 125 [ 0;  3;  6;  3;  0;  0;  0] LOAD 0;
    N 125 [ 3;  6;  9;  6;  3;  0;  0] LOAD 0;
    N 125 [ 6;  9; 12;  9;  6;  3;  0] LOAD 0;
    N 125 [ 9; 12; 15; 12;  9;  6;  3] LOAD 0;
    N 125 [12; 15; 15; 15; 12;  9;  6] LOAD 0;
    N 125 [15; 15; 12; 15; 15; 12;  9] LOAD 0;
    N 125 [15; 12;  9; 12; 15; 15; 12] LOAD 0;
    N 125 [12;  9;  6;  9; 12; 15; 15] LOAD 0;
    N 125 [-3; -3; -3; -3; -3; -3; -3] ADD_REPEAT 1;
    N 125 [ 3;  0;  0;  0;  3;  6;  9] LOAD 0;
    N 125 [ 0;  0;  0;  0;  0;  3;  6] LOAD 0;
    N 125 [ 0;  0;  0;  0;  0;  0;  3] LOAD 0 ].
Definition gasAnimation4RGB : list S_ANIMATION_INSTRUCTION_RGB :=
  [ C 250 [ 0;  0;  0;  0] LOAD 0;
    C 125 [ 0;  0;  3;  0] LOAD 0;
    C 125 [ 0;  3;  6;  0] LOAD 0;
    C 125 [ 3;  3;  3;  2] ADD_REPEAT 2;
    C 125 [12; 15; 15;  8] LOAD 0;
    C 125 [15; 15; 12;  8] LOAD 0;
    C 125 [15; 12;  9;  8] LOAD 0;
    C 125 [-3; -3; -3; -2] ADD_REPEAT 2;
    C 125 [ 3;  0;  0;  0] LOAD 0;
    C 250 [ 0;  0;  0;  0] LOAD 0 ].

Definition gasAnimation5 : list S_ANIMATION_INSTRUCTION_NORMAL :=
  [ N 1525 [ 0;  0;  0;  0;  0;  0;  0] LOAD 0;
    N   75 [ 3;  3;  3;  3;  3;  3;  3] ADD_REPEAT 4;
    N   75 [-3; -3; -3; -3; -3; -3; -3] ADD_REPEAT 4;
    N  450 [ 0;  0;  0;  0;  0;  0;  0] LOAD 0 ].
Definition gasAnimation5RGB : list S_ANIMATION_INSTRUCTION_RGB :=
  [ C  75 [ 0;  0;  0;  0] LOAD 0;
    C  75 [ 3;  0;  0;  0] ADD_REPEAT 4;
    C  75 [-3;  0;  0;  0] ADD_REPEAT 4;
    C  75 [ 0;  3;  0;  0] ADD_REPEAT 4;
    C  75 [ 0; -3;  0;  0] ADD_REPEAT 4;
    C 750 [ 0;  0;  0;  0] LOAD 0;
    C 450 [ 0;  0; 15; 15] LOAD 0 ].

Definition gasAnimation6 : list S_ANIMATION_INSTRUCTION_NORMAL :=
  [ N 120 [ 0;  0;  0;  0;  0;  0;  0] LOAD 0;
    N 120 [ 0;  0;  0;  0;  0;  0;  3] LOAD 0;
    N 120 [ 0;  0;  0;  0;  0;  3;  6] LOAD 0;
    N 120 [ 3;  0;  0;  0;  3;  6;  9] LOAD 0;
    N 120 [ 6;  3;  0;  3;  6;  9; 12] LOAD 0;
    N 120 [ 9;  6;  3;  6;  9; 12; 15] LOAD 0;
    N 120 [12;  9;  6;  9; 12; 15; 15] LOAD 0;
    N 120 [15; 12;  9; 12; 15; 15; 15] LOAD 0;
    N 120 [15; 15; 12; 15; 15; 15; 15] LOAD 0;
    N 840 [15; 15; 15; 15; 15; 15; 15] LOAD 0 ].
Definition gasAnimation6RGB : list S_ANIMATION_INSTRUCTION_RGB :=
  [ C 120 [ 0;  0;  0;  1] LOAD 0;
    C 120 [ 0;  0;  0;  3] LOAD 0;
    C 120 [ 0;  0;  0;  3] LOAD 0;
    C 120 [ 0;  0;  3;  6] LOAD 0;
    C 120 [ 0;  0;  3;  6] LOAD 0;
    C 120 [ 0;  3;  6;  9] LOAD 0;
    C 120 [ 0;  3;  6;  9] LOAD 0;
    C 120 [ 3;  6;  9; 12] LOAD 0;
    C 120 [ 6;  9; 12; 12] LOAD 0;
    C 840 [12; 12; 12; 12] LOAD 0 ].

(** The RGB array is declared with 6 elements, 5 of them initialised. *)
Definition gasAnimation7 : list S_ANIMATION_INSTRUCTION_NORMAL :=
  [ N 220 [15; 10;  5;  0;  0;  5; 10] LOAD 0;
    N 220 [10; 15; 10;  5;  0;  0;  5] LOAD 0;
    N 220 [ 5; 10; 15; 10;  5;  0;  0] LOAD 0;
    N 220 [ 0;  5; 10; 15; 10;  5;  0] LOAD 0;
    N 220 [ 0;  0;  5; 10; 15; 10;  5] LOAD 0;
    N 220 [ 5;  0;  0;  5; 10; 15; 10] LOAD 0;
    N 110 [10;  5;  0;  0;  5; 10; 15] LOAD 0 ].
Definition gasAnimation7RGB : list S_ANIMATION_INSTRUCTION_RGB :=
  [ C 110 [15;  0;  0; 15] LOAD 0;
    C 110 [ 0;  5;  0; -5] ADD_REPEAT 2;
    C 110 [-5;  0;  5;  0] ADD_REPEAT 2;
    C 110 [ 0; -5;  0;  5] ADD_REPEAT 2;
    C 110 [ 5;  0; -5;  0] ADD_REPEAT 2 ] ++ replicate 1 C0.

Definition gasBlackness : list S_ANIMATION_INSTRUCTION_NORMAL :=
  [ N 0xFFFF [0; 0; 0; 0; 0; 0; 0] LOAD 0 ].
Definition gasBlacknessRGB : list S_ANIMATION_INSTRUCTION_RGB :=
  [ C 0xFFFF [0; 0; 0; 0] LOAD 0 ].

(** [sizeof(x)/sizeof(x[0])] *)
Definition count {A} (l : list A) : Z := Z.of_nat (length l).

(** The last row of the table passes [gasBlackness] where an RGB
    instruction array is expected, with the length of
    [gasBlacknessRGB].  Read through the RGB structure, the first
    element of [gasBlackness] has the same timing, four zero brightness
    bytes, and its opcode and operand fall on brightness bytes 4 and 5,
    which are zero: it reads as the element of [gasBlacknessRGB]. *)
Definition gasAnimations : list S_ANIMATION :=
  [ mkAnimation (count gasKITT) gasKITT (count gasKITTRGB) gasKITTRGB;
    mkAnimation (count gasAnimation2) gasAnimation2 (count gasAnimation2RGB) gasAnimation2RGB;
    mkAnimation (count gasAnimation3) gasAnimation3 (count gasAnimation3RGB) gasAnimation3RGB;
    mkAnimation (count gasAnimation4) gasAnimation4 (count gasAnimation4RGB) gasAnimation4RGB;
    mkAnimation (count gasAnimation5) gasAnimation5 (count gasAnimation5RGB) gasAnimation5RGB;
    mkAnimation (count gasAnimation6) gasAnimation6 (count gasAnimation6RGB) gasAnimation6RGB;
    mkAnimation (count gasAnimation7) gasAnimation7 (count gasAnimation7RGB) gasAnimation7RGB;
    mkAnimation (count gasBlackness) gasBlackness (count gasBlacknessRGB) gasBlacknessRGB ].

End Catalog.

(** The state after [LED_Init], [RGBLED_Init] and [Animation_Init]: the
    brightness arrays are zeroed, the static variables have their
    initialisers, [now] is the timer value read by [Animation_Init] and
    [idx] the persisted animation index. *)
Definition power_on (now idx : Z) : engine :=
  Animation_Init now
    (mkEngine (replicate LEDS_NUM 0) (replicate NUM_RGBLED_COLORS 0) 0 0 0 0xFF 0 0xFF 0 idx).

(** ** Notions used by the properties *)

Definition MAX_LEVEL : Z := 15.

(** A brightness vector of [n] channels, each within [0, MAX_LEVEL]. *)
Definition levels_ok (n : nat) (a : list Z) : Prop :=
  length a = n ∧ Forall (fun v => 0 ≤ v ≤ MAX_LEVEL) a.

Definition brightness_ok (s : engine) : Prop :=
  levels_ok LEDS_NUM (gau8LEDBrightness s) ∧ levels_ok NUM_RGBLED_COLORS (gau8RGBLEDs s).

(** Typing of a brightness initialiser: [n] bytes; the operand vector of a
    LOAD is copied verbatim, so the catalog property "LOAD operand vectors
    lie within [0, 15]" is checked on it. *)
Definition vector_ok (n : nat) (op : Z) (v : list Z) : bool :=
  (length v =? n)%nat
  && forallb (fun x => (0 <=? x) && (x <? 256)) v
  && ((negb (op =? LOAD)) || forallb (fun x => x <=? MAX_LEVEL) v).

Definition animation_ok (a : S_ANIMATION) : bool :=
  forallb (fun i => vector_ok LEDS_NUM (u8AnimationOpcode i) (au8LEDBrightness i))
    (psInstructionsNormal a)
  && forallb (fun i => vector_ok NUM_RGBLED_COLORS (u8AnimationOpcodeRGB i)
                         (au8RGBLEDBrightness i))
       (psInstructionsRGB a).

Definition catalog_ok (cat : list S_ANIMATION) : bool := forallb animation_ok cat.

(** The engine states reachable from power-on through the control
    operations. *)
Inductive reachable (cat : list S_ANIMATION) : engine -> Prop :=
  | reach_power_on now idx : reachable cat (power_on now idx)
  | reach_Set s idx : reachable cat s -> reachable cat (Animation_Set cat idx s)
  | reach_Cycle s now s' :
      reachable cat s -> Animation_Cycle cat now s = Some s' -> reachable cat s'.

(** The brightness vector an instruction leaves behind when it executes. *)
Definition brightness_after_Normal (i : S_ANIMATION_INSTRUCTION_NORMAL) (a : list Z) : list Z :=
  if u8AnimationOpcode i =? LOAD then au8LEDBrightness i
  else effect_Normal (u8AnimationOpcode i) (au8LEDBrightness i) a.

Definition brightness_after_RGB (i : S_ANIMATION_INSTRUCTION_RGB) (a : list Z) : list Z :=
  if u8AnimationOpcodeRGB i =? LOAD then au8RGBLEDBrightness i
  else effect_RGB (u8AnimationOpcodeRGB i) (au8RGBLEDBrightness i) a.

(** Sum of the durations of a timeline, without wrap-around. *)
Definition total_Normal (l : list S_ANIMATION_INSTRUCTION_NORMAL) : Z :=
  foldr (fun i acc => u16TimingMs i + acc) 0 l.

(** The ADD policy per channel: the 8-bit sum of the brightness and the
    signed operand, reset to 0 when it leaves [0, MAX_LEVEL]. *)
Definition wrap_to_black (b operand : Z) : Z :=
  let v := u8 (b + i8 operand) in
  if (0 <=? v) && (v <=? MAX_LEVEL) then v else 0.

(** The value one iteration of the ADD loop leaves in its channel. *)
Definition add_channel (b o : Z) : Z := let v := u8 (b + o) in if v >? 15 then 0 else v.

(** The time delta of a tick reaching one timeline's accumulator. *)
Definition elapse_Normal (d : Z) (s : engine) : engine :=
  set_NormalTimer (u16 (gu16NormalTimer s + d)) s.
Definition elapse_RGB (d : Z) (s : engine) : engine :=
  set_RGBTimer (u16 (gu16RGBTimer s + d)) s.

(** Runs of one timeline around instruction [k]: a sequence of ticks, each
    adding a time delta and executing the timeline's section of
    [Animation_Cycle].  A tick either selects the instruction that was
    executed last (nothing to do), or selects [k], which has not been
    marked as executed: the instruction is then applied.  The run counts
    the applications [n] and the elapsed time [D]. *)
Section Runs.

Variable cycle : engine -> option engine.
Variable select : engine -> option Z.
Variable elapse : Z -> engine -> engine.
Variable last : engine -> Z.
Variable len : Z.

Inductive run (k : Z) : nat -> Z -> engine -> engine -> Prop :=
  | run_start s : run k 0 0 s s
  | run_idle n D s s1 d s2 :
      run k n D s s1 ->
      select (elapse d s1) = Some (last s1) -> last s1 < len ->
      cycle (elapse d s1) = Some s2 ->
      run k n (D + d) s s2
  | run_apply n D s s1 d s2 :
      run k n D s s1 ->
      select (elapse d s1) = Some k -> k < len -> last s1 ≠ k ->
      cycle (elapse d s1) = Some s2 ->
      run k (S n) (D + d) s s2.

End Runs.

Definition run_Normal (a : S_ANIMATION) :=
  run (Cycle_Normal a) (state_Normal a) elapse_Normal u8LastState (u8AnimationLengthNormal a).
Definition run_RGB (a : S_ANIMATION) :=
  run (Cycle_RGB a) (state_RGB a) elapse_RGB u8LastStateRGB (u8AnimationLengthRGB a).

(** Which channels are known to be within range while a source operation
    executes: [ranged m a] says so for the channels marked in [m]. *)
Definition ranged (m : list bool) (a : list Z) : Prop :=
  Forall (fun v => 0 ≤ v < 256) a ∧ ∀ i, m !! i = Some true → 0 ≤ rd a i ≤ MAX_LEVEL.

(** A one-instruction looping animation, used to exercise the restart. *)
Module Pulse.
Definition step : S_ANIMATION_INSTRUCTION_NORMAL :=
  mkNormal 100 [1; 1; 1; 1; 1; 1; 1] ADD 0.
Definition dark : S_ANIMATION_INSTRUCTION_RGB :=
  mkRGB 0xFFFF [0; 0; 0; 0] LOAD 0.
Definition animation : S_ANIMATION := mkAnimation 1 [step] 1 [dark].
Definition catalog : list S_ANIMATION := [animation].
End Pulse.

(** The first entry of the shipped table. *)
Definition KITT : S_ANIMATION :=
  mkAnimation (Catalog.count Catalog.gasKITT) Catalog.gasKITT
    (Catalog.count Catalog.gasKITTRGB) Catalog.gasKITTRGB.

(** The fourth entry of the shipped table, and engine states around its
    fade-out instruction (index 10, ADD | REPEAT with operand 1) and around
    the first ramp of the RGB timeline of [KITT] (index 1, ADD | REPEAT with
    operand 2). *)
Module Scenario.
Definition Animation4 : S_ANIMATION :=
  mkAnimation (Catalog.count Catalog.gasAnimation4) Catalog.gasAnimation4
    (Catalog.count Catalog.gasAnimation4RGB) Catalog.gasAnimation4RGB.

Definition fade3 : engine :=
  mkEngine [6; 3; 0; 3; 6; 9; 9] [0; 0; 0; 0] 1250 0 0 10 0 0xFF 0 3.

Definition ramp0 : engine :=
  mkEngine [0; 0; 0; 0; 0; 0; 0] [0; 0; 0; 0] 0 90 0 0 0 0 0 0.
Definition ramp1 : engine :=
  mkEngine [0; 0; 0; 0; 0; 0; 0] [5; 0; 0; 0] 0 0 0 0 0 0 2 0.
End Scenario.

(** Sum of the durations of an RGB timeline, without wrap-around. *)
Definition total_RGB (l : list S_ANIMATION_INSTRUCTION_RGB) : Z :=
  foldr (fun i acc => u16TimingMsRGB i + acc) 0 l.

(** A positive amount [c] poured into a row of channels from its first
    one: a channel takes what it can hold up to [MAX_LEVEL] and hands the
    rest to the next; what the last channel cannot hold is dropped. *)
Fixpoint pour (c : Z) (l : list Z) : list Z :=
  match l with
  | [] => []
  | x :: l' =>
      if x + c <=? MAX_LEVEL then (x + c) :: l'
      else MAX_LEVEL :: pour (x + c - MAX_LEVEL) l'
  end.

(** ** The LED drivers (led.c, rgbled.c) *)

(** led.c, rgbled.c *)
Definition PWM_LEVELS : Z := 16.
Definition COLOR_LEVELS : Z := 16.

(** The port mode registers written by the two drivers. *)
Record ports := mkPorts {
  P1M0 : Z; P1M1 : Z;
  P3M0 : Z; P3M1 : Z;
  P5M0 : Z; P5M1 : Z
}.

(** The table in the comments of [LED_Init] and [RGBLED_Init]: the mode of
    pin [n] of a port from bit [n] of its PxM0 and PxM1 registers. *)
Inductive pin_mode := Bidirectional | Input | Output | OpenDrain.

Definition mode_of (m0 m1 n : Z) : pin_mode :=
  match Z.testbit m0 n, Z.testbit m1 n with
  | false, false => Bidirectional
  | false, true => Input
  | true, false => Output
  | true, true => OpenDrain
  end.

(** [1u << n] *)
Definition bit (n : Z) : Z := Z.shiftl 1 n.

(** The globals and static locals of led.c, and the levels of the pins
    LED0 .. LED6 ([false] is 0). *)
Record led_driver := mkLedDriver {
  gu8PWMCounter : Z;
  gbitSide : bool;
  bDrive : bool;
  u8DriveCounter : Z;
  LED : list bool
}.

(** [LED_Init], on [gau8LEDBrightness], the driver and the ports. *)
Definition LED_Init (bri : list Z) (d : led_driver) (p : ports)
    : list Z * led_driver * ports :=
  let bri := for_each (upto 0 LEDS_NUM) (fun u8Index a => <[u8Index := 0]> a) bri in
  let d := mkLedDriver 0 false (bDrive d) (u8DriveCounter d) (LED d) in
  let p3m0 := Z.lor (P3M0 p) (Z.lor (Z.lor (bit 2) (bit 4)) (bit 5)) in
  let p3m1 := Z.land (P3M1 p)
                (Z.land (Z.land (Z.lnot (bit 2)) (Z.lnot (bit 4))) (Z.lnot (bit 5))) in
  let p1m0 := Z.lor (P1M0 p) (Z.lor (Z.lor (Z.lor (bit 0) (bit 1)) (bit 6)) (bit 7)) in
  let p1m1 := Z.land (P1M1 p)
                (Z.land (Z.land (Z.land (Z.lnot (bit 0)) (Z.lnot (bit 1))) (Z.lnot (bit 6)))
                   (Z.lnot (bit 7))) in
  (bri, d, mkPorts p1m0 p1m1 p3m0 p3m1 (P5M0 p) (P5M1 p)).

(** [LED_Interrupt] *)
Definition LED_Interrupt (bri : list Z) (d : led_driver) : led_driver :=
  let u8DriveCounter := u8 (u8DriveCounter d + 1) in
  let '(bDrive, u8DriveCounter) :=
    if u8DriveCounter =? 5 then (true, 0) else (false, u8DriveCounter) in
  let gu8PWMCounter :=
    if bDrive then
      let c := u8 (gu8PWMCounter d + 1) in
      if c =? PWM_LEVELS then 0 else c
    else gu8PWMCounter d in
  let pin (k : nat) := if bDrive && (rd bri k >? gu8PWMCounter) then false else true in
  mkLedDriver gu8PWMCounter (gbitSide d) bDrive u8DriveCounter
    [pin 0%nat; pin 1%nat; pin 2%nat; pin 3%nat; pin 4%nat; pin 5%nat; pin 6%nat].

(** How many of the next [n] interrupts leave pin LED[k] at 0. *)
Fixpoint LED_low_count (n : nat) (bri : list Z) (k : nat) (d : led_driver) : nat :=
  match n with
  | O => O
  | S n =>
      let d := LED_Interrupt bri d in
      ((match LED d !! k with Some false => 1 | _ => 0 end) + LED_low_count n bri k d)%nat
  end.

(** The static counter of [RGBLED_Interrupt] and the levels of the pins
    PIN_S, PIN_E, PIN_1 and PIN_5.  The counter is declared without a
    type, so it is an [int]; it stays below [COLOR_LEVELS]. *)
Record rgb_driver := mkRgbDriver {
  u8Cnt : Z;
  PIN : list bool
}.

(** [RGBLED_Init], on [gau8RGBLEDs], the driver and the ports. *)
Definition RGBLED_Init (rgb : list Z) (d : rgb_driver) (p : ports)
    : list Z * rgb_driver * ports :=
  let rgb := for_each (upto 0 NUM_RGBLED_COLORS) (fun i a => <[i := 0]> a) rgb in
  let d := mkRgbDriver (u8Cnt d) [true; true; true; true] in
  let p5m0 := Z.lor (P5M0 p) (Z.lor (bit 4) (bit 5)) in
  let p5m1 := Z.land (P5M1 p) (Z.land (Z.lnot (bit 4)) (Z.lnot (bit 5))) in
  let p3m0 := Z.lor (P3M0 p) (Z.lor (bit 3) (bit 7)) in
  let p3m1 := Z.land (P3M1 p) (Z.land (Z.lnot (bit 3)) (Z.lnot (bit 7))) in
  (rgb, d, mkPorts (P1M0 p) (P1M1 p) p3m0 p3m1 p5m0 p5m1).

(** [RGBLED_Interrupt]: the new driver state and, per pin, whether the
    interrupt emitted a current pulse on it (pin to 0, delay, pin to 1). *)
Definition RGBLED_Interrupt (rgb : list Z) (d : rgb_driver) : rgb_driver * list bool :=
  let pulse (k : nat) := rd rgb k >? u8Cnt d in
  let pin (k : nat) := if pulse k then true else default true (PIN d !! k) in
  let cnt := u8Cnt d + 1 in
  let cnt := if COLOR_LEVELS <=? cnt then 0 else cnt in
  (mkRgbDriver cnt [pin 0%nat; pin 1%nat; pin 2%nat; pin 3%nat],
   [pulse 0%nat; pulse 1%nat; pulse 2%nat; pulse 3%nat]).

(** How many pulses the next [n] interrupts emit on pin [k]. *)
Fixpoint RGB_pulse_count (n : nat) (rgb : list Z) (k : nat) (d : rgb_driver) : nat :=
  match n with
  | O => O
  | S n =>
      let '(d, pulses) := RGBLED_Interrupt rgb d in
      ((match pulses !! k with Some true => 1 | _ => 0 end) + RGB_pulse_count n rgb k d)%nat
  end.

(** An animation whose second instruction repeats with operand 0, and
    engine states around that instruction. *)
Module Stuck.
Definition hold : S_ANIMATION_INSTRUCTION_NORMAL :=
  mkNormal 100 [0; 0; 0; 0; 0; 0; 0] LOAD 0.
Definition climb : S_ANIMATION_INSTRUCTION_NORMAL :=
  mkNormal 50 [1; 1; 1; 1; 1; 1; 1] (Z.lor ADD REPEAT) 0.
Definition animation : S_ANIMATION := mkAnimation 2 [hold; climb] 1 [Pulse.dark].

Definition climb0 : engine :=
  mkEngine [0; 0; 0; 0; 0; 0; 0] [0; 0; 0; 0] 90 0 0 0 0 0 0 0.
Definition climb1 : engine :=
  mkEngine [1; 1; 1; 1; 1; 1; 1] [0; 0; 0; 0] 50 0 0 0 0 0 0 0.
Definition climb2 : engine :=
  mkEngine [2; 2; 2; 2; 2; 2; 2] [0; 0; 0; 0] 50 0 0 0 0 0 0 0.
End Stuck.

(** An animation whose first linear-bank instruction repeats, and the
    engine state 10 ms into it. *)
Module Eager.
Definition first : S_ANIMATION_INSTRUCTION_NORMAL :=
  mkNormal 100 [1; 1; 1; 1; 1; 1; 1] (Z.lor ADD REPEAT) 3.
Definition animation : S_ANIMATION := mkAnimation 1 [first] 1 [Pulse.dark].
End Eager.

(** ** Runs of ticks and the memory behind the RGB arrays *)


(** The instruction arrays lie in code memory, and [psInstructionsRGB]
    is indexed without a bound check: the element at index
    [u8AnimationLengthRGB] is what the eight bytes that follow the array
    read as.  [followed_by x a] is the animation [a] with those bytes
    reading as [x]; the length fields are unchanged. *)
Definition followed_by (x : S_ANIMATION_INSTRUCTION_RGB) (a : S_ANIMATION) : S_ANIMATION :=
  mkAnimation (u8AnimationLengthNormal a) (psInstructionsNormal a)
    (u8AnimationLengthRGB a) (psInstructionsRGB a ++ [x]).

(** The catalog in a memory where [beyond idx] follows the RGB array of
    animation [idx]. *)
Definition in_memory (beyond : nat -> S_ANIMATION_INSTRUCTION_RGB) (cat : list S_ANIMATION)
    : list S_ANIMATION :=
  imap (fun idx a => followed_by (beyond idx) a) cat.

(** Engine states of the first shipped animation under a coarse tick
    period: after 24 ticks of 60 ms ([late]; [fetched] is [late] with the
    time of the next tick added), and around the third ramp of the RGB
    timeline (index 3, ADD | REPEAT with operand 2) under ticks of 54 ms. *)
Module Coarse.
End Coarse.

(** * Properties *)

(** ** Machine arithmetic *)

Lemma u8_range x : 0 ≤ u8 x < 256.
Proof. unfold u8. apply Z.mod_pos_bound. lia. Qed.

Lemma u16_range x : 0 ≤ u16 x < 65536.
Proof. unfold u16. apply Z.mod_pos_bound. lia. Qed.

Lemma u8_small x : 0 ≤ x < 256 → u8 x = x.
Proof. intros. unfold u8. apply Z.mod_small. lia. Qed.

Lemma u16_small x : 0 ≤ x < 65536 → u16 x = x.
Proof. intros. unfold u16. apply Z.mod_small. lia. Qed.

Lemma i8_small x : 0 ≤ x < 128 → i8 x = x.
Proof.
  intros. unfold i8. rewrite Z.mod_small by lia.
  destruct (Z.ltb_spec x 128); lia.
Qed.

Lemma i8_high x : 128 ≤ x < 256 → i8 x = x - 256.
Proof.
  intros. unfold i8. rewrite Z.mod_small by lia.
  destruct (Z.ltb_spec x 128); lia.
Qed.

Lemma i8_range x : -128 ≤ i8 x < 128.
Proof.
  unfold i8. pose proof (Z.mod_pos_bound x 256 ltac:(lia)).
  destruct (Z.ltb_spec (x mod 256) 128); lia.
Qed.

(** Adding the signed reading of a byte is adding the byte, in 8 bits. *)
Lemma u8_add_i8 b x : u8 (b + i8 x) = u8 (b + x).
Proof.
  unfold u8, i8. cbv zeta.
  destruct (Z.ltb_spec (x mod 256) 128).
  - now rewrite Zplus_mod_idemp_r.
  - replace (b + (x mod 256 - 256)) with (b + x mod 256 + (-1) * 256) by lia.
    rewrite Z_mod_plus_full. now rewrite Zplus_mod_idemp_r.
Qed.

(** ** SaturateBrightness *)

Lemma SaturateBrightness_range v :
  0 ≤ v < 256 → 0 ≤ fst (SaturateBrightness v) ≤ MAX_LEVEL.
Proof.
  intros Hv. unfold SaturateBrightness, MAX_LEVEL.
  destruct (Z.ltb_spec (i8 v) 0); [simpl; lia|].
  destruct (Z.gtb_spec (i8 v) 15); [simpl; lia|].
  simpl. destruct (Z.lt_ge_cases v 128).
  - rewrite i8_small in * by lia. lia.
  - rewrite i8_high in * by lia. lia.
Qed.

Lemma SaturateBrightness_excess v :
  0 ≤ v < 256 → i8 v = fst (SaturateBrightness v) + snd (SaturateBrightness v).
Proof.
  intros Hv. unfold SaturateBrightness.
  destruct (Z.ltb_spec (i8 v) 0); [simpl; lia|].
  destruct (Z.gtb_spec (i8 v) 15); simpl.
  - pose proof (i8_range v). rewrite (i8_small (i8 v - 15)) by lia. lia.
  - destruct (Z.lt_ge_cases v 128).
    + rewrite i8_small by lia. lia.
    + rewrite i8_high in * by lia. lia.
Qed.

Lemma SaturateBrightness_id v :
  0 ≤ v ≤ MAX_LEVEL → SaturateBrightness v = (v, 0).
Proof.
  unfold MAX_LEVEL. intros Hv. unfold SaturateBrightness.
  rewrite i8_small by lia.
  destruct (Z.ltb_spec v 0); [lia|].
  destruct (Z.gtb_spec v 15); [lia|]. reflexivity.
Qed.

(** C10: for every 8-bit value [b], [SaturateBrightness] leaves a value
    [v'] within [0, 15] and returns [r] with [signed(b) = v' + r]; when
    [b] is already within [0, 15], [v' = b] and [r = 0]. *)
Theorem C10_SaturateBrightness_excess (b : Z) :
  0 ≤ b < 256 →
  let '(v', r) := SaturateBrightness b in
  0 ≤ v' ≤ 15 ∧ i8 b = v' + r ∧ (0 ≤ b ≤ 15 → v' = b ∧ r = 0).
Proof.
  intros Hb.
  pose proof (SaturateBrightness_range b Hb) as Hr.
  pose proof (SaturateBrightness_excess b Hb) as He.
  pose proof (SaturateBrightness_id b) as Hi.
  destruct (SaturateBrightness b) as [v' r]. simpl in *.
  unfold MAX_LEVEL in *. repeat split; try lia.
  all: intros; specialize (Hi ltac:(lia)); congruence.
Qed.

Lemma C10_SaturateBrightness_excess_witness :
  0 ≤ 250 < 256 ∧
  let '(v', r) := SaturateBrightness 250 in
  0 ≤ v' ≤ 15 ∧ i8 250 = v' + r ∧ (0 ≤ 250 ≤ 15 → v' = 250 ∧ r = 0).
Proof. split; [lia | apply (C10_SaturateBrightness_excess 250); lia]. Defined.

(** ** Control operations *)

(** C7: a tick whose time equals the recorded timestamp changes nothing,
    so a second tick at the same time leaves the state of the first. *)
Theorem C7_stationary_tick (cat : list S_ANIMATION) (s : engine) :
  Animation_Cycle cat (gu16LastCall s) s = Some s ∧
  ∀ t s', Animation_Cycle cat t s = Some s' → Animation_Cycle cat t s' = Some s'.
Proof.
  assert (Hsame : ∀ x, Animation_Cycle cat (gu16LastCall x) x = Some x).
  { intros x. unfold Animation_Cycle. now rewrite Z.eqb_refl. }
  split; [apply Hsame|].
  intros t s' H. unfold Animation_Cycle in H.
  destruct (Z.eqb_spec t (gu16LastCall s)) as [->|Hne]; simpl in H.
  - injection H as <-. apply Hsame.
  - destruct (cat !! _) as [a|]; [|discriminate]. simpl in H.
    destruct (Cycle_Normal a _) as [s1|]; [|discriminate]. simpl in H.
    destruct (Cycle_RGB a s1) as [s2|]; [|discriminate]. simpl in H.
    injection H as <-.
    change t with (gu16LastCall (set_LastCall t s2)) at 1. apply Hsame.
Qed.

Lemma C7_stationary_tick_witness :
  Animation_Cycle Catalog.gasAnimations 1600 (power_on 0 0)
  = Some (mkEngine [0; 0; 0; 0; 0; 0; 0] [0; 0; 0; 0] 0 0 1600 0 0 0 0 0) ∧
  Animation_Cycle Catalog.gasAnimations 1600
    (mkEngine [0; 0; 0; 0; 0; 0; 0] [0; 0; 0; 0] 0 0 1600 0 0 0 0 0)
  = Some (mkEngine [0; 0; 0; 0; 0; 0; 0] [0; 0; 0; 0] 0 0 1600 0 0 0 0 0).
Proof.
  assert (H : Animation_Cycle Catalog.gasAnimations 1600 (power_on 0 0)
    = Some (mkEngine [0; 0; 0; 0; 0; 0; 0] [0; 0; 0; 0] 0 0 1600 0 0 0 0 0))
    by (vm_compute; reflexivity).
  split; [exact H|].
  exact (proj2 (C7_stationary_tick Catalog.gasAnimations (power_on 0 0)) 1600 _ H).
Defined.

(** C8: [Animation_Set] ignores an index at or above [NUM_ANIMATIONS]; for
    an index below it stores the index and resets both timers to 0, both
    last-instruction indices to 0xFF and both repetition counters to 0. *)
Theorem C8_Animation_Set (cat : list S_ANIMATION) (idx : Z) (s : engine) :
  (NUM_ANIMATIONS cat ≤ idx → Animation_Set cat idx s = s) ∧
  (idx < NUM_ANIMATIONS cat →
     Animation_Set cat idx s
     = mkEngine (gau8LEDBrightness s) (gau8RGBLEDs s) 0 0 (gu16LastCall s)
         0xFF 0 0xFF 0 idx).
Proof.
  unfold Animation_Set. split; intros H.
  - destruct (Z.ltb_spec idx (NUM_ANIMATIONS cat)); [lia | reflexivity].
  - destruct (Z.ltb_spec idx (NUM_ANIMATIONS cat)); [reflexivity | lia].
Qed.

Lemma C8_Animation_Set_witness :
  NUM_ANIMATIONS Catalog.gasAnimations ≤ 8 ∧
  3 < NUM_ANIMATIONS Catalog.gasAnimations ∧
  Animation_Set Catalog.gasAnimations 8 (power_on 5 2) = power_on 5 2 ∧
  Animation_Set Catalog.gasAnimations 3 (power_on 5 2)
  = mkEngine (replicate LEDS_NUM 0) (replicate NUM_RGBLED_COLORS 0) 0 0 5 0xFF 0 0xFF 0 3.
Proof.
  assert (H8 : NUM_ANIMATIONS Catalog.gasAnimations ≤ 8) by (vm_compute; discriminate).
  assert (H3 : 3 < NUM_ANIMATIONS Catalog.gasAnimations) by (vm_compute; reflexivity).
  split; [exact H8|]. split; [exact H3|]. split.
  - exact (proj1 (C8_Animation_Set Catalog.gasAnimations 8 (power_on 5 2)) H8).
  - exact (proj2 (C8_Animation_Set Catalog.gasAnimations 3 (power_on 5 2)) H3).
Defined.

(** The index guard of [Animation_Cycle] is the only place where a tick
    writes the animation index. *)
Lemma Exec_Normal_index i k s : u8AnimationIndex (Exec_Normal i k s) = u8AnimationIndex s.
Proof.
  unfold Exec_Normal. destruct (_ =? LOAD); [reflexivity|].
  destruct (repeat_ctl _ _ _ _ _) as [[? ?] ?]. reflexivity.
Qed.

Lemma Exec_RGB_index i k s : u8AnimationIndex (Exec_RGB i k s) = u8AnimationIndex s.
Proof.
  unfold Exec_RGB. destruct (_ =? LOAD); [reflexivity|].
  destruct (repeat_ctl _ _ _ _ _) as [[? ?] ?]. reflexivity.
Qed.

Lemma Cycle_Normal_index a s s' :
  Cycle_Normal a s = Some s' → u8AnimationIndex s' = u8AnimationIndex s.
Proof.
  unfold Cycle_Normal. destruct (state_Normal a s) as [k|]; [simpl|discriminate].
  destruct (_ <=? k); simpl.
  - destruct (negb _).
    + destruct (_ !! _); [simpl|discriminate]. intros [= <-]. now rewrite Exec_Normal_index.
    + now intros [= <-].
  - destruct (negb _).
    + destruct (_ !! _); [simpl|discriminate]. intros [= <-]. now rewrite Exec_Normal_index.
    + now intros [= <-].
Qed.

Lemma Cycle_RGB_index a s s' :
  Cycle_RGB a s = Some s' → u8AnimationIndex s' = u8AnimationIndex s.
Proof.
  unfold Cycle_RGB. destruct (state_RGB a s) as [k|]; [simpl|discriminate].
  destruct (negb _).
  - destruct (_ !! _); [simpl|discriminate]. intros [= <-]. now rewrite Exec_RGB_index.
  - now intros [= <-].
Qed.

(** C9, as the code has it: a successful [Animation_Set] writes the
    animation index, and so does the guard of [Animation_Cycle], which on a
    tick with a non-zero time delta resets an index at or above
    [NUM_ANIMATIONS] to 0; a tick never modifies an index below
    [NUM_ANIMATIONS]. *)
Theorem C9_index_writes (cat : list S_ANIMATION) (now : Z) (s s' : engine) :
  Animation_Cycle cat now s = Some s' →
  u8AnimationIndex s'
  = (if negb (now =? gu16LastCall s) && (NUM_ANIMATIONS cat <=? u8AnimationIndex s)
     then 0 else u8AnimationIndex s)
  ∧ (u8AnimationIndex s < NUM_ANIMATIONS cat → u8AnimationIndex s' = u8AnimationIndex s)
  ∧ ∀ idx, u8AnimationIndex (Animation_Set cat idx s)
           = if idx <? NUM_ANIMATIONS cat then idx else u8AnimationIndex s.
Proof.
  intros H.
  assert (E : u8AnimationIndex s'
    = (if negb (now =? gu16LastCall s) && (NUM_ANIMATIONS cat <=? u8AnimationIndex s)
       then 0 else u8AnimationIndex s)).
  { unfold Animation_Cycle in H. destruct (negb (now =? gu16LastCall s)); simpl in *.
    - destruct (cat !! _) as [a|]; [simpl in H|discriminate].
      destruct (Cycle_Normal a _) as [s1|] eqn:E1; [simpl in H|discriminate].
      destruct (Cycle_RGB a s1) as [s2|] eqn:E2; [simpl in H|discriminate].
      injection H as <-. simpl.
      rewrite (Cycle_RGB_index _ _ _ E2), (Cycle_Normal_index _ _ _ E1).
      unfold advance. simpl. destruct (_ <=? _); reflexivity.
    - now injection H as <-. }
  split; [exact E|]. split.
  - intros Hlt. rewrite E. destruct (Z.leb_spec (NUM_ANIMATIONS cat) (u8AnimationIndex s)).
    + lia.
    + now rewrite andb_false_r.
  - intros idx. unfold Animation_Set. destruct (idx <? _); reflexivity.
Qed.

Lemma C9_index_writes_witness :
  Animation_Cycle Catalog.gasAnimations 300 (power_on 0 3)
  = Some (mkEngine [0; 3; 6; 3; 0; 0; 0] [0; 0; 3; 0] 300 300 300 2 0 1 0 3)
  ∧ u8AnimationIndex (mkEngine [0; 3; 6; 3; 0; 0; 0] [0; 0; 3; 0] 300 300 300 2 0 1 0 3) = 3.
Proof.
  assert (H : Animation_Cycle Catalog.gasAnimations 300 (power_on 0 3)
    = Some (mkEngine [0; 3; 6; 3; 0; 0; 0] [0; 0; 3; 0] 300 300 300 2 0 1 0 3))
    by (vm_compute; reflexivity).
  split; [exact H|].
  refine (proj1 (proj2 (C9_index_writes _ _ _ _ H)) _). vm_compute. reflexivity.
Defined.

(** C9 as stated fails: from a persisted index of 200 a tick resets the
    index to 0. *)
Lemma C9_counterexample :
  u8AnimationIndex (power_on 0 200) = 200 ∧
  u8AnimationIndex <$> Animation_Cycle Catalog.gasAnimations 1 (power_on 0 200) = Some 0.
Proof. split; vm_compute; reflexivity. Qed.

(** ** The timeline sections *)

Lemma Exec_Normal_RGBTimer i k s : gu16RGBTimer (Exec_Normal i k s) = gu16RGBTimer s.
Proof.
  unfold Exec_Normal. destruct (_ =? LOAD); [reflexivity|].
  destruct (repeat_ctl _ _ _ _ _) as [[? ?] ?]. reflexivity.
Qed.

Lemma Exec_Normal_brightness i k s :
  gau8LEDBrightness (Exec_Normal i k s) = brightness_after_Normal i (gau8LEDBrightness s).
Proof.
  unfold Exec_Normal, brightness_after_Normal. destruct (_ =? LOAD); [reflexivity|].
  destruct (repeat_ctl _ _ _ _ _) as [[? ?] ?]. reflexivity.
Qed.

Lemma Exec_RGB_brightness i k s :
  gau8RGBLEDs (Exec_RGB i k s) = brightness_after_RGB i (gau8RGBLEDs s).
Proof.
  unfold Exec_RGB, brightness_after_RGB. destruct (_ =? LOAD); [reflexivity|].
  destruct (repeat_ctl _ _ _ _ _) as [[? ?] ?]. reflexivity.
Qed.

(** The linear-bank section once the scan has run off the end. *)
Lemma Cycle_Normal_exhausted a s k :
  state_Normal a s = Some k → u8AnimationLengthNormal a ≤ k →
  Cycle_Normal a s
  = if u8LastState s =? 0 then Some (restart s)
    else i ← psInstructionsNormal a !! 0%nat; Some (Exec_Normal i 0 (restart s)).
Proof.
  intros Hk Hle. unfold Cycle_Normal. rewrite Hk. simpl.
  destruct (Z.leb_spec (u8AnimationLengthNormal a) k); [|lia].
  change (u8LastState (restart s)) with (u8LastState s).
  destruct (u8LastState s =? 0); reflexivity.
Qed.

(** C3, as the code has it: when the linear-bank timeline is exhausted
    during a tick, the restart resets both elapsed-time accumulators,
    [gu16NormalTimer] and [gu16RGBTimer], to 0; the linear-bank section
    then leaves [gu16RGBTimer] at 0. *)
Theorem C3_restart_resets_both_timers (a : S_ANIMATION) (s : engine) (k : Z) :
  state_Normal a s = Some k → u8AnimationLengthNormal a ≤ k →
  Cycle_Normal a s
  = (if u8LastState s =? 0 then Some (restart s)
     else i ← psInstructionsNormal a !! 0%nat; Some (Exec_Normal i 0 (restart s)))
  ∧ gu16NormalTimer (restart s) = 0
  ∧ gu16RGBTimer (restart s) = 0
  ∧ ∀ s', Cycle_Normal a s = Some s' → gu16RGBTimer s' = 0.
Proof.
  intros Hk Hle. pose proof (Cycle_Normal_exhausted a s k Hk Hle) as E.
  split; [exact E|]. split; [reflexivity|]. split; [reflexivity|].
  intros s'. rewrite E. destruct (u8LastState s =? 0).
  - now intros [= <-].
  - destruct (_ !! _); [simpl|discriminate]. intros [= <-].
    now rewrite Exec_Normal_RGBTimer.
Qed.

Lemma C3_restart_resets_both_timers_witness :
  state_Normal KITT (elapse_RGB 1600 (elapse_Normal 1600 (power_on 0 0))) = Some 14
  ∧ u8AnimationLengthNormal KITT ≤ 14
  ∧ gu16RGBTimer (elapse_RGB 1600 (elapse_Normal 1600 (power_on 0 0))) = 1600
  ∧ ∀ s', Cycle_Normal KITT (elapse_RGB 1600 (elapse_Normal 1600 (power_on 0 0))) = Some s' →
          gu16RGBTimer s' = 0.
Proof.
  assert (H1 : state_Normal KITT (elapse_RGB 1600 (elapse_Normal 1600 (power_on 0 0))) = Some 14)
    by (vm_compute; reflexivity).
  assert (H2 : u8AnimationLengthNormal KITT ≤ 14) by (vm_compute; discriminate).
  split; [exact H1|]. split; [exact H2|]. split; [vm_compute; reflexivity|].
  exact (proj2 (proj2 (proj2 (C3_restart_resets_both_timers KITT _ 14 H1 H2)))).
Defined.

(** C3 as stated fails: on the shipped first animation, a tick 1600 ms
    after power-on exhausts the linear-bank timeline while [gu16RGBTimer]
    holds 1600, and the restart leaves it at 0. *)
Lemma C3_counterexample :
  state_Normal KITT (advance Catalog.gasAnimations 1600 (power_on 0 0))
  = Some (u8AnimationLengthNormal KITT)
  ∧ gu16RGBTimer (advance Catalog.gasAnimations 1600 (power_on 0 0)) = 1600
  ∧ gu16RGBTimer <$> Cycle_Normal KITT (advance Catalog.gasAnimations 1600 (power_on 0 0))
    = Some 0.
Proof. repeat split; vm_compute; reflexivity. Qed.

(** C4, on the code: on the shipped first animation, a first tick 1500 ms
    after power-on finds the RGB timeline exhausted; the instruction index
    is then the length of the array, 6, not 5, the fetch at that index is
    outside [psInstructionsRGB], and the tick has no defined result. *)
Theorem C4_RGB_exhausted_fetch :
  state_RGB KITT (advance Catalog.gasAnimations 1500 (power_on 0 0))
  = Some (u8AnimationLengthRGB KITT)
  ∧ u8AnimationLengthRGB KITT = 6
  ∧ length (psInstructionsRGB KITT) = 6%nat
  ∧ psInstructionsRGB KITT !! Z.to_nat (u8AnimationLengthRGB KITT) = None
  ∧ Cycle_RGB KITT (advance Catalog.gasAnimations 1500 (power_on 0 0)) = None
  ∧ Animation_Cycle Catalog.gasAnimations 1500 (power_on 0 0) = None.
Proof. repeat split; vm_compute; reflexivity. Qed.

(** The scan runs off the end once the timer exceeds the sum of all
    durations. *)
Lemma scan_Normal_exhausted rest :
  ∀ pre instrs timer acc,
    instrs = pre ++ rest →
    Forall (fun i => 0 ≤ u16TimingMs i) rest →
    0 ≤ acc → acc + total_Normal rest < timer → timer < 65536 →
    scan_Normal instrs timer (length rest) (Z.of_nat (length pre)) acc
    = Some (Z.of_nat (length pre) + Z.of_nat (length rest)).
Proof.
  induction rest as [|x rest IH]; intros pre instrs timer acc -> Hd Hacc Hsum Ht.
  - simpl. f_equal. lia.
  - apply Forall_cons in Hd as [Hx Hd]. simpl in Hsum.
    assert (Hrest : 0 ≤ total_Normal rest).
    { clear -Hd. induction Hd; simpl; [lia|]. unfold total_Normal in *. lia. }
    cbn [scan_Normal length]. rewrite Nat2Z.id, list_lookup_middle by reflexivity. simpl.
    rewrite u16_small by lia.
    destruct (Z.gtb_spec (acc + u16TimingMs x) timer); [lia|].
    replace (Z.of_nat (length pre) + 1) with (Z.of_nat (length (pre ++ [x])))
      by (rewrite length_app; simpl; lia).
    rewrite (IH (pre ++ [x])); try lia; try assumption.
    + f_equal. rewrite length_app. simpl. lia.
    + now rewrite <- app_assoc.
Qed.

(** C5, as the code has it: once the linear-bank accumulator exceeds the
    sum of all instruction durations, the tick restarts the timeline at
    instruction 0 with the accumulators reset to 0, and it applies the first
    instruction's effect to the brightness vector when the instruction
    executed last is not instruction 0; when it is, nothing is applied. *)
Theorem C5_looping_restart (a : S_ANIMATION) (s : engine)
    (i0 : S_ANIMATION_INSTRUCTION_NORMAL) :
  u8AnimationLengthNormal a = Z.of_nat (length (psInstructionsNormal a)) →
  Forall (fun i => 0 ≤ u16TimingMs i) (psInstructionsNormal a) →
  psInstructionsNormal a !! 0%nat = Some i0 →
  total_Normal (psInstructionsNormal a) < gu16NormalTimer s < 65536 →
  state_Normal a s = Some (u8AnimationLengthNormal a)
  ∧ gu16NormalTimer (restart s) = 0
  ∧ (u8LastState s ≠ 0 →
       Cycle_Normal a s = Some (Exec_Normal i0 0 (restart s))
       ∧ gau8LEDBrightness (Exec_Normal i0 0 (restart s))
         = brightness_after_Normal i0 (gau8LEDBrightness s))
  ∧ (u8LastState s = 0 → Cycle_Normal a s = Some (restart s)).
Proof.
  intros Hlen Hd H0 [Hsum Ht].
  assert (Hk : state_Normal a s = Some (u8AnimationLengthNormal a)).
  { unfold state_Normal. rewrite Hlen, Nat2Z.id.
    apply (scan_Normal_exhausted (psInstructionsNormal a) [] _ _ 0); auto; lia. }
  pose proof (Cycle_Normal_exhausted a s _ Hk ltac:(lia)) as E.
  split; [exact Hk|]. split; [reflexivity|]. split.
  - intros Hne. rewrite E. destruct (Z.eqb_spec (u8LastState s) 0); [contradiction|].
    rewrite H0. split; [reflexivity|]. now rewrite Exec_Normal_brightness.
  - intros H. rewrite E. now rewrite H.
Qed.

Lemma C5_looping_restart_witness :
  u8AnimationLengthNormal KITT = Z.of_nat (length (psInstructionsNormal KITT))
  ∧ total_Normal (psInstructionsNormal KITT)
    < gu16NormalTimer (elapse_Normal 1700 (power_on 0 0)) < 65536
  ∧ u8LastState (elapse_Normal 1700 (power_on 0 0)) ≠ 0
  ∧ Cycle_Normal KITT (elapse_Normal 1700 (power_on 0 0))
    = Some (Exec_Normal (mkNormal 200 [0; 0; 0; 0; 0; 0; 0] LOAD 0) 0
              (restart (elapse_Normal 1700 (power_on 0 0)))).
Proof.
  assert (H1 : u8AnimationLengthNormal KITT = Z.of_nat (length (psInstructionsNormal KITT)))
    by reflexivity.
  assert (H2 : Forall (fun i => 0 ≤ u16TimingMs i) (psInstructionsNormal KITT))
    by (repeat constructor; vm_compute; discriminate).
  assert (H3 : psInstructionsNormal KITT !! 0%nat
               = Some (mkNormal 200 [0; 0; 0; 0; 0; 0; 0] LOAD 0)) by reflexivity.
  assert (H4 : total_Normal (psInstructionsNormal KITT)
               < gu16NormalTimer (elapse_Normal 1700 (power_on 0 0)) < 65536)
    by (split; vm_compute; reflexivity).
  assert (H5 : u8LastState (elapse_Normal 1700 (power_on 0 0)) ≠ 0)
    by (vm_compute; discriminate).
  split; [exact H1|]. split; [exact H4|]. split; [exact H5|].
  exact (proj1 (proj1 (proj2 (proj2 (C5_looping_restart KITT _ _ H1 H2 H3 H4))) H5)).
Defined.

(** C5 as stated fails: the one-instruction animation applies its ADD on
    the first tick; on the next tick the accumulator (200) exceeds the sum
    of the durations (100), the timeline restarts, and the instruction is
    not applied again: the brightness stays at 1 where a second
    application gives 2. *)
Lemma C5_counterexample :
  Animation_Cycle Pulse.catalog 50 (power_on 0 0)
  = Some (mkEngine [1; 1; 1; 1; 1; 1; 1] [0; 0; 0; 0] 50 50 50 0 0 0 0 0)
  ∧ total_Normal (psInstructionsNormal Pulse.animation) = 100
  ∧ gu16NormalTimer (advance Pulse.catalog 200
      (mkEngine [1; 1; 1; 1; 1; 1; 1] [0; 0; 0; 0] 50 50 50 0 0 0 0 0)) = 200
  ∧ Animation_Cycle Pulse.catalog 200
      (mkEngine [1; 1; 1; 1; 1; 1; 1] [0; 0; 0; 0] 50 50 50 0 0 0 0 0)
    = Some (mkEngine [1; 1; 1; 1; 1; 1; 1] [0; 0; 0; 0] 0 0 200 0 0 0 0 0)
  ∧ brightness_after_Normal Pulse.step [1; 1; 1; 1; 1; 1; 1] = [2; 2; 2; 2; 2; 2; 2].
Proof. repeat split; vm_compute; reflexivity. Qed.

(** ** Brightness arrays: reads, writes and loops *)

Lemma rd_insert_eq (a : list Z) i x : (i < length a)%nat → rd (<[i:=x]> a) i = x.
Proof. intros H. unfold rd. now rewrite list_lookup_insert_eq. Qed.

Lemma rd_insert_ne (a : list Z) i j x : i ≠ j → rd (<[i:=x]> a) j = rd a j.
Proof. intros H. unfold rd. now rewrite list_lookup_insert_ne. Qed.

Lemma rd_ge (a : list Z) i : (length a ≤ i)%nat → rd a i = 0.
Proof. intros H. unfold rd. now rewrite lookup_ge_None_2. Qed.

Lemma rd_Forall (P : Z → Prop) (a : list Z) i : Forall P a → P 0 → P (rd a i).
Proof.
  intros Ha H0. unfold rd. destruct (a !! i) as [x|] eqn:E; simpl; [|exact H0].
  eapply Forall_lookup_1; eauto.
Qed.

Lemma for_each_inv {A} (Q : A → Prop) idx (body : nat → A → A) (a : A) :
  (∀ i x, Q x → Q (body i x)) → Q a → Q (for_each idx body a).
Proof.
  intros Hb. unfold for_each. revert a.
  induction idx as [|i idx IH]; intros a Ha; simpl; [exact Ha|].
  apply IH, Hb, Ha.
Qed.

Lemma for_each_snoc {A} idx i (body : nat → A → A) (a : A) :
  for_each (idx ++ [i]) body a = body i (for_each idx body a).
Proof. unfold for_each. now rewrite fold_left_app. Qed.

Lemma ADD_body (ops a : list Z) i :
  (let a1 := <[i := u8 (rd a i + rd ops i)]> a in
   if rd a1 i >? 15 then <[i := 0]> a1 else a1)
  = <[i := add_channel (rd a i) (rd ops i)]> a.
Proof.
  cbv zeta. unfold add_channel.
  destruct (Nat.lt_ge_cases i (length a)) as [Hi|Hi].
  - rewrite rd_insert_eq by exact Hi.
    destruct (_ >? 15); [apply list_insert_insert_eq | reflexivity].
  - rewrite !list_insert_ge by (rewrite ?length_insert; exact Hi).
    rewrite (rd_ge a i Hi). now destruct (_ >? 15).
Qed.

Lemma op_ADD_eq n ops a :
  op_ADD n ops a
  = for_each (seq 0 n) (fun i a => <[i := add_channel (rd a i) (rd ops i)]> a) a.
Proof.
  unfold op_ADD, upto, for_each. rewrite Nat.sub_0_r.
  generalize (seq 0 n). intros l. revert a.
  induction l as [|i l IH]; intros a; simpl; [reflexivity|].
  rewrite <- IH. f_equal. apply ADD_body.
Qed.

Lemma op_ADD_length n ops a : length (op_ADD n ops a) = length a.
Proof.
  rewrite op_ADD_eq.
  apply (for_each_inv (fun x => length x = length a)); [|reflexivity].
  intros i x Hx. now rewrite length_insert.
Qed.

Lemma op_ADD_above n ops a j : (n ≤ j)%nat → rd (op_ADD n ops a) j = rd a j.
Proof.
  rewrite op_ADD_eq. induction n as [|n IH]; intros Hj; [reflexivity|].
  rewrite seq_S, for_each_snoc. simpl.
  rewrite rd_insert_ne by lia. apply IH. lia.
Qed.

Lemma op_ADD_channel n ops a j :
  (j < n)%nat → (j < length a)%nat →
  rd (op_ADD n ops a) j = add_channel (rd a j) (rd ops j).
Proof.
  induction n as [|n IH]; intros Hj Hl; [lia|].
  pose proof (op_ADD_above n ops a) as Hab.
  pose proof (op_ADD_length n ops a) as Hlen.
  rewrite op_ADD_eq in *. rewrite seq_S, for_each_snoc. simpl.
  destruct (Nat.eq_dec j n) as [->|Hne].
  - rewrite rd_insert_eq by lia. now rewrite Hab.
  - rewrite rd_insert_ne by lia. apply IH; lia.
Qed.

Lemma add_channel_wrap b o : add_channel b o = wrap_to_black b o.
Proof.
  unfold add_channel, wrap_to_black, MAX_LEVEL. cbv zeta. rewrite u8_add_i8.
  pose proof (u8_range (b + o)).
  destruct (Z.gtb_spec (u8 (b + o)) 15), (Z.leb_spec 0 (u8 (b + o))),
    (Z.leb_spec (u8 (b + o)) 15); simpl; lia.
Qed.

Lemma has_ADD_not_LOAD op : has ADD op = true → op ≠ LOAD.
Proof. intros H ->. discriminate. Qed.

(** C6: applying an instruction whose opcode includes ADD first runs the
    ADD loop on the brightness vector, and the other operations of the
    opcode, in their fixed order, act on its result.  The ADD loop leaves
    in every channel the 8-bit sum of the brightness and the signed
    operand when that sum lies within [0, 15], and 0 otherwise (also for
    a negative sum, which wraps above 15); the channel is never clamped to
    15, and 14 with operand +5 gives 0.  When the opcode has no other
    operation that changes the vector (ADD alone, or ADD | REPEAT), this is
    the value of the channel after the instruction.  Both vectors. *)
Theorem C6_ADD_wrap_to_zero :
  (∀ i k s,
     has ADD (u8AnimationOpcode i) = true →
     gau8LEDBrightness (Exec_Normal i k s)
     = (let op := u8AnimationOpcode i in
        let ops := au8LEDBrightness i in
        let a := op_ADD LEDS_NUM ops (gau8LEDBrightness s) in
        let a := if has RSHIFT op then op_RSHIFT a else a in
        let a := if has LSHIFT op then op_LSHIFT a else a in
        let a := if has USOURCE op then op_USOURCE ops a else a in
        let a := if has DSOURCE op then op_DSOURCE ops a else a in
        if has DIV op then op_DIV LEDS_NUM ops a else a)
     ∧ ∀ j, (j < LEDS_NUM)%nat → (j < length (gau8LEDBrightness s))%nat →
         rd (op_ADD LEDS_NUM (au8LEDBrightness i) (gau8LEDBrightness s)) j
         = wrap_to_black (rd (gau8LEDBrightness s) j) (rd (au8LEDBrightness i) j)
         ∧ (has RSHIFT (u8AnimationOpcode i) = false →
            has LSHIFT (u8AnimationOpcode i) = false →
            has USOURCE (u8AnimationOpcode i) = false →
            has DSOURCE (u8AnimationOpcode i) = false →
            has DIV (u8AnimationOpcode i) = false →
            rd (gau8LEDBrightness (Exec_Normal i k s)) j
            = wrap_to_black (rd (gau8LEDBrightness s) j) (rd (au8LEDBrightness i) j)))
  ∧ (∀ i k s,
       has ADD (u8AnimationOpcodeRGB i) = true →
       gau8RGBLEDs (Exec_RGB i k s)
       = (let op := u8AnimationOpcodeRGB i in
          let ops := au8RGBLEDBrightness i in
          let a := op_ADD NUM_RGBLED_COLORS ops (gau8RGBLEDs s) in
          if has DIV op then op_DIV NUM_RGBLED_COLORS ops a else a)
       ∧ ∀ j, (j < NUM_RGBLED_COLORS)%nat → (j < length (gau8RGBLEDs s))%nat →
           rd (op_ADD NUM_RGBLED_COLORS (au8RGBLEDBrightness i) (gau8RGBLEDs s)) j
           = wrap_to_black (rd (gau8RGBLEDs s) j) (rd (au8RGBLEDBrightness i) j)
           ∧ (has DIV (u8AnimationOpcodeRGB i) = false →
              rd (gau8RGBLEDs (Exec_RGB i k s)) j
              = wrap_to_black (rd (gau8RGBLEDs s) j) (rd (au8RGBLEDBrightness i) j)))
  ∧ (∀ b o, ¬ (0 ≤ u8 (b + i8 o) ≤ 15) → wrap_to_black b o = 0)
  ∧ (∀ b o, 0 ≤ u8 (b + i8 o) ≤ 15 → wrap_to_black b o = u8 (b + i8 o))
  ∧ wrap_to_black 14 5 = 0.
Proof.
  split; [|split; [|split; [|split]]].
  - intros i k s Hadd.
    assert (Hex : gau8LEDBrightness (Exec_Normal i k s)
                  = effect_Normal (u8AnimationOpcode i) (au8LEDBrightness i)
                      (gau8LEDBrightness s)).
    { rewrite Exec_Normal_brightness. unfold brightness_after_Normal.
      destruct (Z.eqb_spec (u8AnimationOpcode i) LOAD) as [E|_];
        [now apply has_ADD_not_LOAD in Hadd | reflexivity]. }
    split.
    + rewrite Hex. unfold effect_Normal. now rewrite Hadd.
    + intros j Hj Hl.
      assert (Hch : rd (op_ADD LEDS_NUM (au8LEDBrightness i) (gau8LEDBrightness s)) j
                    = wrap_to_black (rd (gau8LEDBrightness s) j) (rd (au8LEDBrightness i) j))
        by (rewrite op_ADD_channel by assumption; apply add_channel_wrap).
      split; [exact Hch|].
      intros H1 H2 H3 H4 H5. rewrite Hex. unfold effect_Normal.
      now rewrite Hadd, H1, H2, H3, H4, H5.
  - intros i k s Hadd.
    assert (Hex : gau8RGBLEDs (Exec_RGB i k s)
                  = effect_RGB (u8AnimationOpcodeRGB i) (au8RGBLEDBrightness i)
                      (gau8RGBLEDs s)).
    { rewrite Exec_RGB_brightness. unfold brightness_after_RGB.
      destruct (Z.eqb_spec (u8AnimationOpcodeRGB i) LOAD) as [E|_];
        [now apply has_ADD_not_LOAD in Hadd | reflexivity]. }
    split.
    + rewrite Hex. unfold effect_RGB. now rewrite Hadd.
    + intros j Hj Hl.
      assert (Hch : rd (op_ADD NUM_RGBLED_COLORS (au8RGBLEDBrightness i) (gau8RGBLEDs s)) j
                    = wrap_to_black (rd (gau8RGBLEDs s) j) (rd (au8RGBLEDBrightness i) j))
        by (rewrite op_ADD_channel by assumption; apply add_channel_wrap).
      split; [exact Hch|].
      intros H5. rewrite Hex. unfold effect_RGB. now rewrite Hadd, H5.
  - intros b o H. unfold wrap_to_black, MAX_LEVEL. cbv zeta.
    destruct (Z.leb_spec 0 (u8 (b + i8 o))), (Z.leb_spec (u8 (b + i8 o)) 15); simpl; lia.
  - intros b o H. unfold wrap_to_black, MAX_LEVEL. cbv zeta.
    destruct (Z.leb_spec 0 (u8 (b + i8 o))), (Z.leb_spec (u8 (b + i8 o)) 15); simpl; lia.
  - reflexivity.
Qed.

(** An ADD | REPEAT instruction with operands +5, -3 and +1 on channels
    holding 14, 2 and 14: the first two leave the range and are reset to
    0, the third reaches 15. *)
Lemma C6_ADD_wrap_to_zero_witness :
  has ADD Catalog.ADD_REPEAT = true
  ∧ gau8LEDBrightness
      (Exec_Normal (mkNormal 100 [5; 253; 1; 0; 0; 0; 0] Catalog.ADD_REPEAT 2) 1
         (mkEngine [14; 2; 14; 0; 0; 0; 0] [0; 0; 0; 0] 120 0 0 0 0 0 0 0))
    = [0; 0; 15; 0; 0; 0; 0]
  ∧ rd (gau8LEDBrightness
          (Exec_Normal (mkNormal 100 [5; 253; 1; 0; 0; 0; 0] Catalog.ADD_REPEAT 2) 1
             (mkEngine [14; 2; 14; 0; 0; 0; 0] [0; 0; 0; 0] 120 0 0 0 0 0 0 0))) 0
    = wrap_to_black 14 5
  ∧ rd (gau8RGBLEDs
          (Exec_RGB (mkRGB 100 [5; 253; 1; 0] Catalog.ADD_REPEAT 2) 1
             (mkEngine [0; 0; 0; 0; 0; 0; 0] [14; 2; 14; 0] 0 120 0 0 0 0 0 0))) 1
    = wrap_to_black 2 253.
Proof.
  assert (H : has ADD Catalog.ADD_REPEAT = true) by reflexivity.
  split; [exact H|]. split; [vm_compute; reflexivity|]. split.
  - refine (proj2 (proj2 (proj1 C6_ADD_wrap_to_zero
              (mkNormal 100 [5; 253; 1; 0; 0; 0; 0] Catalog.ADD_REPEAT 2) 1
              (mkEngine [14; 2; 14; 0; 0; 0; 0] [0; 0; 0; 0] 120 0 0 0 0 0 0 0) H)
              0%nat _ _) _ _ _ _ _); try reflexivity; vm_compute; lia.
  - refine (proj2 (proj2 (proj1 (proj2 C6_ADD_wrap_to_zero)
              (mkRGB 100 [5; 253; 1; 0] Catalog.ADD_REPEAT 2) 1
              (mkEngine [0; 0; 0; 0; 0; 0; 0] [14; 2; 14; 0] 0 120 0 0 0 0 0 0) H)
              1%nat _ _) _); try reflexivity; vm_compute; lia.
Defined.

(** ** Range of the brightness vectors *)

Lemma forallb_Forall {A} (f : A → bool) (l : list A) :
  forallb f l = true → Forall (fun x => f x = true) l.
Proof.
  induction l as [|x l IH]; simpl; intros H; [constructor|].
  apply andb_true_iff in H as [Hx Hl]. constructor; auto.
Qed.

Lemma levels_ok_insert n a i v :
  levels_ok n a → 0 ≤ v ≤ MAX_LEVEL → levels_ok n (<[i:=v]> a).
Proof.
  intros [Hl Ha] Hv. split; [now rewrite length_insert|].
  now apply Forall_insert.
Qed.

Lemma levels_ok_rd n a i : levels_ok n a → 0 ≤ rd a i ≤ MAX_LEVEL.
Proof.
  intros [_ Ha]. apply (rd_Forall (fun v => 0 ≤ v ≤ MAX_LEVEL)); [exact Ha|].
  unfold MAX_LEVEL. lia.
Qed.

Lemma add_channel_range b o : 0 ≤ add_channel b o ≤ MAX_LEVEL.
Proof.
  unfold add_channel, MAX_LEVEL. cbv zeta. pose proof (u8_range (b + o)).
  destruct (Z.gtb_spec (u8 (b + o)) 15); lia.
Qed.

Lemma op_ADD_ok m n ops a : levels_ok m a → levels_ok m (op_ADD n ops a).
Proof.
  rewrite op_ADD_eq. apply for_each_inv.
  intros i x Hx. apply levels_ok_insert; [exact Hx | apply add_channel_range].
Qed.

Lemma op_RSHIFT_ok m a : levels_ok m a → levels_ok m (op_RSHIFT a).
Proof.
  intros Ha. unfold op_RSHIFT. apply levels_ok_insert; [|eapply levels_ok_rd, Ha].
  apply for_each_inv; [|exact Ha].
  intros i x Hx. apply levels_ok_insert; [exact Hx | eapply levels_ok_rd, Hx].
Qed.

Lemma op_LSHIFT_ok m a : levels_ok m a → levels_ok m (op_LSHIFT a).
Proof.
  intros Ha. unfold op_LSHIFT. apply levels_ok_insert; [|eapply levels_ok_rd, Ha].
  apply for_each_inv; [|exact Ha].
  intros i x Hx. apply levels_ok_insert; [exact Hx | eapply levels_ok_rd, Hx].
Qed.

Lemma op_DIV_ok m n ops a :
  Forall (fun v => 0 ≤ v < 256) ops → levels_ok m a → levels_ok m (op_DIV n ops a).
Proof.
  intros Hops. unfold op_DIV. apply for_each_inv.
  intros i x Hx. cbv zeta.
  destruct (Z.eqb_spec (rd ops i) 0) as [|Hne]; simpl; [exact Hx|].
  assert (Ht : 0 ≤ rd ops i < 256)
    by (apply (rd_Forall (fun v => 0 ≤ v < 256)); [exact Hops | lia]).
  pose proof (levels_ok_rd _ _ i Hx) as Hr. unfold MAX_LEVEL in *.
  apply levels_ok_insert; [exact Hx|]. unfold MAX_LEVEL. split.
  - apply Z.div_pos; lia.
  - apply Z.div_le_upper_bound; [lia|]. nia.
Qed.

(** The source operations, followed channel by channel. *)

Lemma ranged_write m a k v :
  ranged m a → 0 ≤ v < 256 → ranged (<[k:=false]> m) (<[k:=v]> a).
Proof.
  intros [Hb Hm] Hv. split; [now apply Forall_insert|].
  intros i Hi. destruct (Nat.eq_dec k i) as [->|Hne].
  - destruct (Nat.lt_ge_cases i (length m)) as [Hl|Hl].
    + rewrite list_lookup_insert_eq in Hi by exact Hl. discriminate.
    + rewrite lookup_ge_None_2 in Hi by (now rewrite length_insert). discriminate.
  - rewrite list_lookup_insert_ne in Hi by exact Hne.
    rewrite rd_insert_ne by exact Hne. now apply Hm.
Qed.

Lemma ranged_bump m ops a k : ranged m a → ranged (<[k:=false]> m) (bump ops k a).
Proof. intros H. unfold bump. apply ranged_write; [exact H | apply u8_range]. Qed.

Lemma ranged_saturate m a k : ranged m a → ranged (<[k:=true]> m) (saturate_at k a).
Proof.
  intros [Hb Hm]. unfold saturate_at.
  assert (Hk : 0 ≤ rd a k < 256)
    by (apply (rd_Forall (fun v => 0 ≤ v < 256)); [exact Hb | lia]).
  pose proof (SaturateBrightness_range _ Hk) as Hs. unfold MAX_LEVEL in *.
  split; [apply Forall_insert; [exact Hb | lia]|].
  intros i Hi. destruct (Nat.eq_dec k i) as [->|Hne].
  - destruct (Nat.lt_ge_cases i (length a)) as [Hl|Hl].
    + now rewrite rd_insert_eq.
    + rewrite rd_ge by (now rewrite length_insert). unfold MAX_LEVEL. lia.
  - rewrite list_lookup_insert_ne in Hi by exact Hne.
    rewrite rd_insert_ne by exact Hne. now apply Hm.
Qed.

Lemma carry_eq src dst a :
  carry src dst a
  = <[dst := u8 (rd (saturate_at src a) dst + snd (SaturateBrightness (rd a src)))]>
      (saturate_at src a).
Proof. unfold carry, saturate_at. now destruct (SaturateBrightness (rd a src)). Qed.

Lemma ranged_carry m a src dst :
  ranged m a → ranged (<[dst:=false]> (<[src:=true]> m)) (carry src dst a).
Proof.
  intros H. rewrite carry_eq. apply ranged_write; [|apply u8_range].
  now apply ranged_saturate.
Qed.

Lemma carry_length src dst a : length (carry src dst a) = length a.
Proof. rewrite carry_eq. unfold saturate_at. now rewrite !length_insert. Qed.

Ltac follow_channels :=
  repeat first [ eapply ranged_saturate | eapply ranged_carry | eapply ranged_bump ].

Lemma op_USOURCE_ranged ops a :
  ranged (replicate LEDS_NUM false) a → ranged (replicate LEDS_NUM true) (op_USOURCE ops a).
Proof.
  intros H.
  assert (∃ m, ranged m (op_USOURCE ops a) ∧ m = replicate LEDS_NUM true) as (m & Hm & ->);
    [|exact Hm].
  eexists. split.
  - cbv [op_USOURCE for_each upto downto LEDS_NUM RIGHT_LEDS_START seq rev app fold_left
           Nat.sub Nat.add].
    follow_channels. exact H.
  - vm_compute. reflexivity.
Qed.

Lemma op_DSOURCE_ranged ops a :
  ranged (replicate LEDS_NUM false) a → ranged (replicate LEDS_NUM true) (op_DSOURCE ops a).
Proof.
  intros H.
  assert (∃ m, ranged m (op_DSOURCE ops a) ∧ m = replicate LEDS_NUM true) as (m & Hm & ->);
    [|exact Hm].
  eexists. split.
  - cbv [op_DSOURCE for_each upto downto LEDS_NUM RIGHT_LEDS_START seq rev app fold_left
           Nat.sub Nat.add].
    follow_channels. exact H.
  - vm_compute. reflexivity.
Qed.

Lemma bump_length ops k a : length (bump ops k a) = length a.
Proof. unfold bump. now rewrite length_insert. Qed.

Lemma saturate_at_length k a : length (saturate_at k a) = length a.
Proof. unfold saturate_at. now rewrite length_insert. Qed.

Ltac keep_length :=
  repeat first
    [ rewrite saturate_at_length | rewrite bump_length | rewrite carry_length
    | apply for_each_inv; [intros ? ? ?|] ];
  try assumption.

Lemma op_USOURCE_length n ops a : length a = n → length (op_USOURCE ops a) = n.
Proof. intros H. unfold op_USOURCE. keep_length. Qed.

Lemma op_DSOURCE_length n ops a : length a = n → length (op_DSOURCE ops a) = n.
Proof. intros H. unfold op_DSOURCE. keep_length. Qed.

Lemma levels_ranged n a : levels_ok n a → ranged (replicate n false) a.
Proof.
  intros [_ Ha]. split.
  - eapply Forall_impl; [exact Ha|]. unfold MAX_LEVEL. simpl. lia.
  - intros i Hi. apply lookup_replicate in Hi as [? _]. discriminate.
Qed.

Lemma ranged_levels n a : length a = n → ranged (replicate n true) a → levels_ok n a.
Proof.
  intros Hl [_ Hm]. split; [exact Hl|].
  apply Forall_lookup_2. intros i x Hx.
  pose proof (lookup_lt_Some _ _ _ Hx) as Hi.
  specialize (Hm i). rewrite lookup_replicate_2 in Hm by lia.
  unfold rd in Hm. rewrite Hx in Hm. now apply Hm.
Qed.

Lemma op_USOURCE_ok ops a : levels_ok LEDS_NUM a → levels_ok LEDS_NUM (op_USOURCE ops a).
Proof.
  intros Ha. apply ranged_levels.
  - apply op_USOURCE_length, Ha.
  - apply op_USOURCE_ranged, levels_ranged, Ha.
Qed.

Lemma op_DSOURCE_ok ops a : levels_ok LEDS_NUM a → levels_ok LEDS_NUM (op_DSOURCE ops a).
Proof.
  intros Ha. apply ranged_levels.
  - apply op_DSOURCE_length, Ha.
  - apply op_DSOURCE_ranged, levels_ranged, Ha.
Qed.

Lemma effect_Normal_ok op ops a :
  Forall (fun v => 0 ≤ v < 256) ops →
  levels_ok LEDS_NUM a → levels_ok LEDS_NUM (effect_Normal op ops a).
Proof.
  intros Hops Ha. unfold effect_Normal.
  destruct (has DIV op); [apply op_DIV_ok; [exact Hops|]|];
  (destruct (has DSOURCE op); [apply op_DSOURCE_ok|]);
  (destruct (has USOURCE op); [apply op_USOURCE_ok|]);
  (destruct (has LSHIFT op); [apply op_LSHIFT_ok|]);
  (destruct (has RSHIFT op); [apply op_RSHIFT_ok|]);
  (destruct (has ADD op); [apply op_ADD_ok|]); exact Ha.
Qed.

Lemma effect_RGB_ok op ops a :
  Forall (fun v => 0 ≤ v < 256) ops →
  levels_ok NUM_RGBLED_COLORS a → levels_ok NUM_RGBLED_COLORS (effect_RGB op ops a).
Proof.
  intros Hops Ha. unfold effect_RGB.
  destruct (has DIV op); [apply op_DIV_ok; [exact Hops|]|];
  (destruct (has ADD op); [apply op_ADD_ok|]); exact Ha.
Qed.

Lemma vector_ok_spec n op v :
  vector_ok n op v = true →
  length v = n ∧ Forall (fun x => 0 ≤ x < 256) v ∧ (op = LOAD → levels_ok n v).
Proof.
  unfold vector_ok. intros H.
  apply andb_true_iff in H as [H Hload]. apply andb_true_iff in H as [Hlen Hbytes].
  apply Nat.eqb_eq in Hlen. apply forallb_Forall in Hbytes.
  assert (Hb : Forall (fun x => 0 ≤ x < 256) v).
  { eapply Forall_impl; [exact Hbytes|]. simpl. intros x Hx.
    apply andb_true_iff in Hx as [H1 H2]. lia. }
  split; [exact Hlen|]. split; [exact Hb|].
  intros ->. rewrite Z.eqb_refl in Hload. simpl in Hload.
  apply forallb_Forall in Hload. split; [exact Hlen|].
  apply Forall_lookup_2. intros i x Hx.
  pose proof (Forall_lookup_1 _ _ _ _ Hb Hx) as H1.
  pose proof (Forall_lookup_1 _ _ _ _ Hload Hx) as H2. simpl in *. lia.
Qed.

Lemma brightness_after_Normal_ok i a :
  vector_ok LEDS_NUM (u8AnimationOpcode i) (au8LEDBrightness i) = true →
  levels_ok LEDS_NUM a → levels_ok LEDS_NUM (brightness_after_Normal i a).
Proof.
  intros Hv Ha. apply vector_ok_spec in Hv as (_ & Hb & Hload).
  unfold brightness_after_Normal.
  destruct (Z.eqb_spec (u8AnimationOpcode i) LOAD); [auto|].
  now apply effect_Normal_ok.
Qed.

Lemma brightness_after_RGB_ok i a :
  vector_ok NUM_RGBLED_COLORS (u8AnimationOpcodeRGB i) (au8RGBLEDBrightness i) = true →
  levels_ok NUM_RGBLED_COLORS a → levels_ok NUM_RGBLED_COLORS (brightness_after_RGB i a).
Proof.
  intros Hv Ha. apply vector_ok_spec in Hv as (_ & Hb & Hload).
  unfold brightness_after_RGB.
  destruct (Z.eqb_spec (u8AnimationOpcodeRGB i) LOAD); [auto|].
  now apply effect_RGB_ok.
Qed.

Lemma Exec_Normal_RGBLEDs i k s : gau8RGBLEDs (Exec_Normal i k s) = gau8RGBLEDs s.
Proof.
  unfold Exec_Normal. destruct (_ =? LOAD); [reflexivity|].
  destruct (repeat_ctl _ _ _ _ _) as [[? ?] ?]. reflexivity.
Qed.

Lemma Exec_RGB_LEDBrightness i k s :
  gau8LEDBrightness (Exec_RGB i k s) = gau8LEDBrightness s.
Proof.
  unfold Exec_RGB. destruct (_ =? LOAD); [reflexivity|].
  destruct (repeat_ctl _ _ _ _ _) as [[? ?] ?]. reflexivity.
Qed.

Lemma forallb_lookup {A} (f : A → bool) (l : list A) i x :
  forallb f l = true → l !! i = Some x → f x = true.
Proof.
  intros H Hx. apply forallb_Forall in H.
  exact (Forall_lookup_1 _ _ _ _ H Hx).
Qed.

Lemma Cycle_Normal_ok a s s' :
  animation_ok a = true → brightness_ok s → Cycle_Normal a s = Some s' → brightness_ok s'.
Proof.
  intros Ha [Hn Hc]. apply andb_true_iff in Ha as [Ha _].
  assert (Hexec : ∀ i k j x, psInstructionsNormal a !! j = Some i →
            gau8LEDBrightness x = gau8LEDBrightness s →
            gau8RGBLEDs x = gau8RGBLEDs s → brightness_ok (Exec_Normal i k x)).
  { intros i k j x Hi Hx1 Hx2. split.
    - rewrite Exec_Normal_brightness, Hx1. apply brightness_after_Normal_ok; [|exact Hn].
      exact (forallb_lookup _ _ _ _ Ha Hi).
    - now rewrite Exec_Normal_RGBLEDs, Hx2. }
  unfold Cycle_Normal. destruct (state_Normal a s) as [k|]; [simpl|discriminate].
  destruct (_ <=? k); simpl.
  - destruct (negb _).
    + destruct (_ !! _) eqn:E; [simpl|discriminate]. intros [= <-]. eapply Hexec; eauto.
    + intros [= <-]. now split.
  - destruct (negb _).
    + destruct (_ !! _) eqn:E; [simpl|discriminate]. intros [= <-]. eapply Hexec; eauto.
    + intros [= <-]. now split.
Qed.

Lemma Cycle_RGB_ok a s s' :
  animation_ok a = true → brightness_ok s → Cycle_RGB a s = Some s' → brightness_ok s'.
Proof.
  intros Ha [Hn Hc]. apply andb_true_iff in Ha as [_ Ha].
  unfold Cycle_RGB. destruct (state_RGB a s) as [k|]; [simpl|discriminate].
  destruct (negb _).
  - destruct (_ !! _) eqn:E; [simpl|discriminate]. intros [= <-]. split.
    + now rewrite Exec_RGB_LEDBrightness.
    + rewrite Exec_RGB_brightness. apply brightness_after_RGB_ok; [|exact Hc].
      exact (forallb_lookup _ _ _ _ Ha E).
  - intros [= <-]. now split.
Qed.

Lemma Animation_Cycle_ok cat now s s' :
  catalog_ok cat = true → brightness_ok s →
  Animation_Cycle cat now s = Some s' → brightness_ok s'.
Proof.
  intros Hcat Hs. unfold Animation_Cycle. destruct (negb _); [|now intros [= <-]].
  assert (Hadv : brightness_ok (advance cat now s)).
  { unfold advance. cbv zeta. destruct (_ <=? _); exact Hs. }
  destruct (cat !! _) as [a|] eqn:Ea; [simpl|discriminate].
  pose proof (forallb_lookup _ _ _ _ Hcat Ea) as Ha.
  destruct (Cycle_Normal a _) as [s1|] eqn:E1; [simpl|discriminate].
  destruct (Cycle_RGB a s1) as [s2|] eqn:E2; [simpl|discriminate].
  intros [= <-].
  pose proof (Cycle_Normal_ok _ _ _ Ha Hadv E1) as H1.
  exact (Cycle_RGB_ok _ _ _ Ha H1 E2).
Qed.

Lemma Animation_Set_ok cat idx s : brightness_ok s → brightness_ok (Animation_Set cat idx s).
Proof. intros Hs. unfold Animation_Set. destruct (_ <? _); exact Hs. Qed.

Lemma power_on_ok now idx : brightness_ok (power_on now idx).
Proof.
  split; (split; [reflexivity|]); simpl; unfold MAX_LEVEL;
    repeat constructor; lia.
Qed.

Lemma reachable_ok cat s : catalog_ok cat = true → reachable cat s → brightness_ok s.
Proof.
  intros Hcat Hs. induction Hs as [now idx | s idx _ IH | s now s' _ IH Hstep].
  - apply power_on_ok.
  - now apply Animation_Set_ok.
  - eapply Animation_Cycle_ok; eauto.
Qed.

Lemma shipped_catalog_ok : catalog_ok Catalog.gasAnimations = true.
Proof. vm_compute. reflexivity. Qed.

(** ** When a tick returns

    The only fetch that can leave its array is the one of the RGB section
    on an exhausted RGB timeline. *)

Lemma scan_Normal_total instrs timer fuel :
  ∀ k acc, 0 ≤ k → (Z.to_nat k + fuel ≤ length instrs)%nat →
    ∃ r, scan_Normal instrs timer fuel k acc = Some r ∧ k ≤ r ≤ k + Z.of_nat fuel.
Proof.
  induction fuel as [|fuel IH]; intros k acc Hk Hlen; simpl.
  - exists k. split; [reflexivity | lia].
  - destruct (lookup_lt_is_Some_2 instrs (Z.to_nat k) ltac:(lia)) as [i Hi].
    rewrite Hi. simpl. destruct (_ >? timer).
    + exists k. split; [reflexivity | lia].
    + destruct (IH (k + 1) (u16 (acc + u16TimingMs i)) ltac:(lia) ltac:(lia))
        as (r & Hr & Hb).
      exists r. split; [exact Hr | lia].
Qed.

Lemma scan_RGB_total instrs timer fuel :
  ∀ k acc, 0 ≤ k → (Z.to_nat k + fuel ≤ length instrs)%nat →
    ∃ r, scan_RGB instrs timer fuel k acc = Some r ∧ k ≤ r ≤ k + Z.of_nat fuel.
Proof.
  induction fuel as [|fuel IH]; intros k acc Hk Hlen; simpl.
  - exists k. split; [reflexivity | lia].
  - destruct (lookup_lt_is_Some_2 instrs (Z.to_nat k) ltac:(lia)) as [i Hi].
    rewrite Hi. simpl. destruct (_ >? timer).
    + exists k. split; [reflexivity | lia].
    + destruct (IH (k + 1) (u16 (acc + u16TimingMsRGB i)) ltac:(lia) ltac:(lia))
        as (r & Hr & Hb).
      exists r. split; [exact Hr | lia].
Qed.

Lemma Cycle_Normal_returns a s :
  u8AnimationLengthNormal a = Z.of_nat (length (psInstructionsNormal a)) →
  1 ≤ u8AnimationLengthNormal a →
  is_Some (Cycle_Normal a s).
Proof.
  intros Hlen Hne. unfold Cycle_Normal, state_Normal.
  destruct (scan_Normal_total (psInstructionsNormal a) (gu16NormalTimer s)
              (Z.to_nat (u8AnimationLengthNormal a)) 0 0 ltac:(lia) ltac:(lia))
    as (r & Hscan & Hr).
  rewrite Hscan. simpl. destruct (Z.leb_spec (u8AnimationLengthNormal a) r).
  - destruct (negb _); [|eauto].
    destruct (lookup_lt_is_Some_2 (psInstructionsNormal a) (Z.to_nat 0) ltac:(lia)) as [i ->].
    simpl. eauto.
  - destruct (negb _); [|eauto].
    destruct (lookup_lt_is_Some_2 (psInstructionsNormal a) (Z.to_nat r) ltac:(lia)) as [i ->].
    simpl. eauto.
Qed.

Lemma Cycle_RGB_returns a s :
  u8AnimationLengthRGB a = Z.of_nat (length (psInstructionsRGB a)) →
  (∀ k, state_RGB a s = Some k → k < u8AnimationLengthRGB a ∨ k = u8LastStateRGB s) →
  is_Some (Cycle_RGB a s).
Proof.
  intros Hlen Hin. unfold Cycle_RGB.
  destruct (scan_RGB_total (psInstructionsRGB a) (gu16RGBTimer s)
              (Z.to_nat (u8AnimationLengthRGB a)) 0 0 ltac:(lia) ltac:(lia))
    as (r & Hr & Hb).
  fold (state_RGB a s) in Hr. rewrite Hr. simpl.
  destruct (Z.eqb_spec (u8LastStateRGB s) r) as [|Hne]; simpl; [eauto|].
  destruct (Hin r Hr) as [Hlt | ->]; [|contradiction].
  destruct (lookup_lt_is_Some_2 (psInstructionsRGB a) (Z.to_nat r) ltac:(lia)) as [i ->].
  simpl. eauto.
Qed.

Lemma Cycle_RGB_exhausted a s :
  u8AnimationLengthRGB a = Z.of_nat (length (psInstructionsRGB a)) →
  state_RGB a s = Some (u8AnimationLengthRGB a) →
  u8LastStateRGB s ≠ u8AnimationLengthRGB a →
  Cycle_RGB a s = None.
Proof.
  intros Hlen Hsel Hne. unfold Cycle_RGB. rewrite Hsel. simpl.
  destruct (Z.eqb_spec (u8LastStateRGB s) (u8AnimationLengthRGB a)); [contradiction|].
  simpl. rewrite lookup_ge_None_2 by lia. reflexivity.
Qed.

Lemma Animation_Cycle_returns cat now s a :
  cat !! Z.to_nat (u8AnimationIndex (advance cat now s)) = Some a →
  u8AnimationLengthNormal a = Z.of_nat (length (psInstructionsNormal a)) →
  1 ≤ u8AnimationLengthNormal a →
  u8AnimationLengthRGB a = Z.of_nat (length (psInstructionsRGB a)) →
  (∀ s1 k, Cycle_Normal a (advance cat now s) = Some s1 → state_RGB a s1 = Some k →
           k < u8AnimationLengthRGB a ∨ k = u8LastStateRGB s1) →
  is_Some (Animation_Cycle cat now s).
Proof.
  intros Ha HlenN Hne HlenC Hin. unfold Animation_Cycle.
  destruct (negb _); [|eauto]. cbv zeta. rewrite Ha. simpl.
  destruct (Cycle_Normal_returns a (advance cat now s) HlenN Hne) as [s1 H1].
  rewrite H1. simpl.
  destruct (Cycle_RGB_returns a s1 HlenC (fun k => Hin s1 k H1)) as [s2 H2].
  rewrite H2. simpl. eauto.
Qed.

(** X23: with the shipped catalog, the brightness vectors stay within
    range along every tick that fetches its instructions inside the
    arrays: from a state reached from power-on through [Animation_Set] and
    such ticks, such a tick leaves both vectors with their channel count
    (7 and 4) and every element within [0, MAX_LEVEL]. *)
Theorem X23_range_invariant_within_arrays (s : engine) (now : Z) (s' : engine) :
  reachable Catalog.gasAnimations s →
  Animation_Cycle Catalog.gasAnimations now s = Some s' →
  (length (gau8LEDBrightness s') = 7%nat
   ∧ Forall (fun v => 0 ≤ v ≤ 15) (gau8LEDBrightness s'))
  ∧ (length (gau8RGBLEDs s') = 4%nat
     ∧ Forall (fun v => 0 ≤ v ≤ 15) (gau8RGBLEDs s')).
Proof.
  intros Hs Hstep.
  apply (Animation_Cycle_ok _ _ _ _ shipped_catalog_ok (reachable_ok _ _ shipped_catalog_ok Hs)
           Hstep).
Qed.

Lemma X23_range_invariant_within_arrays_witness :
  reachable Catalog.gasAnimations (Animation_Set Catalog.gasAnimations 2 (power_on 0 0))
  ∧ Animation_Cycle Catalog.gasAnimations 100
      (Animation_Set Catalog.gasAnimations 2 (power_on 0 0))
    = Some (mkEngine [0; 0; 0; 0; 0; 0; 0] [0; 0; 1; 1] 30 30 100 255 14 255 14 2)
  ∧ Forall (fun v => 0 ≤ v ≤ 15) [0; 0; 1; 1].
Proof.
  assert (Hr : reachable Catalog.gasAnimations
                 (Animation_Set Catalog.gasAnimations 2 (power_on 0 0)))
    by (apply reach_Set, reach_power_on).
  assert (Hc : Animation_Cycle Catalog.gasAnimations 100
                 (Animation_Set Catalog.gasAnimations 2 (power_on 0 0))
               = Some (mkEngine [0; 0; 0; 0; 0; 0; 0] [0; 0; 1; 1] 30 30 100 255 14 255 14 2))
    by (vm_compute; reflexivity).
  split; [exact Hr|]. split; [exact Hc|].
  exact (proj2 (proj2 (X23_range_invariant_within_arrays _ _ _ Hr Hc))).
Defined.

(** ** The fetch behind the RGB instruction array

    With the bytes that follow the array made explicit, the tick that
    fetches at index [u8AnimationLengthRGB] executes them as an
    instruction; every other tick is as before. *)

Lemma scan_RGB_followed l x timer fuel :
  ∀ k acc r, scan_RGB l timer fuel k acc = Some r →
    scan_RGB (l ++ [x]) timer fuel k acc = Some r.
Proof.
  induction fuel as [|fuel IH]; intros k acc r; simpl; [trivial|].
  destruct (l !! Z.to_nat k) as [i|] eqn:E; [simpl|discriminate].
  rewrite (lookup_app_l_Some _ _ _ _ E). simpl.
  destruct (_ >? timer); [trivial | apply IH].
Qed.

Lemma state_RGB_followed x a s r :
  state_RGB a s = Some r → state_RGB (followed_by x a) s = Some r.
Proof. apply scan_RGB_followed. Qed.

Lemma Cycle_RGB_followed x a s s' :
  Cycle_RGB a s = Some s' → Cycle_RGB (followed_by x a) s = Some s'.
Proof.
  unfold Cycle_RGB. destruct (state_RGB a s) as [k|] eqn:E; [simpl|discriminate].
  rewrite (state_RGB_followed x a s k E). simpl.
  destruct (negb _); [|trivial].
  destruct (psInstructionsRGB a !! Z.to_nat k) as [i|] eqn:Ei; [simpl|discriminate].
  intros H. cbn [followed_by psInstructionsRGB].
  now rewrite (lookup_app_l_Some _ _ _ _ Ei).
Qed.


Lemma advance_in_memory beyond cat now s :
  advance (in_memory beyond cat) now s = advance cat now s.
Proof. unfold advance, NUM_ANIMATIONS, in_memory. now rewrite length_imap. Qed.

Lemma Animation_Cycle_in_memory beyond cat now s :
  Animation_Cycle (in_memory beyond cat) now s
  = if negb (now =? gu16LastCall s) then
      let s0 := advance cat now s in
      a ← cat !! Z.to_nat (u8AnimationIndex s0);
      s1 ← Cycle_Normal a s0;
      s2 ← Cycle_RGB (followed_by (beyond (Z.to_nat (u8AnimationIndex s0))) a) s1;
      Some (set_LastCall now s2)
    else Some s.
Proof.
  unfold Animation_Cycle. destruct (negb _); [|reflexivity]. cbv zeta.
  rewrite advance_in_memory. unfold in_memory. rewrite list_lookup_imap.
  destruct (cat !! _) as [a|]; reflexivity.
Qed.

(** A tick that fetches inside the arrays does not depend on what
    follows them. *)
Lemma Animation_Cycle_followed beyond cat now s s' :
  Animation_Cycle cat now s = Some s' →
  Animation_Cycle (in_memory beyond cat) now s = Some s'.
Proof.
  rewrite Animation_Cycle_in_memory. unfold Animation_Cycle.
  destruct (negb _); [|trivial]. cbv zeta.
  destruct (cat !! _) as [a|]; [simpl|discriminate].
  destruct (Cycle_Normal a _) as [s1|]; [simpl|discriminate].
  destruct (Cycle_RGB a s1) as [s2|] eqn:E; [simpl|discriminate].
  now rewrite (Cycle_RGB_followed _ a s1 s2 E).
Qed.



(** ** REPEAT: counting the applications of an instruction *)

Lemma u16_add_l x y : u16 (u16 x + y) = u16 (x + y).
Proof. unfold u16. apply Zplus_mod_idemp_l. Qed.

Lemma u16_sub_l x y : u16 (u16 x - y) = u16 (x - y).
Proof. unfold u16. apply Zminus_mod_idemp_l. Qed.

Lemma has_REPEAT_not_LOAD op : has REPEAT op = true → op ≠ LOAD.
Proof. intros H ->. discriminate. Qed.

Section RepeatCount.

Variable cycle : engine -> option engine.
Variable select : engine -> option Z.
Variable elapse : Z -> engine -> engine.
Variables timer last rep : engine -> Z.
Variable bri : engine -> list Z.
Variable len : Z.

(** The instruction at index [k]: opcode, operand [N], duration and
    effect on the brightness vector. *)
Variables k op N timing : Z.
Variable eff : list Z -> list Z.

Hypothesis op_REPEAT : has REPEAT op = true.
Hypothesis N_range : 1 ≤ N ≤ 255.

Hypothesis elapse_timer : ∀ d s, timer (elapse d s) = u16 (timer s + d).
Hypothesis elapse_last : ∀ d s, last (elapse d s) = last s.
Hypothesis elapse_rep : ∀ d s, rep (elapse d s) = rep s.
Hypothesis elapse_bri : ∀ d s, bri (elapse d s) = bri s.

Hypothesis cycle_idle :
  ∀ s s', select s = Some (last s) → last s < len → cycle s = Some s' → s' = s.
Hypothesis cycle_apply :
  ∀ s s', select s = Some k → k < len → last s ≠ k → cycle s = Some s' →
    bri s' = eff (bri s)
    ∧ (timer s', last s', rep s') = repeat_ctl op N timing k (timer s, last s, rep s).



End RepeatCount.

Lemma Cycle_Normal_idle a s s' :
  state_Normal a s = Some (u8LastState s) → u8LastState s < u8AnimationLengthNormal a →
  Cycle_Normal a s = Some s' → s' = s.
Proof.
  intros Hsel Hlen. unfold Cycle_Normal. rewrite Hsel. simpl.
  destruct (Z.leb_spec (u8AnimationLengthNormal a) (u8LastState s)); [lia|].
  rewrite Z.eqb_refl. simpl. now intros [= <-].
Qed.

Lemma Cycle_RGB_idle a s s' :
  state_RGB a s = Some (u8LastStateRGB s) → u8LastStateRGB s < u8AnimationLengthRGB a →
  Cycle_RGB a s = Some s' → s' = s.
Proof.
  intros Hsel _. unfold Cycle_RGB. rewrite Hsel. simpl.
  rewrite Z.eqb_refl. simpl. now intros [= <-].
Qed.

Lemma Cycle_Normal_apply a k i s s' :
  psInstructionsNormal a !! Z.to_nat k = Some i →
  has REPEAT (u8AnimationOpcode i) = true →
  state_Normal a s = Some k → k < u8AnimationLengthNormal a → u8LastState s ≠ k →
  Cycle_Normal a s = Some s' →
  gau8LEDBrightness s'
  = effect_Normal (u8AnimationOpcode i) (au8LEDBrightness i) (gau8LEDBrightness s)
  ∧ (gu16NormalTimer s', u8LastState s', u8RepetitionCounter s')
    = repeat_ctl (u8AnimationOpcode i) (u8AnimationOperand i) (u16TimingMs i) k
        (gu16NormalTimer s, u8LastState s, u8RepetitionCounter s).
Proof.
  intros Hi Hop Hsel Hlen Hne. unfold Cycle_Normal. rewrite Hsel. simpl.
  destruct (Z.leb_spec (u8AnimationLengthNormal a) k); [lia|].
  destruct (Z.eqb_spec (u8LastState s) k); [contradiction|]. simpl.
  rewrite Hi. simpl. intros [= <-]. unfold Exec_Normal.
  destruct (Z.eqb_spec (u8AnimationOpcode i) LOAD) as [E|_];
    [now apply has_REPEAT_not_LOAD in Hop|].
  cbv zeta. destruct (repeat_ctl _ _ _ _ _) as [[t l] r] eqn:E.
  exact (conj eq_refl (eq_sym E)).
Qed.

Lemma Cycle_RGB_apply a k i s s' :
  psInstructionsRGB a !! Z.to_nat k = Some i →
  has REPEAT (u8AnimationOpcodeRGB i) = true →
  state_RGB a s = Some k → k < u8AnimationLengthRGB a → u8LastStateRGB s ≠ k →
  Cycle_RGB a s = Some s' →
  gau8RGBLEDs s'
  = effect_RGB (u8AnimationOpcodeRGB i) (au8RGBLEDBrightness i) (gau8RGBLEDs s)
  ∧ (gu16RGBTimer s', u8LastStateRGB s', u8RepetitionCounterRGB s')
    = repeat_ctl (u8AnimationOpcodeRGB i) (u8AnimationOperandRGB i) (u16TimingMsRGB i) k
        (gu16RGBTimer s, u8LastStateRGB s, u8RepetitionCounterRGB s).
Proof.
  intros Hi Hop Hsel _ Hne. unfold Cycle_RGB. rewrite Hsel. simpl.
  destruct (Z.eqb_spec (u8LastStateRGB s) k); [contradiction|]. simpl.
  rewrite Hi. simpl. intros [= <-]. unfold Exec_RGB.
  destruct (Z.eqb_spec (u8AnimationOpcodeRGB i) LOAD) as [E|_];
    [now apply has_REPEAT_not_LOAD in Hop|].
  cbv zeta. destruct (repeat_ctl _ _ _ _ _) as [[t l] r] eqn:E.
  exact (conj eq_refl (eq_sym E)).
Qed.






(** * Further properties of the engine *)

(** ** Which instruction a timer value selects *)

Lemma total_Normal_nonneg l :
  Forall (fun i => 0 ≤ u16TimingMs i) l → 0 ≤ total_Normal l.
Proof. induction 1; simpl; [lia|]. unfold total_Normal in *. lia. Qed.

Lemma total_RGB_nonneg l :
  Forall (fun i => 0 ≤ u16TimingMsRGB i) l → 0 ≤ total_RGB l.
Proof. induction 1; simpl; [lia|]. unfold total_RGB in *. lia. Qed.

Lemma total_Normal_take_le k l :
  Forall (fun i => 0 ≤ u16TimingMs i) l → total_Normal (take k l) ≤ total_Normal l.
Proof.
  intros H. revert k. induction H as [|x l Hx Hl IH]; intros [|k]; simpl; try lia.
  - pose proof (total_Normal_nonneg l Hl). unfold total_Normal in *. lia.
  - specialize (IH k). unfold total_Normal in *. lia.
Qed.

Lemma total_RGB_take_le k l :
  Forall (fun i => 0 ≤ u16TimingMsRGB i) l → total_RGB (take k l) ≤ total_RGB l.
Proof.
  intros H. revert k. induction H as [|x l Hx Hl IH]; intros [|k]; simpl; try lia.
  - pose proof (total_RGB_nonneg l Hl). unfold total_RGB in *. lia.
  - specialize (IH k). unfold total_RGB in *. lia.
Qed.

Lemma scan_Normal_window rest :
  ∀ pre instrs timer acc k,
    instrs = pre ++ rest →
    Forall (fun i => 0 ≤ u16TimingMs i) rest →
    0 ≤ acc → acc + total_Normal rest < 65536 →
    (k < length rest)%nat →
    acc + total_Normal (take k rest) ≤ timer < acc + total_Normal (take (S k) rest) →
    scan_Normal instrs timer (length rest) (Z.of_nat (length pre)) acc
    = Some (Z.of_nat (length pre + k)).
Proof.
  induction rest as [|x rest IH]; intros pre instrs timer acc k -> Hd Hacc Hsum Hk Hw.
  - simpl in Hk. lia.
  - apply Forall_cons in Hd as [Hx Hd].
    pose proof (total_Normal_nonneg rest Hd) as Hrest.
    cbn [scan_Normal length]. rewrite Nat2Z.id, list_lookup_middle by reflexivity. simpl.
    change (total_Normal (x :: rest)) with (u16TimingMs x + total_Normal rest) in Hsum.
    rewrite u16_small by lia.
    destruct k as [|k].
    + simpl in Hw. destruct (Z.gtb_spec (acc + u16TimingMs x) timer); [|lia].
      f_equal. lia.
    + change (total_Normal (take (S k) (x :: rest)))
        with (u16TimingMs x + total_Normal (take k rest)) in Hw.
      change (total_Normal (take (S (S k)) (x :: rest)))
        with (u16TimingMs x + total_Normal (take (S k) rest)) in Hw.
      pose proof (total_Normal_nonneg (take k rest) (Forall_take _ _ _ Hd)).
      destruct (Z.gtb_spec (acc + u16TimingMs x) timer); [lia|].
      replace (Z.of_nat (length pre) + 1) with (Z.of_nat (length (pre ++ [x])))
        by (rewrite length_app; simpl; lia).
      rewrite (IH (pre ++ [x]) _ timer (acc + u16TimingMs x) k); try lia; try assumption.
      * f_equal. rewrite length_app. simpl. lia.
      * now rewrite <- app_assoc.
      * simpl in Hk. lia.
Qed.

Lemma scan_RGB_window rest :
  ∀ pre instrs timer acc k,
    instrs = pre ++ rest →
    Forall (fun i => 0 ≤ u16TimingMsRGB i) rest →
    0 ≤ acc → acc + total_RGB rest < 65536 →
    (k < length rest)%nat →
    acc + total_RGB (take k rest) ≤ timer < acc + total_RGB (take (S k) rest) →
    scan_RGB instrs timer (length rest) (Z.of_nat (length pre)) acc
    = Some (Z.of_nat (length pre + k)).
Proof.
  induction rest as [|x rest IH]; intros pre instrs timer acc k -> Hd Hacc Hsum Hk Hw.
  - simpl in Hk. lia.
  - apply Forall_cons in Hd as [Hx Hd].
    pose proof (total_RGB_nonneg rest Hd) as Hrest.
    cbn [scan_RGB length]. rewrite Nat2Z.id, list_lookup_middle by reflexivity. simpl.
    change (total_RGB (x :: rest)) with (u16TimingMsRGB x + total_RGB rest) in Hsum.
    rewrite u16_small by lia.
    destruct k as [|k].
    + simpl in Hw. destruct (Z.gtb_spec (acc + u16TimingMsRGB x) timer); [|lia].
      f_equal. lia.
    + change (total_RGB (take (S k) (x :: rest)))
        with (u16TimingMsRGB x + total_RGB (take k rest)) in Hw.
      change (total_RGB (take (S (S k)) (x :: rest)))
        with (u16TimingMsRGB x + total_RGB (take (S k) rest)) in Hw.
      pose proof (total_RGB_nonneg (take k rest) (Forall_take _ _ _ Hd)).
      destruct (Z.gtb_spec (acc + u16TimingMsRGB x) timer); [lia|].
      replace (Z.of_nat (length pre) + 1) with (Z.of_nat (length (pre ++ [x])))
        by (rewrite length_app; simpl; lia).
      rewrite (IH (pre ++ [x]) _ timer (acc + u16TimingMsRGB x) k); try lia; try assumption.
      * f_equal. rewrite length_app. simpl. lia.
      * now rewrite <- app_assoc.
      * simpl in Hk. lia.
Qed.

Lemma state_Normal_window (a : S_ANIMATION) (s : engine) (k : nat) :
  u8AnimationLengthNormal a = Z.of_nat (length (psInstructionsNormal a)) →
  Forall (fun i => 0 ≤ u16TimingMs i) (psInstructionsNormal a) →
  total_Normal (psInstructionsNormal a) < 65536 →
  total_Normal (take k (psInstructionsNormal a)) ≤ gu16NormalTimer s
    < total_Normal (take (S k) (psInstructionsNormal a)) →
  state_Normal a s = Some (Z.of_nat k) ∧ (k < length (psInstructionsNormal a))%nat.
Proof.
  intros Hlen Hd Hsum Hw.
  assert (Hk : (k < length (psInstructionsNormal a))%nat).
  { destruct (Nat.lt_ge_cases k (length (psInstructionsNormal a))) as [|Hge]; [assumption|].
    rewrite !take_ge in Hw by lia. lia. }
  split; [|exact Hk].
  unfold state_Normal. rewrite Hlen, Nat2Z.id.
  apply (scan_Normal_window (psInstructionsNormal a) [] _ _ 0 k); auto; lia.
Qed.

Lemma state_RGB_window (a : S_ANIMATION) (s : engine) (k : nat) :
  u8AnimationLengthRGB a = Z.of_nat (length (psInstructionsRGB a)) →
  Forall (fun i => 0 ≤ u16TimingMsRGB i) (psInstructionsRGB a) →
  total_RGB (psInstructionsRGB a) < 65536 →
  total_RGB (take k (psInstructionsRGB a)) ≤ gu16RGBTimer s
    < total_RGB (take (S k) (psInstructionsRGB a)) →
  state_RGB a s = Some (Z.of_nat k) ∧ (k < length (psInstructionsRGB a))%nat.
Proof.
  intros Hlen Hd Hsum Hw.
  assert (Hk : (k < length (psInstructionsRGB a))%nat).
  { destruct (Nat.lt_ge_cases k (length (psInstructionsRGB a))) as [|Hge]; [assumption|].
    rewrite !take_ge in Hw by lia. lia. }
  split; [|exact Hk].
  unfold state_RGB. rewrite Hlen, Nat2Z.id.
  apply (scan_RGB_window (psInstructionsRGB a) [] _ _ 0 k); auto; lia.
Qed.

(** X1: on a timeline whose durations sum to less than 2^16, the scan
    selects the instruction whose time window contains the timer: index
    [k] when the durations before [k] sum to at most the timer and those
    up to and including [k] exceed it.  Both timelines. *)
Theorem X1_scan_selects_window (a : S_ANIMATION) (s : engine) (k : nat) :
  (u8AnimationLengthNormal a = Z.of_nat (length (psInstructionsNormal a)) →
   Forall (fun i => 0 ≤ u16TimingMs i) (psInstructionsNormal a) →
   total_Normal (psInstructionsNormal a) < 65536 →
   total_Normal (take k (psInstructionsNormal a)) ≤ gu16NormalTimer s
     < total_Normal (take (S k) (psInstructionsNormal a)) →
   state_Normal a s = Some (Z.of_nat k) ∧ (k < length (psInstructionsNormal a))%nat)
  ∧ (u8AnimationLengthRGB a = Z.of_nat (length (psInstructionsRGB a)) →
     Forall (fun i => 0 ≤ u16TimingMsRGB i) (psInstructionsRGB a) →
     total_RGB (psInstructionsRGB a) < 65536 →
     total_RGB (take k (psInstructionsRGB a)) ≤ gu16RGBTimer s
       < total_RGB (take (S k) (psInstructionsRGB a)) →
     state_RGB a s = Some (Z.of_nat k) ∧ (k < length (psInstructionsRGB a))%nat).
Proof. split; [apply state_Normal_window | apply state_RGB_window]. Qed.

Lemma X1_scan_selects_window_witness :
  total_Normal (take 3 (psInstructionsNormal KITT)) ≤ 450
    < total_Normal (take 4 (psInstructionsNormal KITT))
  ∧ state_Normal KITT (elapse_Normal 450 (power_on 0 0)) = Some 3
  ∧ state_RGB KITT (elapse_RGB 320 (power_on 0 0)) = Some 4.
Proof.
  assert (Hn : Forall (fun i => 0 ≤ u16TimingMs i) (psInstructionsNormal KITT))
    by (repeat constructor; vm_compute; discriminate).
  assert (Hc : Forall (fun i => 0 ≤ u16TimingMsRGB i) (psInstructionsRGB KITT))
    by (repeat constructor; vm_compute; discriminate).
  assert (Hw : total_Normal (take 3 (psInstructionsNormal KITT)) ≤ 450
               < total_Normal (take 4 (psInstructionsNormal KITT)))
    by (vm_compute; split; [discriminate | reflexivity]).
  split; [exact Hw|]. split.
  - refine (proj1 (proj1 (X1_scan_selects_window KITT (elapse_Normal 450 (power_on 0 0)) 3)
              eq_refl Hn _ Hw)). vm_compute. reflexivity.
  - refine (proj1 (proj2 (X1_scan_selects_window KITT (elapse_RGB 320 (power_on 0 0)) 4)
              eq_refl Hc _ _)); vm_compute; [reflexivity | split; [discriminate | reflexivity]].
Defined.

Lemma scan_Normal_exhausted_le rest :
  ∀ pre instrs timer acc,
    instrs = pre ++ rest →
    Forall (fun i => 0 ≤ u16TimingMs i) rest →
    0 ≤ acc → acc + total_Normal rest ≤ timer → timer < 65536 →
    scan_Normal instrs timer (length rest) (Z.of_nat (length pre)) acc
    = Some (Z.of_nat (length pre) + Z.of_nat (length rest)).
Proof.
  induction rest as [|x rest IH]; intros pre instrs timer acc -> Hd Hacc Hsum Ht.
  - simpl. f_equal. lia.
  - apply Forall_cons in Hd as [Hx Hd].
    change (total_Normal (x :: rest)) with (u16TimingMs x + total_Normal rest) in Hsum.
    pose proof (total_Normal_nonneg rest Hd) as Hrest.
    cbn [scan_Normal length]. rewrite Nat2Z.id, list_lookup_middle by reflexivity. simpl.
    rewrite u16_small by lia.
    destruct (Z.gtb_spec (acc + u16TimingMs x) timer); [lia|].
    replace (Z.of_nat (length pre) + 1) with (Z.of_nat (length (pre ++ [x])))
      by (rewrite length_app; simpl; lia).
    rewrite (IH (pre ++ [x])); try lia; try assumption.
    + f_equal. rewrite length_app. simpl. lia.
    + now rewrite <- app_assoc.
Qed.

Lemma scan_RGB_exhausted_le rest :
  ∀ pre instrs timer acc,
    instrs = pre ++ rest →
    Forall (fun i => 0 ≤ u16TimingMsRGB i) rest →
    0 ≤ acc → acc + total_RGB rest ≤ timer → timer < 65536 →
    scan_RGB instrs timer (length rest) (Z.of_nat (length pre)) acc
    = Some (Z.of_nat (length pre) + Z.of_nat (length rest)).
Proof.
  induction rest as [|x rest IH]; intros pre instrs timer acc -> Hd Hacc Hsum Ht.
  - simpl. f_equal. lia.
  - apply Forall_cons in Hd as [Hx Hd].
    change (total_RGB (x :: rest)) with (u16TimingMsRGB x + total_RGB rest) in Hsum.
    pose proof (total_RGB_nonneg rest Hd) as Hrest.
    cbn [scan_RGB length]. rewrite Nat2Z.id, list_lookup_middle by reflexivity. simpl.
    rewrite u16_small by lia.
    destruct (Z.gtb_spec (acc + u16TimingMsRGB x) timer); [lia|].
    replace (Z.of_nat (length pre) + 1) with (Z.of_nat (length (pre ++ [x])))
      by (rewrite length_app; simpl; lia).
    rewrite (IH (pre ++ [x])); try lia; try assumption.
    + f_equal. rewrite length_app. simpl. lia.
    + now rewrite <- app_assoc.
Qed.

Lemma window_Normal_exists l t :
  Forall (fun i => 0 ≤ u16TimingMs i) l → 0 ≤ t < total_Normal l →
  ∃ k, total_Normal (take k l) ≤ t < total_Normal (take (S k) l).
Proof.
  intros H. revert t. induction H as [|x l Hx Hl IH]; intros t Ht.
  - simpl in Ht. lia.
  - change (total_Normal (x :: l)) with (u16TimingMs x + total_Normal l) in Ht.
    destruct (Z.lt_ge_cases t (u16TimingMs x)) as [Hlt|Hge].
    + exists 0%nat. simpl. lia.
    + destruct (IH (t - u16TimingMs x) ltac:(lia)) as [k Hk]. exists (S k).
      change (total_Normal (take (S k) (x :: l)))
        with (u16TimingMs x + total_Normal (take k l)).
      change (total_Normal (take (S (S k)) (x :: l)))
        with (u16TimingMs x + total_Normal (take (S k) l)).
      lia.
Qed.

Lemma window_RGB_exists l t :
  Forall (fun i => 0 ≤ u16TimingMsRGB i) l → 0 ≤ t < total_RGB l →
  ∃ k, total_RGB (take k l) ≤ t < total_RGB (take (S k) l).
Proof.
  intros H. revert t. induction H as [|x l Hx Hl IH]; intros t Ht.
  - simpl in Ht. lia.
  - change (total_RGB (x :: l)) with (u16TimingMsRGB x + total_RGB l) in Ht.
    destruct (Z.lt_ge_cases t (u16TimingMsRGB x)) as [Hlt|Hge].
    + exists 0%nat. simpl. lia.
    + destruct (IH (t - u16TimingMsRGB x) ltac:(lia)) as [k Hk]. exists (S k).
      change (total_RGB (take (S k) (x :: l)))
        with (u16TimingMsRGB x + total_RGB (take k l)).
      change (total_RGB (take (S (S k)) (x :: l)))
        with (u16TimingMsRGB x + total_RGB (take (S k) l)).
      lia.
Qed.

(** X2: on a timeline whose durations sum to less than 2^16, the scan
    runs off the end (its result is the length) exactly when the timer has
    reached the sum of all durations: the threshold is "at least", not
    "more than".  Both timelines. *)
Theorem X2_exhausted_iff_total_reached (a : S_ANIMATION) (s : engine) :
  (u8AnimationLengthNormal a = Z.of_nat (length (psInstructionsNormal a)) →
   Forall (fun i => 0 ≤ u16TimingMs i) (psInstructionsNormal a) →
   total_Normal (psInstructionsNormal a) < 65536 →
   0 ≤ gu16NormalTimer s < 65536 →
   (state_Normal a s = Some (u8AnimationLengthNormal a)
    ↔ total_Normal (psInstructionsNormal a) ≤ gu16NormalTimer s))
  ∧ (u8AnimationLengthRGB a = Z.of_nat (length (psInstructionsRGB a)) →
     Forall (fun i => 0 ≤ u16TimingMsRGB i) (psInstructionsRGB a) →
     total_RGB (psInstructionsRGB a) < 65536 →
     0 ≤ gu16RGBTimer s < 65536 →
     (state_RGB a s = Some (u8AnimationLengthRGB a)
      ↔ total_RGB (psInstructionsRGB a) ≤ gu16RGBTimer s)).
Proof.
  split; intros Hlen Hd Hsum Ht; split.
  - intros Hsel.
    destruct (Z.le_gt_cases (total_Normal (psInstructionsNormal a)) (gu16NormalTimer s))
      as [|Hlt]; [assumption|].
    destruct (window_Normal_exists _ (gu16NormalTimer s) Hd ltac:(lia)) as [k Hk].
    destruct (state_Normal_window a s k Hlen Hd Hsum Hk) as [Hs Hb].
    rewrite Hs in Hsel. injection Hsel as Hsel. lia.
  - intros Hle. unfold state_Normal. rewrite Hlen, Nat2Z.id.
    apply (scan_Normal_exhausted_le (psInstructionsNormal a) [] _ _ 0); auto; lia.
  - intros Hsel.
    destruct (Z.le_gt_cases (total_RGB (psInstructionsRGB a)) (gu16RGBTimer s))
      as [|Hlt]; [assumption|].
    destruct (window_RGB_exists _ (gu16RGBTimer s) Hd ltac:(lia)) as [k Hk].
    destruct (state_RGB_window a s k Hlen Hd Hsum Hk) as [Hs Hb].
    rewrite Hs in Hsel. injection Hsel as Hsel. lia.
  - intros Hle. unfold state_RGB. rewrite Hlen, Nat2Z.id.
    apply (scan_RGB_exhausted_le (psInstructionsRGB a) [] _ _ 0); auto; lia.
Qed.

Lemma X2_exhausted_iff_total_reached_witness :
  total_Normal (psInstructionsNormal KITT) ≤ gu16NormalTimer (elapse_Normal 1600 (power_on 0 0))
  ∧ state_Normal KITT (elapse_Normal 1600 (power_on 0 0)) = Some (u8AnimationLengthNormal KITT).
Proof.
  assert (Hn : Forall (fun i => 0 ≤ u16TimingMs i) (psInstructionsNormal KITT))
    by (repeat constructor; vm_compute; discriminate).
  assert (Hle : total_Normal (psInstructionsNormal KITT)
                ≤ gu16NormalTimer (elapse_Normal 1600 (power_on 0 0)))
    by (vm_compute; discriminate).
  split; [exact Hle|].
  refine (proj2 (proj1 (X2_exhausted_iff_total_reached KITT (elapse_Normal 1600 (power_on 0 0)))
            eq_refl Hn _ _) Hle); vm_compute; [reflexivity | split; [discriminate | reflexivity]].
Defined.

Lemma scan_Normal_break instrs timer fuel :
  ∀ k acc r, 0 ≤ k → 0 ≤ acc ≤ timer → acc < 65536 →
    scan_Normal instrs timer fuel k acc = Some r → r < k + Z.of_nat fuel →
    ∃ i, instrs !! Z.to_nat r = Some i ∧ u16TimingMs i ≠ 0.
Proof.
  induction fuel as [|fuel IH]; intros k acc r Hk Hacc Hlt Hscan Hr; simpl in Hscan.
  - injection Hscan as <-. lia.
  - destruct (instrs !! Z.to_nat k) as [i|] eqn:Hi; [simpl in Hscan|discriminate].
    destruct (Z.gtb_spec (u16 (acc + u16TimingMs i)) timer) as [Hgt|Hle].
    + injection Hscan as <-. exists i. split; [exact Hi|]. intros Hz.
      rewrite Hz, Z.add_0_r, u16_small in Hgt by lia. lia.
    + pose proof (u16_range (acc + u16TimingMs i)).
      apply (IH (k + 1) (u16 (acc + u16TimingMs i)) r); try lia. exact Hscan.
Qed.

Lemma scan_RGB_break instrs timer fuel :
  ∀ k acc r, 0 ≤ k → 0 ≤ acc ≤ timer → acc < 65536 →
    scan_RGB instrs timer fuel k acc = Some r → r < k + Z.of_nat fuel →
    ∃ i, instrs !! Z.to_nat r = Some i ∧ u16TimingMsRGB i ≠ 0.
Proof.
  induction fuel as [|fuel IH]; intros k acc r Hk Hacc Hlt Hscan Hr; simpl in Hscan.
  - injection Hscan as <-. lia.
  - destruct (instrs !! Z.to_nat k) as [i|] eqn:Hi; [simpl in Hscan|discriminate].
    destruct (Z.gtb_spec (u16 (acc + u16TimingMsRGB i)) timer) as [Hgt|Hle].
    + injection Hscan as <-. exists i. split; [exact Hi|]. intros Hz.
      rewrite Hz, Z.add_0_r, u16_small in Hgt by lia. lia.
    + pose proof (u16_range (acc + u16TimingMsRGB i)).
      apply (IH (k + 1) (u16 (acc + u16TimingMsRGB i)) r); try lia. exact Hscan.
Qed.

(** X3: an instruction of duration 0 is never selected: whenever the scan
    of either timeline stops inside the array, the instruction it stops at
    has a non-zero duration.  No assumption on the durations or their sum
    is needed. *)
Theorem X3_zero_duration_never_selected (a : S_ANIMATION) (s : engine) (k : Z) :
  (0 ≤ gu16NormalTimer s → state_Normal a s = Some k → k < u8AnimationLengthNormal a →
   ∃ i, psInstructionsNormal a !! Z.to_nat k = Some i ∧ u16TimingMs i ≠ 0)
  ∧ (0 ≤ gu16RGBTimer s → state_RGB a s = Some k → k < u8AnimationLengthRGB a →
     ∃ i, psInstructionsRGB a !! Z.to_nat k = Some i ∧ u16TimingMsRGB i ≠ 0).
Proof.
  split; intros Ht Hsel Hk.
  - apply (scan_Normal_break (psInstructionsNormal a) (gu16NormalTimer s)
             (Z.to_nat (u8AnimationLengthNormal a)) 0 0 k); [lia | lia | lia | exact Hsel | lia].
  - apply (scan_RGB_break (psInstructionsRGB a) (gu16RGBTimer s)
             (Z.to_nat (u8AnimationLengthRGB a)) 0 0 k); [lia | lia | lia | exact Hsel | lia].
Qed.

Lemma X3_zero_duration_never_selected_witness :
  state_Normal KITT (elapse_Normal 450 (power_on 0 0)) = Some 3
  ∧ ∃ i, psInstructionsNormal KITT !! Z.to_nat 3 = Some i ∧ u16TimingMs i ≠ 0.
Proof.
  assert (H : state_Normal KITT (elapse_Normal 450 (power_on 0 0)) = Some 3)
    by (vm_compute; reflexivity).
  split; [exact H|].
  refine (proj1 (X3_zero_duration_never_selected KITT _ 3) _ H _);
    vm_compute; [discriminate | reflexivity].
Defined.

(** X4: on an RGB timeline whose durations sum to less than 2^16, the RGB
    section of a tick has no defined result exactly when the timer has
    reached the sum of the durations and the last executed index is not
    the length: the fetch is then one element past the array.  In every
    other case the section returns. *)
Theorem X4_Cycle_RGB_undefined_iff (a : S_ANIMATION) (s : engine) :
  u8AnimationLengthRGB a = Z.of_nat (length (psInstructionsRGB a)) →
  Forall (fun i => 0 ≤ u16TimingMsRGB i) (psInstructionsRGB a) →
  total_RGB (psInstructionsRGB a) < 65536 →
  0 ≤ gu16RGBTimer s < 65536 →
  (Cycle_RGB a s = None
   ↔ total_RGB (psInstructionsRGB a) ≤ gu16RGBTimer s
     ∧ u8LastStateRGB s ≠ u8AnimationLengthRGB a).
Proof.
  intros Hlen Hd Hsum Ht. split.
  - intros Hnone.
    destruct (Z.le_gt_cases (total_RGB (psInstructionsRGB a)) (gu16RGBTimer s)) as [Hle|Hlt].
    + split; [exact Hle|]. intros Heq.
      assert (Hsel : state_RGB a s = Some (u8AnimationLengthRGB a)).
      { unfold state_RGB. rewrite Hlen, Nat2Z.id.
        apply (scan_RGB_exhausted_le (psInstructionsRGB a) [] _ _ 0); auto; lia. }
      unfold Cycle_RGB in Hnone. rewrite Hsel in Hnone. simpl in Hnone.
      rewrite Heq, Z.eqb_refl in Hnone. discriminate.
    + destruct (window_RGB_exists _ (gu16RGBTimer s) Hd ltac:(lia)) as [k Hk].
      destruct (state_RGB_window a s k Hlen Hd Hsum Hk) as [Hs Hb].
      destruct (Cycle_RGB_returns a s Hlen) as [x Hx]; [|congruence].
      intros j Hj. rewrite Hs in Hj. injection Hj as <-. left. lia.
  - intros [Hle Hne]. apply Cycle_RGB_exhausted; [exact Hlen | | exact Hne].
    unfold state_RGB. rewrite Hlen, Nat2Z.id.
    apply (scan_RGB_exhausted_le (psInstructionsRGB a) [] _ _ 0); auto; lia.
Qed.

Lemma X4_Cycle_RGB_undefined_iff_witness :
  total_RGB (psInstructionsRGB KITT) ≤ gu16RGBTimer (elapse_RGB 1100 (power_on 0 0))
  ∧ Cycle_RGB KITT (elapse_RGB 1100 (power_on 0 0)) = None
  ∧ is_Some (Cycle_RGB KITT (elapse_RGB 1099 (power_on 0 0))).
Proof.
  assert (Hc : Forall (fun i => 0 ≤ u16TimingMsRGB i) (psInstructionsRGB KITT))
    by (repeat constructor; vm_compute; discriminate).
  assert (Hs : total_RGB (psInstructionsRGB KITT) < 65536) by reflexivity.
  assert (Hle : total_RGB (psInstructionsRGB KITT)
                ≤ gu16RGBTimer (elapse_RGB 1100 (power_on 0 0)))
    by (vm_compute; discriminate).
  split; [exact Hle|]. split.
  - refine (proj2 (X4_Cycle_RGB_undefined_iff KITT (elapse_RGB 1100 (power_on 0 0))
              eq_refl Hc Hs _) (conj Hle _)); vm_compute;
      [split; [discriminate | reflexivity] | discriminate].
  - vm_compute. eauto.
Defined.

(** ** REPEAT with operand 0 *)

Section RepeatForever.

Variable cycle : engine -> option engine.
Variable select : engine -> option Z.
Variable elapse : Z -> engine -> engine.
Variables timer last rep : engine -> Z.
Variable bri : engine -> list Z.
Variable len : Z.
Variables k op timing : Z.
Variable eff : list Z -> list Z.

Hypothesis op_REPEAT : has REPEAT op = true.
Hypothesis elapse_timer : ∀ d s, timer (elapse d s) = u16 (timer s + d).
Hypothesis elapse_last : ∀ d s, last (elapse d s) = last s.
Hypothesis elapse_rep : ∀ d s, rep (elapse d s) = rep s.
Hypothesis elapse_bri : ∀ d s, bri (elapse d s) = bri s.
Hypothesis cycle_idle :
  ∀ s s', select s = Some (last s) → last s < len → cycle s = Some s' → s' = s.
Hypothesis cycle_apply :
  ∀ s s', select s = Some k → k < len → last s ≠ k → cycle s = Some s' →
    bri s' = eff (bri s)
    ∧ (timer s', last s', rep s') = repeat_ctl op 0 timing k (timer s, last s, rep s).

Lemma run_forever n D s s' :
  run cycle select elapse last len k n D s s' →
  rep s = 0 → 0 ≤ timer s < 65536 →
  bri s' = Nat.iter n eff (bri s) ∧ last s' = last s ∧ rep s' = 0
  ∧ timer s' = u16 (timer s + D - Z.of_nat n * timing).
Proof.
  intros Hrun Hrep Ht.
  induction Hrun as [s | n D s s1 d s2 _ IH Hsel Hlen Hcyc
                       | n D s s1 d s2 _ IH Hsel Hlen Hne Hcyc].
  - rewrite u16_small by lia. repeat split; try reflexivity; try assumption. simpl. lia.
  - specialize (IH Hrep Ht) as (Hb & Hl & Hr & Htm).
    rewrite <- (elapse_last d s1) in Hsel, Hlen.
    apply cycle_idle in Hcyc; [subst s2 | assumption..].
    rewrite elapse_bri, elapse_last, elapse_rep, elapse_timer, Htm, u16_add_l.
    repeat split; auto. f_equal. lia.
  - specialize (IH Hrep Ht) as (Hb & Hl & Hr & Htm).
    assert (Hne' : last (elapse d s1) ≠ k) by now rewrite elapse_last.
    destruct (cycle_apply _ _ Hsel Hlen Hne' Hcyc) as [Hb2 Hctl].
    rewrite elapse_bri, elapse_last, elapse_rep, elapse_timer in *.
    unfold repeat_ctl in Hctl. rewrite op_REPEAT, Hr in Hctl. simpl in Hctl.
    injection Hctl as -> -> ->.
    rewrite Htm, u16_add_l, u16_sub_l.
    repeat split; auto; [simpl; now rewrite Hb2, Hb | f_equal; lia].
Qed.

End RepeatForever.

(** X5: an instruction [k] whose opcode includes REPEAT with operand 0
    has no application count.  Started with the repetition counter at 0,
    along the ticks that select either [k] or the instruction executed
    last, every tick that selects [k] applies it, rewinds the timer by its
    duration and leaves the counter at 0, and the last-instruction index
    is not set to [k], however many times it has been applied.  Both
    timelines. *)
Theorem X5_repeat_zero_unbounded :
  (∀ a k i n D s s',
     psInstructionsNormal a !! Z.to_nat k = Some i →
     has REPEAT (u8AnimationOpcode i) = true → u8AnimationOperand i = 0 →
     u8RepetitionCounter s = 0 → 0 ≤ gu16NormalTimer s < 65536 →
     run_Normal a k n D s s' →
     gau8LEDBrightness s'
     = Nat.iter n (effect_Normal (u8AnimationOpcode i) (au8LEDBrightness i))
         (gau8LEDBrightness s)
     ∧ u8LastState s' = u8LastState s ∧ u8RepetitionCounter s' = 0
     ∧ gu16NormalTimer s' = u16 (gu16NormalTimer s + D - Z.of_nat n * u16TimingMs i))
  ∧ (∀ a k i n D s s',
       psInstructionsRGB a !! Z.to_nat k = Some i →
       has REPEAT (u8AnimationOpcodeRGB i) = true → u8AnimationOperandRGB i = 0 →
       u8RepetitionCounterRGB s = 0 → 0 ≤ gu16RGBTimer s < 65536 →
       run_RGB a k n D s s' →
       gau8RGBLEDs s'
       = Nat.iter n (effect_RGB (u8AnimationOpcodeRGB i) (au8RGBLEDBrightness i))
           (gau8RGBLEDs s)
       ∧ u8LastStateRGB s' = u8LastStateRGB s ∧ u8RepetitionCounterRGB s' = 0
       ∧ gu16RGBTimer s' = u16 (gu16RGBTimer s + D - Z.of_nat n * u16TimingMsRGB i)).
Proof.
  split; intros a k i n D s s' Hi Hop H0 Hrep Ht Hrun.
  - eapply (run_forever (Cycle_Normal a) (state_Normal a) elapse_Normal
              gu16NormalTimer u8LastState u8RepetitionCounter gau8LEDBrightness);
      try eassumption; try reflexivity.
    + apply Cycle_Normal_idle.
    + intros x x' Hsel Hlen Hne Hc.
      pose proof (Cycle_Normal_apply a k i x x' Hi Hop Hsel Hlen Hne Hc) as H.
      rewrite H0 in H. exact H.
  - eapply (run_forever (Cycle_RGB a) (state_RGB a) elapse_RGB
              gu16RGBTimer u8LastStateRGB u8RepetitionCounterRGB gau8RGBLEDs);
      try eassumption; try reflexivity.
    + apply Cycle_RGB_idle.
    + intros x x' Hsel Hlen Hne Hc.
      pose proof (Cycle_RGB_apply a k i x x' Hi Hop Hsel Hlen Hne Hc) as H.
      rewrite H0 in H. exact H.
Qed.

Lemma X5_repeat_zero_unbounded_witness :
  run_Normal Stuck.animation 1 2 (0 + 10 + 50) Stuck.climb0 Stuck.climb2
  ∧ u8LastState Stuck.climb2 = u8LastState Stuck.climb0
  ∧ u8RepetitionCounter Stuck.climb2 = 0.
Proof.
  assert (R1 : run_Normal Stuck.animation 1 1 (0 + 10) Stuck.climb0 Stuck.climb1).
  { eapply run_apply; [apply run_start | vm_compute; reflexivity | reflexivity
                      | vm_compute; discriminate | vm_compute; reflexivity]. }
  assert (R2 : run_Normal Stuck.animation 1 2 (0 + 10 + 50) Stuck.climb0 Stuck.climb2).
  { eapply run_apply; [exact R1 | vm_compute; reflexivity | reflexivity
                      | vm_compute; discriminate | vm_compute; reflexivity]. }
  split; [exact R2|].
  refine (let H := proj1 X5_repeat_zero_unbounded Stuck.animation 1 Stuck.climb
                     2%nat _ Stuck.climb0 Stuck.climb2 _ _ _ _ _ R2 in
          conj (proj1 (proj2 H)) (proj1 (proj2 (proj2 H))));
    try reflexivity; simpl; lia.
Defined.

(** ** What the two sections of a tick leave alone *)

Lemma Exec_Normal_frame i k s :
  gau8RGBLEDs (Exec_Normal i k s) = gau8RGBLEDs s
  ∧ gu16RGBTimer (Exec_Normal i k s) = gu16RGBTimer s
  ∧ u8LastStateRGB (Exec_Normal i k s) = u8LastStateRGB s
  ∧ u8RepetitionCounterRGB (Exec_Normal i k s) = u8RepetitionCounterRGB s
  ∧ u8AnimationIndex (Exec_Normal i k s) = u8AnimationIndex s
  ∧ gu16LastCall (Exec_Normal i k s) = gu16LastCall s.
Proof.
  unfold Exec_Normal. destruct (_ =? LOAD); [now repeat split|].
  destruct (repeat_ctl _ _ _ _ _) as [[? ?] ?]. now repeat split.
Qed.

Lemma Exec_RGB_frame i k s :
  gau8LEDBrightness (Exec_RGB i k s) = gau8LEDBrightness s
  ∧ gu16NormalTimer (Exec_RGB i k s) = gu16NormalTimer s
  ∧ u8LastState (Exec_RGB i k s) = u8LastState s
  ∧ u8RepetitionCounter (Exec_RGB i k s) = u8RepetitionCounter s
  ∧ u8AnimationIndex (Exec_RGB i k s) = u8AnimationIndex s
  ∧ gu16LastCall (Exec_RGB i k s) = gu16LastCall s.
Proof.
  unfold Exec_RGB. destruct (_ =? LOAD); [now repeat split|].
  destruct (repeat_ctl _ _ _ _ _) as [[? ?] ?]. now repeat split.
Qed.

(** X6: the two timelines are independent but for one timer.  The RGB
    section of a tick never changes the linear-bank brightness, timer,
    last-instruction index or repetition counter; the linear-bank section
    never changes the RGB brightness, last-instruction index or repetition
    counter, and it leaves the RGB timer as it is or sets it to 0.
    Neither changes the animation index or the recorded timestamp. *)
Theorem X6_timelines_independent (a : S_ANIMATION) (s s' : engine) :
  (Cycle_RGB a s = Some s' →
   gau8LEDBrightness s' = gau8LEDBrightness s
   ∧ gu16NormalTimer s' = gu16NormalTimer s
   ∧ u8LastState s' = u8LastState s
   ∧ u8RepetitionCounter s' = u8RepetitionCounter s
   ∧ u8AnimationIndex s' = u8AnimationIndex s
   ∧ gu16LastCall s' = gu16LastCall s)
  ∧ (Cycle_Normal a s = Some s' →
     gau8RGBLEDs s' = gau8RGBLEDs s
     ∧ (gu16RGBTimer s' = gu16RGBTimer s ∨ gu16RGBTimer s' = 0)
     ∧ u8LastStateRGB s' = u8LastStateRGB s
     ∧ u8RepetitionCounterRGB s' = u8RepetitionCounterRGB s
     ∧ u8AnimationIndex s' = u8AnimationIndex s
     ∧ gu16LastCall s' = gu16LastCall s).
Proof.
  split.
  - unfold Cycle_RGB. destruct (state_RGB a s) as [k|]; [simpl|discriminate].
    destruct (negb _).
    + destruct (_ !! _) as [i|]; [simpl|discriminate]. intros [= <-].
      apply Exec_RGB_frame.
    + intros [= <-]. now repeat split.
  - unfold Cycle_Normal. destruct (state_Normal a s) as [k|]; [simpl|discriminate].
    destruct (_ <=? k); simpl.
    + destruct (negb _).
      * destruct (_ !! _) as [i|]; [simpl|discriminate]. intros [= <-].
        destruct (Exec_Normal_frame i 0 (restart s)) as (H1 & H2 & H3 & H4 & H5 & H6).
        rewrite H1, H2, H3, H4, H5, H6. repeat split; auto.
      * intros [= <-]. repeat split; auto.
    + destruct (negb _).
      * destruct (_ !! _) as [i|]; [simpl|discriminate]. intros [= <-].
        destruct (Exec_Normal_frame i k s) as (H1 & H2 & H3 & H4 & H5 & H6).
        rewrite H1, H2, H3, H4, H5, H6. repeat split; auto.
      * intros [= <-]. repeat split; auto.
Qed.

Lemma X6_timelines_independent_witness :
  Cycle_RGB KITT (elapse_RGB 10 Scenario.ramp0) = Some Scenario.ramp1
  ∧ gau8LEDBrightness Scenario.ramp1 = gau8LEDBrightness (elapse_RGB 10 Scenario.ramp0).
Proof.
  assert (H : Cycle_RGB KITT (elapse_RGB 10 Scenario.ramp0) = Some Scenario.ramp1)
    by (vm_compute; reflexivity).
  split; [exact H|].
  exact (proj1 (proj1 (X6_timelines_independent KITT _ _) H)).
Defined.

(** ** Ticks that cross no instruction boundary, and how ticks compose *)

Lemma u16_add_r x y : u16 (x + u16 y) = u16 (x + y).
Proof. unfold u16. apply Zplus_mod_idemp_r. Qed.

Lemma Animation_Cycle_idle cat now s a :
  now ≠ gu16LastCall s →
  cat !! Z.to_nat (u8AnimationIndex (advance cat now s)) = Some a →
  state_Normal a (advance cat now s) = Some (u8LastState s) →
  u8LastState s < u8AnimationLengthNormal a →
  state_RGB a (advance cat now s) = Some (u8LastStateRGB s) →
  Animation_Cycle cat now s = Some (set_LastCall now (advance cat now s)).
Proof.
  intros Hne Ha HselN HlenN HselC. unfold Animation_Cycle.
  destruct (Z.eqb_spec now (gu16LastCall s)); [contradiction|]. cbv zeta. simpl negb.
  cbv iota. rewrite Ha. simpl.
  assert (HlN : u8LastState (advance cat now s) = u8LastState s)
    by (unfold advance; cbv zeta; now destruct (_ <=? _)).
  assert (HlC : u8LastStateRGB (advance cat now s) = u8LastStateRGB s)
    by (unfold advance; cbv zeta; now destruct (_ <=? _)).
  unfold Cycle_Normal. rewrite HselN. simpl.
  destruct (Z.leb_spec (u8AnimationLengthNormal a) (u8LastState s)); [lia|].
  rewrite HlN, Z.eqb_refl. simpl.
  unfold Cycle_RGB. rewrite HselC. simpl. rewrite HlC, Z.eqb_refl. reflexivity.
Qed.

(** X7: a tick on which each timeline selects the instruction it executed
    last only advances the two timers by the elapsed time (modulo 2^16),
    applies the index guard and records the timestamp: brightness,
    last-instruction indices and repetition counters are unchanged. *)
Theorem X7_tick_within_instruction (cat : list S_ANIMATION) (now : Z) (s : engine)
    (a : S_ANIMATION) :
  now ≠ gu16LastCall s →
  cat !! Z.to_nat (u8AnimationIndex (advance cat now s)) = Some a →
  state_Normal a (advance cat now s) = Some (u8LastState s) →
  u8LastState s < u8AnimationLengthNormal a →
  state_RGB a (advance cat now s) = Some (u8LastStateRGB s) →
  Animation_Cycle cat now s
  = Some (mkEngine (gau8LEDBrightness s) (gau8RGBLEDs s)
            (u16 (gu16NormalTimer s + (now - gu16LastCall s)))
            (u16 (gu16RGBTimer s + (now - gu16LastCall s)))
            now (u8LastState s) (u8RepetitionCounter s)
            (u8LastStateRGB s) (u8RepetitionCounterRGB s)
            (if NUM_ANIMATIONS cat <=? u8AnimationIndex s then 0 else u8AnimationIndex s)).
Proof.
  intros Hne Ha HselN HlenN HselC.
  rewrite (Animation_Cycle_idle cat now s a Hne Ha HselN HlenN HselC).
  unfold advance. cbv zeta. simpl. rewrite !u16_add_r.
  destruct (_ <=? _); reflexivity.
Qed.

Lemma X7_tick_within_instruction_witness :
  Animation_Cycle Catalog.gasAnimations 1260
    (mkEngine [0; 3; 6; 3; 0; 0; 0] [0; 0; 3; 0] 300 300 1250 2 0 1 0 3)
  = Some (mkEngine [0; 3; 6; 3; 0; 0; 0] [0; 0; 3; 0] 310 310 1260 2 0 1 0 3).
Proof.
  refine (X7_tick_within_instruction Catalog.gasAnimations 1260
            (mkEngine [0; 3; 6; 3; 0; 0; 0] [0; 0; 3; 0] 300 300 1250 2 0 1 0 3)
            Scenario.Animation4 _ _ _ _ _);
    try (vm_compute; reflexivity); vm_compute; discriminate.
Defined.

Lemma Exec_Normal_LastCall i k t s :
  Exec_Normal i k (set_LastCall t s) = set_LastCall t (Exec_Normal i k s).
Proof.
  unfold Exec_Normal. destruct (_ =? LOAD); [reflexivity|]. cbv zeta.
  change (gu16NormalTimer (set_LEDBrightness
            (effect_Normal (u8AnimationOpcode i) (au8LEDBrightness i)
               (gau8LEDBrightness (set_LastCall t s))) (set_LastCall t s)),
          u8LastState (set_LEDBrightness
            (effect_Normal (u8AnimationOpcode i) (au8LEDBrightness i)
               (gau8LEDBrightness (set_LastCall t s))) (set_LastCall t s)),
          u8RepetitionCounter (set_LEDBrightness
            (effect_Normal (u8AnimationOpcode i) (au8LEDBrightness i)
               (gau8LEDBrightness (set_LastCall t s))) (set_LastCall t s)))
    with (gu16NormalTimer s, u8LastState s, u8RepetitionCounter s).
  change (gu16NormalTimer (set_LEDBrightness
            (effect_Normal (u8AnimationOpcode i) (au8LEDBrightness i)
               (gau8LEDBrightness s)) s),
          u8LastState (set_LEDBrightness
            (effect_Normal (u8AnimationOpcode i) (au8LEDBrightness i)
               (gau8LEDBrightness s)) s),
          u8RepetitionCounter (set_LEDBrightness
            (effect_Normal (u8AnimationOpcode i) (au8LEDBrightness i)
               (gau8LEDBrightness s)) s))
    with (gu16NormalTimer s, u8LastState s, u8RepetitionCounter s).
  destruct (repeat_ctl _ _ _ _ _) as [[? ?] ?]. reflexivity.
Qed.

Lemma Exec_RGB_LastCall i k t s :
  Exec_RGB i k (set_LastCall t s) = set_LastCall t (Exec_RGB i k s).
Proof.
  unfold Exec_RGB. destruct (_ =? LOAD); [reflexivity|]. cbv zeta.
  change (gu16RGBTimer (set_RGBLEDs
            (effect_RGB (u8AnimationOpcodeRGB i) (au8RGBLEDBrightness i)
               (gau8RGBLEDs (set_LastCall t s))) (set_LastCall t s)),
          u8LastStateRGB (set_RGBLEDs
            (effect_RGB (u8AnimationOpcodeRGB i) (au8RGBLEDBrightness i)
               (gau8RGBLEDs (set_LastCall t s))) (set_LastCall t s)),
          u8RepetitionCounterRGB (set_RGBLEDs
            (effect_RGB (u8AnimationOpcodeRGB i) (au8RGBLEDBrightness i)
               (gau8RGBLEDs (set_LastCall t s))) (set_LastCall t s)))
    with (gu16RGBTimer s, u8LastStateRGB s, u8RepetitionCounterRGB s).
  change (gu16RGBTimer (set_RGBLEDs
            (effect_RGB (u8AnimationOpcodeRGB i) (au8RGBLEDBrightness i)
               (gau8RGBLEDs s)) s),
          u8LastStateRGB (set_RGBLEDs
            (effect_RGB (u8AnimationOpcodeRGB i) (au8RGBLEDBrightness i)
               (gau8RGBLEDs s)) s),
          u8RepetitionCounterRGB (set_RGBLEDs
            (effect_RGB (u8AnimationOpcodeRGB i) (au8RGBLEDBrightness i)
               (gau8RGBLEDs s)) s))
    with (gu16RGBTimer s, u8LastStateRGB s, u8RepetitionCounterRGB s).
  destruct (repeat_ctl _ _ _ _ _) as [[? ?] ?]. reflexivity.
Qed.

Lemma Cycle_Normal_LastCall a t s :
  Cycle_Normal a (set_LastCall t s) = set_LastCall t <$> Cycle_Normal a s.
Proof.
  unfold Cycle_Normal.
  change (state_Normal a (set_LastCall t s)) with (state_Normal a s).
  destruct (state_Normal a s) as [k|]; [simpl|reflexivity].
  destruct (_ <=? k); simpl.
  - destruct (negb _); [|reflexivity].
    destruct (_ !! _) as [i|]; [simpl|reflexivity].
    change (restart (set_LastCall t s)) with (set_LastCall t (restart s)).
    now rewrite Exec_Normal_LastCall.
  - destruct (negb _); [|reflexivity].
    destruct (_ !! _) as [i|]; [simpl|reflexivity].
    now rewrite Exec_Normal_LastCall.
Qed.

Lemma Cycle_RGB_LastCall a t s :
  Cycle_RGB a (set_LastCall t s) = set_LastCall t <$> Cycle_RGB a s.
Proof.
  unfold Cycle_RGB.
  change (state_RGB a (set_LastCall t s)) with (state_RGB a s).
  destruct (state_RGB a s) as [k|]; [simpl|reflexivity].
  destruct (negb _); [|reflexivity].
  destruct (_ !! _) as [i|]; [simpl|reflexivity].
  now rewrite Exec_RGB_LastCall.
Qed.

Lemma timer_twice T L t1 t2 :
  u16 (u16 (T + u16 (t1 - L)) + u16 (t2 - t1)) = u16 (T + u16 (t2 - L)).
Proof. rewrite !u16_add_r, u16_add_l. f_equal. lia. Qed.

Lemma advance_twice cat t1 t2 s :
  advance cat t2 (set_LastCall t1 (advance cat t1 s)) = set_LastCall t1 (advance cat t2 s).
Proof.
  unfold advance. cbv zeta.
  cbn [u8AnimationIndex gu16NormalTimer gu16RGBTimer gu16LastCall set_LastCall
       set_NormalTimer set_RGBTimer set_AnimationIndex gau8LEDBrightness gau8RGBLEDs
       u8LastState u8RepetitionCounter u8LastStateRGB u8RepetitionCounterRGB].
  destruct (NUM_ANIMATIONS cat <=? u8AnimationIndex s) eqn:E;
    cbn [u8AnimationIndex gu16NormalTimer gu16RGBTimer gu16LastCall set_LastCall
         set_NormalTimer set_RGBTimer set_AnimationIndex gau8LEDBrightness gau8RGBLEDs
         u8LastState u8RepetitionCounter u8LastStateRGB u8RepetitionCounterRGB];
    rewrite ?E, !timer_twice.
  - destruct (NUM_ANIMATIONS cat <=? 0); reflexivity.
  - reflexivity.
Qed.

(** X8: the engine accumulates time, not ticks.  After a tick that
    crossed no instruction boundary, a later tick gives exactly the result
    it would have given without the intermediate tick, also when the 16-bit
    time stamp wraps around in between. *)
Theorem X8_intermediate_tick_is_transparent (cat : list S_ANIMATION) (t1 t2 : Z)
    (s : engine) (a : S_ANIMATION) :
  t1 ≠ gu16LastCall s →
  cat !! Z.to_nat (u8AnimationIndex (advance cat t1 s)) = Some a →
  state_Normal a (advance cat t1 s) = Some (u8LastState s) →
  u8LastState s < u8AnimationLengthNormal a →
  state_RGB a (advance cat t1 s) = Some (u8LastStateRGB s) →
  t2 ≠ t1 → t2 ≠ gu16LastCall s →
  ∃ s1, Animation_Cycle cat t1 s = Some s1
        ∧ Animation_Cycle cat t2 s1 = Animation_Cycle cat t2 s.
Proof.
  intros Hne Ha HselN HlenN HselC H1 H2.
  exists (set_LastCall t1 (advance cat t1 s)).
  split; [now apply (Animation_Cycle_idle cat t1 s a)|].
  unfold Animation_Cycle. simpl gu16LastCall.
  destruct (Z.eqb_spec t2 t1); [contradiction|].
  destruct (Z.eqb_spec t2 (gu16LastCall s)); [contradiction|]. simpl negb. cbv iota zeta.
  rewrite advance_twice.
  change (u8AnimationIndex (set_LastCall t1 (advance cat t2 s)))
    with (u8AnimationIndex (advance cat t2 s)).
  destruct (cat !! Z.to_nat (u8AnimationIndex (advance cat t2 s))) as [a'|];
    [simpl|reflexivity].
  rewrite Cycle_Normal_LastCall.
  destruct (Cycle_Normal a' (advance cat t2 s)) as [x|]; [simpl|reflexivity].
  rewrite Cycle_RGB_LastCall.
  destruct (Cycle_RGB a' x) as [y|]; reflexivity.
Qed.

Lemma X8_intermediate_tick_is_transparent_witness :
  ∃ s1, Animation_Cycle Catalog.gasAnimations 1260
          (mkEngine [0; 3; 6; 3; 0; 0; 0] [0; 0; 3; 0] 300 300 1250 2 0 1 0 3) = Some s1
        ∧ Animation_Cycle Catalog.gasAnimations 1400 s1
          = Animation_Cycle Catalog.gasAnimations 1400
              (mkEngine [0; 3; 6; 3; 0; 0; 0] [0; 0; 3; 0] 300 300 1250 2 0 1 0 3).
Proof.
  refine (X8_intermediate_tick_is_transparent Catalog.gasAnimations 1260 1400
            (mkEngine [0; 3; 6; 3; 0; 0; 0] [0; 0; 3; 0] 300 300 1250 2 0 1 0 3)
            Scenario.Animation4 _ _ _ _ _ _ _);
    try (vm_compute; reflexivity); vm_compute; discriminate.
Defined.

(** ** Selecting an animation *)

Lemma Animation_Cycle_elapsed cat now s :
  now ≠ gu16LastCall s →
  Animation_Cycle cat now s
  = a ← cat !! Z.to_nat (u8AnimationIndex (advance cat now s));
    x ← Cycle_Normal a (advance cat now s);
    y ← Cycle_RGB a x;
    Some (set_LastCall now y).
Proof.
  intros Hne. unfold Animation_Cycle.
  destruct (Z.eqb_spec now (gu16LastCall s)); [contradiction|]. reflexivity.
Qed.

Lemma Cycle_Normal_first a s n0 :
  1 ≤ u8AnimationLengthNormal a →
  psInstructionsNormal a !! 0%nat = Some n0 →
  0 ≤ gu16NormalTimer s < u16TimingMs n0 → u16TimingMs n0 < 65536 →
  u8LastState s ≠ 0 →
  Cycle_Normal a s = Some (Exec_Normal n0 0 s).
Proof.
  intros Hlen Hn0 Ht Hd Hlast. unfold Cycle_Normal, state_Normal.
  destruct (Z.to_nat (u8AnimationLengthNormal a)) as [|f] eqn:E; [lia|].
  cbn [scan_Normal]. change (Z.to_nat 0) with 0%nat. rewrite Hn0. cbn -[u16 Z.gtb Z.leb].
  rewrite Z.add_0_l, (u16_small (u16TimingMs n0)) by lia.
  destruct (Z.gtb_spec (u16TimingMs n0) (gu16NormalTimer s)); [|lia]. cbn -[Z.leb Z.eqb].
  destruct (Z.leb_spec (u8AnimationLengthNormal a) 0); [lia|].
  destruct (Z.eqb_spec (u8LastState s) 0); [contradiction|]. simpl.
  change (Z.to_nat 0) with 0%nat. now rewrite Hn0.
Qed.

Lemma Cycle_RGB_first a s c0 :
  1 ≤ u8AnimationLengthRGB a →
  psInstructionsRGB a !! 0%nat = Some c0 →
  0 ≤ gu16RGBTimer s < u16TimingMsRGB c0 → u16TimingMsRGB c0 < 65536 →
  u8LastStateRGB s ≠ 0 →
  Cycle_RGB a s = Some (Exec_RGB c0 0 s).
Proof.
  intros Hlen Hc0 Ht Hd Hlast. unfold Cycle_RGB, state_RGB.
  destruct (Z.to_nat (u8AnimationLengthRGB a)) as [|f] eqn:E; [lia|].
  cbn [scan_RGB]. change (Z.to_nat 0) with 0%nat. rewrite Hc0. cbn -[u16 Z.gtb Z.leb].
  rewrite Z.add_0_l, (u16_small (u16TimingMsRGB c0)) by lia.
  destruct (Z.gtb_spec (u16TimingMsRGB c0) (gu16RGBTimer s)); [|lia]. cbn -[Z.leb Z.eqb].
  destruct (Z.eqb_spec (u8LastStateRGB s) 0); [contradiction|]. simpl.
  change (Z.to_nat 0) with 0%nat. now rewrite Hc0.
Qed.

(** X9: a newly selected animation starts from its first instructions.
    After a successful [Animation_Set], the first tick whose elapsed time
    (modulo 2^16) is non-zero and shorter than the first instruction of
    each timeline executes instruction 0 of the linear bank and then
    instruction 0 of the RGB timeline, whatever the engine was doing
    before. *)
Theorem X9_select_then_tick (cat : list S_ANIMATION) (idx now : Z) (s : engine)
    (a : S_ANIMATION) (n0 : S_ANIMATION_INSTRUCTION_NORMAL) (c0 : S_ANIMATION_INSTRUCTION_RGB) :
  0 ≤ idx < NUM_ANIMATIONS cat →
  cat !! Z.to_nat idx = Some a →
  1 ≤ u8AnimationLengthNormal a → 1 ≤ u8AnimationLengthRGB a →
  psInstructionsNormal a !! 0%nat = Some n0 →
  psInstructionsRGB a !! 0%nat = Some c0 →
  u16TimingMs n0 < 65536 → u16TimingMsRGB c0 < 65536 →
  0 < u16 (now - gu16LastCall s) < u16TimingMs n0 →
  u16 (now - gu16LastCall s) < u16TimingMsRGB c0 →
  ∃ s', Animation_Cycle cat now (Animation_Set cat idx s) = Some s'
        ∧ gau8LEDBrightness s' = brightness_after_Normal n0 (gau8LEDBrightness s)
        ∧ gau8RGBLEDs s' = brightness_after_RGB c0 (gau8RGBLEDs s)
        ∧ u8AnimationIndex s' = idx ∧ gu16LastCall s' = now.
Proof.
  intros Hidx Ha HlN HlC Hn0 Hc0 HdN HdC Hd HdC'.
  assert (Hne : now ≠ gu16LastCall s).
  { intros E. rewrite E, Z.sub_diag in Hd. change (u16 0) with 0 in Hd. lia. }
  set (d := u16 (now - gu16LastCall s)) in *.
  assert (Hadv : advance cat now (Animation_Set cat idx s)
                 = mkEngine (gau8LEDBrightness s) (gau8RGBLEDs s) d d (gu16LastCall s)
                     0xFF 0 0xFF 0 idx).
  { unfold Animation_Set. destruct (Z.ltb_spec idx (NUM_ANIMATIONS cat)); [|lia].
    unfold advance. cbv zeta.
    cbn [u8AnimationIndex gu16NormalTimer gu16RGBTimer gu16LastCall set_LastCall
         set_NormalTimer set_RGBTimer set_AnimationIndex gau8LEDBrightness gau8RGBLEDs
         u8LastState u8RepetitionCounter u8LastStateRGB u8RepetitionCounterRGB
         set_LastState set_RepetitionCounter set_LastStateRGB set_RepetitionCounterRGB].
    destruct (Z.leb_spec (NUM_ANIMATIONS cat) idx); [lia|].
    fold d. rewrite !Z.add_0_l, (u16_small d) by (subst d; apply u16_range).
    reflexivity. }
  assert (Hlc : gu16LastCall (Animation_Set cat idx s) = gu16LastCall s)
    by (unfold Animation_Set; now destruct (_ <? _)).
  rewrite Animation_Cycle_elapsed by now rewrite Hlc.
  rewrite Hadv. cbn [u8AnimationIndex]. rewrite Ha. simpl mbind.
  rewrite (Cycle_Normal_first a _ n0 HlN Hn0) by (simpl; lia || discriminate).
  simpl mbind.
  destruct (Exec_Normal_frame n0 0
              (mkEngine (gau8LEDBrightness s) (gau8RGBLEDs s) d d (gu16LastCall s)
                 255 0 255 0 idx)) as (F1 & F2 & F3 & F4 & F5 & F6).
  rewrite (Cycle_RGB_first a _ c0 HlC Hc0)
    by (rewrite ?F2, ?F3; simpl; lia || discriminate).
  simpl mbind.
  eexists. split; [reflexivity|].
  destruct (Exec_RGB_frame c0 0 (Exec_Normal n0 0
              (mkEngine (gau8LEDBrightness s) (gau8RGBLEDs s) d d (gu16LastCall s)
                 255 0 255 0 idx))) as (G1 & G2 & G3 & G4 & G5 & G6).
  cbn [gau8LEDBrightness gau8RGBLEDs u8AnimationIndex gu16LastCall set_LastCall].
  rewrite G1, Exec_Normal_brightness, Exec_RGB_brightness, F1, G5, F5.
  repeat split; reflexivity.
Qed.

Lemma X9_select_then_tick_witness :
  ∃ s', Animation_Cycle Catalog.gasAnimations 50
          (Animation_Set Catalog.gasAnimations 0 Scenario.fade3) = Some s'
        ∧ gau8LEDBrightness s'
          = brightness_after_Normal (mkNormal 200 [0; 0; 0; 0; 0; 0; 0] LOAD 0)
              (gau8LEDBrightness Scenario.fade3)
        ∧ gau8RGBLEDs s'
          = brightness_after_RGB (mkRGB 100 [0; 0; 0; 0] LOAD 0) (gau8RGBLEDs Scenario.fade3)
        ∧ u8AnimationIndex s' = 0 ∧ gu16LastCall s' = 50.
Proof.
  refine (X9_select_then_tick Catalog.gasAnimations 0 50 Scenario.fade3 KITT
            (mkNormal 200 [0; 0; 0; 0; 0; 0; 0] LOAD 0) (mkRGB 100 [0; 0; 0; 0] LOAD 0)
            _ _ _ _ _ _ _ _ _ _);
    try reflexivity; vm_compute; try discriminate; split; (reflexivity || discriminate).
Defined.

(** ** The shift and divide operations *)

Lemma list7 (a : list Z) :
  length a = LEDS_NUM →
  ∃ a0 a1 a2 a3 a4 a5 a6, a = [a0; a1; a2; a3; a4; a5; a6].
Proof.
  intros H.
  destruct a as [|a0 [|a1 [|a2 [|a3 [|a4 [|a5 [|a6 [|a7 a]]]]]]]]; try discriminate.
  now exists a0, a1, a2, a3, a4, a5, a6.
Qed.

(** X10: on the seven channels RSHIFT is the rotation that moves the last
    element to the front and LSHIFT the one that moves the first element to
    the back; each undoes the other, seven shifts in one direction give
    the vector back, and an opcode that sets both shift bits and none of
    ADD, USOURCE, DSOURCE, DIV leaves the brightness as it is. *)
Theorem X10_shifts_rotate (a ops : list Z) (op : Z) :
  length a = LEDS_NUM →
  op_RSHIFT a = drop 6 a ++ take 6 a
  ∧ op_LSHIFT a = drop 1 a ++ take 1 a
  ∧ op_LSHIFT (op_RSHIFT a) = a
  ∧ op_RSHIFT (op_LSHIFT a) = a
  ∧ Nat.iter 7 op_RSHIFT a = a
  ∧ Nat.iter 7 op_LSHIFT a = a
  ∧ (has RSHIFT op = true → has LSHIFT op = true → has ADD op = false →
     has USOURCE op = false → has DSOURCE op = false → has DIV op = false →
     effect_Normal op ops a = a).
Proof.
  intros H. destruct (list7 a H) as (a0 & a1 & a2 & a3 & a4 & a5 & a6 & ->).
  repeat split; try reflexivity.
  intros H1 H2 H3 H4 H5 H6. unfold effect_Normal.
  rewrite H1, H2, H3, H4, H5, H6. reflexivity.
Qed.

Lemma X10_shifts_rotate_witness :
  length [1; 2; 3; 4; 5; 6; 7] = LEDS_NUM
  ∧ op_RSHIFT [1; 2; 3; 4; 5; 6; 7] = drop 6 [1; 2; 3; 4; 5; 6; 7] ++ take 6 [1; 2; 3; 4; 5; 6; 7]
  ∧ effect_Normal (Z.lor RSHIFT LSHIFT) [9; 9; 9; 9; 9; 9; 9] [1; 2; 3; 4; 5; 6; 7]
    = [1; 2; 3; 4; 5; 6; 7].
Proof.
  split; [reflexivity|]. split.
  - exact (proj1 (X10_shifts_rotate [1; 2; 3; 4; 5; 6; 7] [] 0 eq_refl)).
  - refine (proj2 (proj2 (proj2 (proj2 (proj2 (proj2
              (X10_shifts_rotate [1; 2; 3; 4; 5; 6; 7] [9; 9; 9; 9; 9; 9; 9]
                 (Z.lor RSHIFT LSHIFT) eq_refl)))))) _ _ _ _ _ _); reflexivity.
Defined.

Lemma pointwise_loop (f : nat → Z → Z) n (a : list Z) j :
  let r := for_each (seq 0 n) (fun i a => <[i := f i (rd a i)]> a) a in
  length r = length a
  ∧ ((n ≤ j)%nat → rd r j = rd a j)
  ∧ ((j < n)%nat → (j < length a)%nat → rd r j = f j (rd a j)).
Proof.
  cbv zeta. revert j. induction n as [|n IH]; intros j.
  - repeat split; intros; (reflexivity || lia).
  - rewrite seq_S, for_each_snoc. simpl.
    destruct (IH j) as (Hl & Hab & Hin). destruct (IH n) as (_ & Habn & _).
    rewrite length_insert. split; [exact Hl|]. split.
    + intros Hj. rewrite rd_insert_ne by lia. apply Hab. lia.
    + intros Hj Hla. destruct (Nat.eq_dec j n) as [->|Hne].
      * rewrite rd_insert_eq by lia. now rewrite Habn.
      * rewrite rd_insert_ne by lia. apply Hin; lia.
Qed.

Lemma insert_rd (a : list Z) i : <[i := rd a i]> a = a.
Proof.
  apply list_insert_id'. intros Hi. unfold rd.
  destruct (lookup_lt_is_Some_2 a i Hi) as [x ->]. reflexivity.
Qed.

Lemma op_DIV_eq n ops a :
  op_DIV n ops a
  = for_each (seq 0 n)
      (fun i a => <[i := (fun i b => if rd ops i =? 0 then b else b / rd ops i) i (rd a i)]> a) a.
Proof.
  unfold op_DIV, upto, for_each. rewrite Nat.sub_0_r.
  generalize (seq 0 n). intros l. revert a.
  induction l as [|i l IH]; intros a; simpl; [reflexivity|].
  rewrite <- IH. f_equal. destruct (rd ops i =? 0); simpl; [now rewrite insert_rd | reflexivity].
Qed.

(** X11: DIV divides each of the first [n] channels by its operand byte
    and leaves a channel whose operand is 0 as it is; it changes neither
    the other channels nor the length, and it never raises a brightness. *)
Theorem X11_DIV_per_channel (n : nat) (ops a : list Z) (j : nat) :
  length (op_DIV n ops a) = length a
  ∧ ((n ≤ j)%nat → rd (op_DIV n ops a) j = rd a j)
  ∧ ((j < n)%nat → (j < length a)%nat →
     rd (op_DIV n ops a) j = if rd ops j =? 0 then rd a j else rd a j / rd ops j)
  ∧ (0 ≤ rd a j → 0 ≤ rd ops j → 0 ≤ rd (op_DIV n ops a) j ≤ rd a j).
Proof.
  rewrite op_DIV_eq.
  destruct (pointwise_loop (fun i b => if rd ops i =? 0 then b else b / rd ops i) n a j)
    as (Hl & Hab & Hin).
  split; [exact Hl|]. split; [exact Hab|]. split; [exact Hin|].
  intros Ha Ho.
  destruct (Nat.lt_ge_cases j n) as [Hj|Hj]; [|rewrite Hab by lia; lia].
  destruct (Nat.lt_ge_cases j (length a)) as [Hla|Hla].
  - rewrite Hin by lia. destruct (Z.eqb_spec (rd ops j) 0); [lia|]. split.
    + apply Z.div_pos; lia.
    + apply Z.div_le_upper_bound; [lia|]. nia.
  - rewrite rd_ge by (rewrite Hl; lia). rewrite (rd_ge a j Hla) in *. lia.
Qed.

Lemma X11_DIV_per_channel_witness :
  rd (op_DIV LEDS_NUM [2; 0; 3; 1; 16; 5; 255] [15; 7; 14; 9; 15; 4; 15]) 2 = 14 / 3
  ∧ op_DIV LEDS_NUM [2; 0; 3; 1; 16; 5; 255] [15; 7; 14; 9; 15; 4; 15] = [7; 7; 4; 9; 0; 0; 0].
Proof.
  split; [|vm_compute; reflexivity].
  refine (proj1 (proj2 (proj2 (X11_DIV_per_channel LEDS_NUM [2; 0; 3; 1; 16; 5; 255]
            [15; 7; 14; 9; 15; 4; 15] 2))) _ _); vm_compute; lia.
Defined.

(** ** The source operations *)

(** X12: whatever bytes the seven channels hold, and whatever the operand
    bytes are, USOURCE and DSOURCE leave every channel within
    [0, MAX_LEVEL]: every channel is saturated after its last write. *)
Theorem X12_sources_saturate (ops a : list Z) :
  length a = LEDS_NUM → Forall (fun v => 0 ≤ v < 256) a →
  (length (op_USOURCE ops a) = LEDS_NUM
   ∧ Forall (fun v => 0 ≤ v ≤ 15) (op_USOURCE ops a))
  ∧ (length (op_DSOURCE ops a) = LEDS_NUM
     ∧ Forall (fun v => 0 ≤ v ≤ 15) (op_DSOURCE ops a)).
Proof.
  intros Hl Hb.
  assert (Hr : ranged (replicate LEDS_NUM false) a).
  { split; [exact Hb|]. intros i Hi. apply lookup_replicate in Hi as [? _]. discriminate. }
  split.
  - apply (ranged_levels LEDS_NUM); [now apply op_USOURCE_length | now apply op_USOURCE_ranged].
  - apply (ranged_levels LEDS_NUM); [now apply op_DSOURCE_length | now apply op_DSOURCE_ranged].
Qed.

Lemma X12_sources_saturate_witness :
  Forall (fun v => 0 ≤ v < 256) [200; 14; 99; 2; 255; 0; 128]
  ∧ Forall (fun v => 0 ≤ v ≤ 15) (op_USOURCE [100; 0; 7; 0; 0; 250; 3] [200; 14; 99; 2; 255; 0; 128]).
Proof.
  assert (H : Forall (fun v => 0 ≤ v < 256) [200; 14; 99; 2; 255; 0; 128])
    by (repeat constructor; lia).
  split; [exact H|].
  exact (proj2 (proj1 (X12_sources_saturate [100; 0; 7; 0; 0; 250; 3]
                         [200; 14; 99; 2; 255; 0; 128] eq_refl H))).
Defined.

Lemma carry_calm src dst (a : list Z) :
  0 ≤ rd a src ≤ 15 → 0 ≤ rd a dst < 256 → carry src dst a = a.
Proof.
  intros Hs Hd. rewrite carry_eq. unfold saturate_at.
  rewrite (SaturateBrightness_id (rd a src)) by (unfold MAX_LEVEL; lia). simpl.
  rewrite insert_rd, Z.add_0_r, u8_small by lia. apply insert_rd.
Qed.

Lemma saturate_calm i (a : list Z) : 0 ≤ rd a i ≤ 15 → saturate_at i a = a.
Proof.
  intros H. unfold saturate_at.
  rewrite SaturateBrightness_id by (unfold MAX_LEVEL; lia). simpl. apply insert_rd.
Qed.

Lemma SaturateBrightness_over v : 15 < v < 128 → SaturateBrightness v = (15, v - 15).
Proof.
  intros H. unfold SaturateBrightness. rewrite i8_small by lia.
  destruct (Z.ltb_spec v 0); [lia|]. destruct (Z.gtb_spec v 15); [|lia].
  now rewrite i8_small by lia.
Qed.

Lemma carry_over src dst (a : list Z) :
  15 < rd a src < 128 →
  carry src dst a
  = <[dst := u8 (rd (<[src := 15]> a) dst + (rd a src - 15))]> (<[src := 15]> a).
Proof. intros H. unfold carry. now rewrite SaturateBrightness_over. Qed.

Lemma saturate_over i (a : list Z) : 15 < rd a i < 128 → saturate_at i a = <[i := 15]> a.
Proof. intros H. unfold saturate_at. now rewrite SaturateBrightness_over. Qed.

(** Symbolic execution of a source operation on seven named channels:
    the innermost pending step is evaluated with the arithmetic facts at
    hand. *)
Ltac innermost l :=
  lazymatch l with
  | context [carry _ _ _] => fail
  | context [bump _ _ _] => fail
  | context [saturate_at _ _] => fail
  | _ => idtac
  end.

Ltac compute_lists :=
  cbn [rd default from_option lookup list_lookup insert list_insert id].

Ltac channel_side := compute_lists; lia.

Ltac flow_step :=
  match goal with
  | |- context [carry ?i ?j ?l] =>
      innermost l;
      first [ rewrite (carry_calm i j l) by channel_side
            | rewrite (carry_over i j l) by channel_side; compute_lists;
              rewrite u8_small by lia ]
  | |- context [saturate_at ?i ?l] =>
      innermost l;
      first [ rewrite (saturate_calm i l) by channel_side
            | rewrite (saturate_over i l) by channel_side; compute_lists ]
  | |- context [bump ?o ?i ?l] =>
      innermost l;
      change (bump o i l) with (<[i := u8 (rd l i + i8 (rd o i))]> l);
      compute_lists; rewrite ?(i8_small 0), ?Z.add_0_r by lia;
      rewrite ?i8_small by lia; rewrite u8_small by lia
  end.

Ltac flow :=
  cbv [op_USOURCE op_DSOURCE for_each upto downto LEDS_NUM RIGHT_LEDS_START seq rev app
       fold_left Nat.sub Nat.add replicate insert list_insert take drop pour length
       zip_with];
  unfold MAX_LEVEL;
  repeat match goal with
         | |- context [?x <=? 15] => destruct (Z.leb_spec x 15)
         end;
  repeat flow_step; try reflexivity.

Ltac name_channels a H :=
  let a0 := fresh a "0" in let a1 := fresh a "1" in let a2 := fresh a "2" in
  let a3 := fresh a "3" in let a4 := fresh a "4" in let a5 := fresh a "5" in
  let a6 := fresh a "6" in
  destruct (list7 a H) as (a0 & a1 & a2 & a3 & a4 & a5 & a6 & ->).

(** X13: when no channel leaves [0, MAX_LEVEL] on receiving its own
    operand, nothing cascades: USOURCE and DSOURCE both reduce to adding
    each signed operand to its channel. *)
Theorem X13_sources_without_overflow (ops a : list Z) :
  length a = LEDS_NUM → length ops = LEDS_NUM →
  (∀ i, (i < 7)%nat → 0 ≤ rd a i ≤ 15 ∧ 0 ≤ rd a i + i8 (rd ops i) ≤ 15) →
  op_USOURCE ops a = zip_with (fun b o => b + i8 o) a ops
  ∧ op_DSOURCE ops a = zip_with (fun b o => b + i8 o) a ops.
Proof.
  intros Ha Ho H. name_channels a Ha. name_channels ops Ho.
  pose proof (H 0%nat ltac:(lia)) as H0. pose proof (H 1%nat ltac:(lia)) as H1.
  pose proof (H 2%nat ltac:(lia)) as H2. pose proof (H 3%nat ltac:(lia)) as H3.
  pose proof (H 4%nat ltac:(lia)) as H4. pose proof (H 5%nat ltac:(lia)) as H5.
  pose proof (H 6%nat ltac:(lia)) as H6. clear H.
  compute_lists. cbn [rd default from_option lookup list_lookup id] in *.
  split; flow.
Qed.

Lemma X13_sources_without_overflow_witness :
  op_USOURCE [3; 255; 0; 2; 0; 254; 1] [4; 1; 15; 13; 0; 9; 14] = [7; 0; 15; 15; 0; 7; 15]
  ∧ op_DSOURCE [3; 255; 0; 2; 0; 254; 1] [4; 1; 15; 13; 0; 9; 14] = [7; 0; 15; 15; 0; 7; 15].
Proof.
  refine (X13_sources_without_overflow [3; 255; 0; 2; 0; 254; 1] [4; 1; 15; 13; 0; 9; 14]
            eq_refl eq_refl _).
  intros i Hi.
  destruct i as [|[|[|[|[|[|[|i]]]]]]]; [ | | | | | | | lia]; vm_compute;
    repeat split; discriminate.
Defined.

Lemma pour_sum c l :
  0 ≤ c → Forall (fun v => 0 ≤ v ≤ 15) l →
  foldr Z.add 0 (pour c l) = Z.min (foldr Z.add 0 l + c) (15 * Z.of_nat (length l))
  ∧ Forall (fun v => 0 ≤ v ≤ 15) (pour c l).
Proof.
  intros Hc Hl. revert c Hc. induction Hl as [|x l Hx Hl IH]; intros c Hc.
  - simpl. split; [lia | constructor].
  - assert (Hs : 0 ≤ foldr Z.add 0 l ≤ 15 * Z.of_nat (length l)).
    { clear -Hl. induction Hl as [|y l Hy Hl IH]; simpl; [lia|].
      change (foldr Z.add 0 l) with (foldr Z.add 0 l) in *. lia. }
    cbn [pour]. unfold MAX_LEVEL.
    destruct (Z.leb_spec (x + c) 15).
    + split; [|constructor; [lia | exact Hl]].
      cbn [foldr length]. lia.
    + destruct (IH (x + c - 15) ltac:(lia)) as [IHs IHr].
      split; [|constructor; [lia | exact IHr]].
      cbn [foldr length]. rewrite IHs. lia.
Qed.

Lemma op_USOURCE_pour (a : list Z) (c : Z) (k : nat) :
  levels_ok LEDS_NUM a → 0 ≤ c ≤ 112 → (k < 6)%nat →
  op_USOURCE (<[k := c]> (replicate 7 0)) a
  = take k a ++ pour c (take (6 - k) (drop k a)) ++ drop 6 a.
Proof.
  intros [Ha Hr] Hc Hk. name_channels a Ha. unfold MAX_LEVEL in Hr.
  repeat match goal with
         | H : Forall _ (_ :: _) |- _ => apply Forall_cons in H as [? H]
         end.
  destruct k as [|[|[|[|[|[|k]]]]]]; [ | | | | | | lia]; flow.
Qed.

Lemma op_DSOURCE_pour (a : list Z) (c : Z) (k : nat) :
  levels_ok LEDS_NUM a → 0 ≤ c ≤ 112 → (k < 6)%nat →
  op_DSOURCE (<[k := c]> (replicate 7 0)) a
  = rev (pour c (rev (take (S k) a))) ++ drop (S k) a.
Proof.
  intros [Ha Hr] Hc Hk. name_channels a Ha. unfold MAX_LEVEL in Hr.
  repeat match goal with
         | H : Forall _ (_ :: _) |- _ => apply Forall_cons in H as [? H]
         end.
  destruct k as [|[|[|[|[|[|k]]]]]]; [ | | | | | | lia]; flow.
Qed.

(** X14: the cascade of a single positive source.  On brightness within
    range, USOURCE with operand [c] (at most 112) on channel [k] of the
    left arc (channels 0 to 5) and 0 elsewhere pours [c] into the channels
    [k], [k+1], ... up to 5: each takes what it can hold up to 15 and hands
    the rest on, the first channel that does not fill keeps the remainder,
    the channels beyond it and channel 6 are untouched, and what channel 5
    cannot hold is lost.  DSOURCE pours the other way, from [k] down to
    channel 0.  The poured channels then hold the old total plus [c],
    capped at 15 per channel. *)
Theorem X14_source_pours (a : list Z) (c : Z) (k : nat) :
  levels_ok LEDS_NUM a → 0 ≤ c ≤ 112 → (k < 6)%nat →
  op_USOURCE (<[k := c]> (replicate 7 0)) a
  = take k a ++ pour c (take (6 - k) (drop k a)) ++ drop 6 a
  ∧ op_DSOURCE (<[k := c]> (replicate 7 0)) a
    = rev (pour c (rev (take (S k) a))) ++ drop (S k) a
  ∧ foldr Z.add 0 (pour c (take (6 - k) (drop k a)))
    = Z.min (foldr Z.add 0 (take (6 - k) (drop k a)) + c) (15 * Z.of_nat (6 - k)).
Proof.
  intros Ha Hc Hk. split; [now apply op_USOURCE_pour|]. split; [now apply op_DSOURCE_pour|].
  destruct Ha as [Hl Hr].
  assert (Hfor : Forall (fun v => 0 ≤ v ≤ 15) (take (6 - k) (drop k a)))
    by (apply Forall_take, Forall_drop, Hr).
  rewrite (proj1 (pour_sum c _ ltac:(lia) Hfor)).
  rewrite length_take, length_drop, Hl. unfold LEDS_NUM. f_equal. lia.
Qed.

Lemma X14_source_pours_witness :
  op_USOURCE (<[1%nat := 40]> (replicate 7 0)) [3; 10; 15; 2; 0; 0; 9]
  = [3; 15; 15; 15; 15; 7; 9]
  ∧ op_DSOURCE (<[3%nat := 100]> (replicate 7 0)) [3; 10; 15; 2; 0; 0; 9]
    = [15; 15; 15; 15; 0; 0; 9].
Proof.
  assert (H : levels_ok LEDS_NUM [3; 10; 15; 2; 0; 0; 9])
    by (split; [reflexivity | unfold MAX_LEVEL; repeat constructor; lia]).
  split.
  - refine (eq_trans (proj1 (X14_source_pours [3; 10; 15; 2; 0; 0; 9] 40 1 H _ _)) _);
      [lia | lia | vm_compute; reflexivity].
  - refine (eq_trans (proj1 (proj2 (X14_source_pours [3; 10; 15; 2; 0; 0; 9] 100 3 H _ _))) _);
      [lia | lia | vm_compute; reflexivity].
Defined.

(** * The LED drivers *)

(** ** Soft PWM of the linear bank (led.c) *)

Lemma forall_below (P : Z → bool) (n : nat) :
  forallb (fun i => P (Z.of_nat i)) (seq 0 n) = true →
  ∀ z, 0 ≤ z < Z.of_nat n → P z = true.
Proof.
  intros H z Hz. rewrite forallb_forall in H.
  specialize (H (Z.to_nat z)). rewrite Z2Nat.id in H by lia.
  apply H. apply in_seq. lia.
Qed.

Lemma LED_Interrupt_pin bri d k :
  (k < 7)%nat →
  LED (LED_Interrupt bri d) !! k
  = Some (negb (bDrive (LED_Interrupt bri d)
                && (rd bri k >? gu8PWMCounter (LED_Interrupt bri d)))).
Proof.
  intros Hk. unfold LED_Interrupt.
  destruct (u8 (u8DriveCounter d + 1) =? 5); cbv zeta; cbn [LED bDrive gu8PWMCounter];
    (destruct k as [|[|[|[|[|[|[|k]]]]]]]; [ | | | | | | | lia]);
    cbn [lookup list_lookup andb negb]; try reflexivity;
    now destruct (_ >? _).
Qed.

Lemma LED_Interrupt_counters bri bri' d d' :
  gu8PWMCounter d = gu8PWMCounter d' → u8DriveCounter d = u8DriveCounter d' →
  gu8PWMCounter (LED_Interrupt bri d) = gu8PWMCounter (LED_Interrupt bri' d')
  ∧ u8DriveCounter (LED_Interrupt bri d) = u8DriveCounter (LED_Interrupt bri' d')
  ∧ bDrive (LED_Interrupt bri d) = bDrive (LED_Interrupt bri' d').
Proof.
  intros Hc Hd. unfold LED_Interrupt. rewrite Hc, Hd.
  destruct (u8 (u8DriveCounter d' + 1) =? 5); now repeat split.
Qed.

Lemma LED_low_count_canon n bri k :
  (k < 7)%nat →
  ∀ d d', gu8PWMCounter d = gu8PWMCounter d' → u8DriveCounter d = u8DriveCounter d' →
    LED_low_count n bri k d = LED_low_count n [rd bri k] 0 d'.
Proof.
  intros Hk. induction n as [|n IH]; intros d d' Hc Hd; [reflexivity|].
  cbn [LED_low_count]. cbv zeta.
  destruct (LED_Interrupt_counters bri [rd bri k] d d' Hc Hd) as (Hc' & Hd' & Hb').
  rewrite (IH _ _ Hc' Hd').
  rewrite (LED_Interrupt_pin bri d k Hk), (LED_Interrupt_pin [rd bri k] d' 0 ltac:(lia)).
  rewrite Hc', Hb'. reflexivity.
Qed.

Lemma LED_duty_table :
  forallb (fun b => forallb (fun c => forallb (fun dc =>
     (LED_low_count 80 [Z.of_nat b] 0
        (mkLedDriver (Z.of_nat c) false false (Z.of_nat dc) [])
      =? Z.to_nat (Z.min (Z.of_nat b) 16))%nat)
     (seq 0 5)) (seq 0 16)) (seq 0 256) = true.
Proof. vm_compute. reflexivity. Qed.

(** X15: the duty cycle of the soft PWM.  With the PWM counter below 16
    and the drive counter below 5, as [LED_Init] and the interrupt itself
    leave them, any 80 consecutive interrupts over a constant brightness
    byte [b] drive pin LED[k] to 0 on exactly [min b 16] of them: a
    brightness within [0, 15] is the number of lit slots out of 80. *)
Theorem X15_LED_duty_cycle (bri : list Z) (d : led_driver) (k : nat) :
  (k < 7)%nat →
  0 ≤ gu8PWMCounter d < 16 → 0 ≤ u8DriveCounter d < 5 → 0 ≤ rd bri k < 256 →
  LED_low_count 80 bri k d = Z.to_nat (Z.min (rd bri k) 16).
Proof.
  intros Hk Hc Hd Hb.
  rewrite (LED_low_count_canon 80 bri k Hk d
             (mkLedDriver (gu8PWMCounter d) false false (u8DriveCounter d) []))
    by reflexivity.
  pose proof (forall_below
    (fun b => forallb (fun c => forallb (fun dc =>
       (LED_low_count 80 [b] 0 (mkLedDriver (Z.of_nat c) false false (Z.of_nat dc) [])
        =? Z.to_nat (Z.min b 16))%nat) (seq 0 5)) (seq 0 16))
    256 LED_duty_table (rd bri k) ltac:(simpl; lia)) as H1.
  cbv beta in H1.
  pose proof (forall_below
    (fun c => forallb (fun dc =>
       (LED_low_count 80 [rd bri k] 0 (mkLedDriver c false false (Z.of_nat dc) [])
        =? Z.to_nat (Z.min (rd bri k) 16))%nat) (seq 0 5))
    16 H1 (gu8PWMCounter d) ltac:(simpl; lia)) as H2.
  cbv beta in H2.
  pose proof (forall_below
    (fun dc =>
       (LED_low_count 80 [rd bri k] 0 (mkLedDriver (gu8PWMCounter d) false false dc [])
        =? Z.to_nat (Z.min (rd bri k) 16))%nat)
    5 H2 (u8DriveCounter d) ltac:(simpl; lia)) as H3.
  cbv beta in H3. now apply Nat.eqb_eq in H3.
Qed.

Lemma X15_LED_duty_cycle_witness :
  LED_low_count 80 [0; 3; 6; 9; 12; 15; 1] 3 (mkLedDriver 7 false true 2 []) = 9%nat.
Proof.
  refine (X15_LED_duty_cycle [0; 3; 6; 9; 12; 15; 1] (mkLedDriver 7 false true 2 []) 3 _ _ _ _);
    cbn [gu8PWMCounter u8DriveCounter rd default from_option lookup list_lookup id]; lia.
Defined.

(** X16: the interrupt keeps the PWM counter below 16 and the drive
    counter below 5, and it never drives a LED on two interrupts in a
    row: after an interrupt that left some pin at 0, the next interrupt
    leaves all seven pins at 1, whatever the brightness. *)
Theorem X16_LED_Interrupt_invariants (bri bri' : list Z) (d : led_driver) :
  (0 ≤ gu8PWMCounter d < 16 → 0 ≤ u8DriveCounter d < 5 →
   0 ≤ gu8PWMCounter (LED_Interrupt bri d) < 16
   ∧ 0 ≤ u8DriveCounter (LED_Interrupt bri d) < 5)
  ∧ (∀ k, LED (LED_Interrupt bri d) !! k = Some false →
          LED (LED_Interrupt bri' (LED_Interrupt bri d)) = replicate 7 true).
Proof.
  split.
  - intros Hc Hd. unfold LED_Interrupt.
    rewrite (u8_small (u8DriveCounter d + 1)) by lia.
    destruct (Z.eqb_spec (u8DriveCounter d + 1) 5); cbn [gu8PWMCounter u8DriveCounter].
    + rewrite (u8_small (gu8PWMCounter d + 1)) by lia. unfold PWM_LEVELS.
      destruct (Z.eqb_spec (gu8PWMCounter d + 1) 16); lia.
    + lia.
  - intros k Hlow.
    assert (Hdrive : u8DriveCounter (LED_Interrupt bri d) = 0).
    { revert Hlow. unfold LED_Interrupt.
      destruct (u8 (u8DriveCounter d + 1) =? 5); cbn [LED u8DriveCounter]; [reflexivity|].
      destruct k as [|[|[|[|[|[|[|k]]]]]]]; cbn [lookup list_lookup andb]; discriminate. }
    unfold LED_Interrupt at 1. rewrite Hdrive. reflexivity.
Qed.

Lemma X16_LED_Interrupt_invariants_witness :
  LED (LED_Interrupt [5; 0; 0; 0; 0; 0; 0] (mkLedDriver 2 false false 4 [])) !! 0%nat = Some false
  ∧ LED (LED_Interrupt [15; 15; 15; 15; 15; 15; 15]
           (LED_Interrupt [5; 0; 0; 0; 0; 0; 0] (mkLedDriver 2 false false 4 [])))
    = replicate 7 true.
Proof.
  assert (H : LED (LED_Interrupt [5; 0; 0; 0; 0; 0; 0] (mkLedDriver 2 false false 4 []))
              !! 0%nat = Some false) by reflexivity.
  split; [exact H|].
  exact (proj2 (X16_LED_Interrupt_invariants [5; 0; 0; 0; 0; 0; 0]
                  [15; 15; 15; 15; 15; 15; 15] (mkLedDriver 2 false false 4 [])) 0%nat H).
Defined.

(** ** Initialisation and port modes *)

Lemma pin_cases n :
  0 ≤ n < 8 → n = 0 ∨ n = 1 ∨ n = 2 ∨ n = 3 ∨ n = 4 ∨ n = 5 ∨ n = 6 ∨ n = 7.
Proof. lia. Qed.

Ltac each_pin H :=
  destruct (pin_cases _ H) as [-> | [-> | [-> | [-> | [-> | [-> | [-> | ->]]]]]]].

Ltac port_bits :=
  unfold mode_of; rewrite ?Z.lor_spec, ?Z.land_spec; simpl;
  rewrite ?orb_true_r, ?orb_false_r, ?andb_true_r, ?andb_false_r; try reflexivity.

(** X17: [LED_Init] zeroes the seven brightness bytes and the PWM counter
    and clears the side bit; it makes exactly the LED pins P3.2, P3.4, P3.5
    and P1.0, P1.1, P1.6, P1.7 push-pull outputs, leaving the mode of every
    other pin of P1 and P3 and the P5 registers as they were.  It does not
    touch the static drive counter of the interrupt. *)
Theorem X17_LED_Init (bri : list Z) (d : led_driver) (p : ports) (n : Z) :
  length bri = LEDS_NUM → 0 ≤ n < 8 →
  let '(bri', d', p') := LED_Init bri d p in
  bri' = replicate 7 0
  ∧ gu8PWMCounter d' = 0 ∧ gbitSide d' = false
  ∧ u8DriveCounter d' = u8DriveCounter d ∧ bDrive d' = bDrive d ∧ LED d' = LED d
  ∧ mode_of (P3M0 p') (P3M1 p') n
    = (if (n =? 2) || (n =? 4) || (n =? 5) then Output else mode_of (P3M0 p) (P3M1 p) n)
  ∧ mode_of (P1M0 p') (P1M1 p') n
    = (if (n =? 0) || (n =? 1) || (n =? 6) || (n =? 7) then Output
       else mode_of (P1M0 p) (P1M1 p) n)
  ∧ P5M0 p' = P5M0 p ∧ P5M1 p' = P5M1 p.
Proof.
  intros Hl Hn. unfold LED_Init. cbv zeta.
  cbn [gu8PWMCounter gbitSide u8DriveCounter bDrive LED P1M0 P1M1 P3M0 P3M1 P5M0 P5M1].
  split; [name_channels bri Hl; reflexivity|].
  do 5 (split; [reflexivity|]).
  change (Z.lor (Z.lor (bit 2) (bit 4)) (bit 5)) with 52.
  change (Z.land (Z.land (Z.lnot (bit 2)) (Z.lnot (bit 4))) (Z.lnot (bit 5))) with (-53).
  change (Z.lor (Z.lor (Z.lor (bit 0) (bit 1)) (bit 6)) (bit 7)) with 195.
  change (Z.land (Z.land (Z.land (Z.lnot (bit 0)) (Z.lnot (bit 1))) (Z.lnot (bit 6)))
            (Z.lnot (bit 7))) with (-196).
  split; [|split; [|split; reflexivity]]; each_pin Hn; port_bits.
Qed.

Lemma X17_LED_Init_witness :
  let '(bri', d', p') :=
    LED_Init [9; 8; 7; 6; 5; 4; 3] (mkLedDriver 11 true true 3 []) (mkPorts 0 255 1 255 0 0) in
  bri' = replicate 7 0 ∧ mode_of (P3M0 p') (P3M1 p') 4 = Output
  ∧ mode_of (P3M0 p') (P3M1 p') 0 = OpenDrain.
Proof.
  pose proof (X17_LED_Init [9; 8; 7; 6; 5; 4; 3] (mkLedDriver 11 true true 3 [])
                (mkPorts 0 255 1 255 0 0) 4 eq_refl ltac:(lia)) as H4.
  pose proof (X17_LED_Init [9; 8; 7; 6; 5; 4; 3] (mkLedDriver 11 true true 3 [])
                (mkPorts 0 255 1 255 0 0) 0 eq_refl ltac:(lia)) as H0.
  destruct (LED_Init _ _ _) as [[bri' d'] p'].
  destruct H4 as (Hb & _ & _ & _ & _ & _ & H4 & _).
  destruct H0 as (_ & _ & _ & _ & _ & _ & H0 & _).
  split; [exact Hb|]. split; [exact H4 | exact H0].
Defined.

(** X18: [RGBLED_Init] zeroes the four colour bytes, raises the four
    pulse pins and makes exactly P5.4, P5.5, P3.3 and P3.7 push-pull
    outputs.  The two initialisations write disjoint bits of the shared P3
    mode registers: in either order they give the same port modes, in
    which the P3 pins 2, 3, 4, 5 and 7 are outputs and pins 0, 1 and 6 keep
    their mode. *)
Theorem X18_RGBLED_Init (rgb bri : list Z) (d : rgb_driver) (l : led_driver) (p : ports)
    (n : Z) :
  length rgb = NUM_RGBLED_COLORS → 0 ≤ n < 8 →
  let '(rgb', d', p') := RGBLED_Init rgb d p in
  rgb' = replicate 4 0 ∧ PIN d' = replicate 4 true ∧ u8Cnt d' = u8Cnt d
  ∧ mode_of (P5M0 p') (P5M1 p') n
    = (if (n =? 4) || (n =? 5) then Output else mode_of (P5M0 p) (P5M1 p) n)
  ∧ mode_of (P3M0 p') (P3M1 p') n
    = (if (n =? 3) || (n =? 7) then Output else mode_of (P3M0 p) (P3M1 p) n)
  ∧ P1M0 p' = P1M0 p ∧ P1M1 p' = P1M1 p
  ∧ (let p1 := snd (LED_Init bri l p') in
     let p2 := snd (RGBLED_Init rgb d (snd (LED_Init bri l p))) in
     mode_of (P3M0 p1) (P3M1 p1) n = mode_of (P3M0 p2) (P3M1 p2) n
     ∧ mode_of (P1M0 p1) (P1M1 p1) n = mode_of (P1M0 p2) (P1M1 p2) n
     ∧ mode_of (P5M0 p1) (P5M1 p1) n = mode_of (P5M0 p2) (P5M1 p2) n
     ∧ mode_of (P3M0 p1) (P3M1 p1) n
       = (if (n =? 0) || (n =? 1) || (n =? 6) then mode_of (P3M0 p) (P3M1 p) n
          else Output)).
Proof.
  intros Hl Hn. unfold RGBLED_Init, LED_Init. cbv zeta.
  cbn [u8Cnt PIN P1M0 P1M1 P3M0 P3M1 P5M0 P5M1 snd].
  split.
  { destruct rgb as [|r0 [|r1 [|r2 [|r3 [|r4 rgb]]]]]; try discriminate. reflexivity. }
  do 2 (split; [reflexivity|]).
  change (Z.lor (Z.lor (bit 2) (bit 4)) (bit 5)) with 52.
  change (Z.land (Z.land (Z.lnot (bit 2)) (Z.lnot (bit 4))) (Z.lnot (bit 5))) with (-53).
  change (Z.lor (Z.lor (Z.lor (bit 0) (bit 1)) (bit 6)) (bit 7)) with 195.
  change (Z.land (Z.land (Z.land (Z.lnot (bit 0)) (Z.lnot (bit 1))) (Z.lnot (bit 6)))
            (Z.lnot (bit 7))) with (-196).
  change (Z.lor (bit 4) (bit 5)) with 48.
  change (Z.land (Z.lnot (bit 4)) (Z.lnot (bit 5))) with (-49).
  change (Z.lor (bit 3) (bit 7)) with 136.
  change (Z.land (Z.lnot (bit 3)) (Z.lnot (bit 7))) with (-137).
  split; [each_pin Hn; port_bits|].
  split; [each_pin Hn; port_bits|].
  do 2 (split; [reflexivity|]).
  repeat split; each_pin Hn; port_bits.
Qed.

Lemma X18_RGBLED_Init_witness :
  let '(rgb', d', p') :=
    RGBLED_Init [9; 8; 7; 6] (mkRgbDriver 5 []) (mkPorts 0 255 1 255 2 255) in
  rgb' = replicate 4 0 ∧ mode_of (P5M0 p') (P5M1 p') 5 = Output
  ∧ mode_of (P3M0 p') (P3M1 p') 0 = OpenDrain.
Proof.
  pose proof (X18_RGBLED_Init [9; 8; 7; 6] [] (mkRgbDriver 5 []) (mkLedDriver 0 false false 0 [])
                (mkPorts 0 255 1 255 2 255) 5 eq_refl ltac:(lia)) as H5.
  pose proof (X18_RGBLED_Init [9; 8; 7; 6] [] (mkRgbDriver 5 []) (mkLedDriver 0 false false 0 [])
                (mkPorts 0 255 1 255 2 255) 0 eq_refl ltac:(lia)) as H0.
  destruct (RGBLED_Init _ _ _) as [[rgb' d'] p'].
  destruct H5 as (Hb & _ & _ & H5 & _).
  destruct H0 as (_ & _ & _ & _ & H0 & _).
  split; [exact Hb|]. split; [exact H5 | exact H0].
Defined.

(** ** Pulse control of the RGB LED (rgbled.c) *)

Lemma RGBLED_Interrupt_pulse rgb d k :
  (k < 4)%nat →
  snd (RGBLED_Interrupt rgb d) !! k = Some (rd rgb k >? u8Cnt d).
Proof.
  intros Hk. unfold RGBLED_Interrupt. cbv zeta. cbn [snd].
  destruct k as [|[|[|[|k]]]]; [ | | | | lia]; reflexivity.
Qed.

Lemma RGB_pulse_count_canon n rgb k :
  (k < 4)%nat →
  ∀ d d', u8Cnt d = u8Cnt d' →
    RGB_pulse_count n rgb k d = RGB_pulse_count n [rd rgb k] 0 d'.
Proof.
  intros Hk. induction n as [|n IH]; intros d d' Hc; [reflexivity|].
  cbn [RGB_pulse_count].
  pose proof (RGBLED_Interrupt_pulse rgb d k Hk) as H1.
  pose proof (RGBLED_Interrupt_pulse [rd rgb k] d' 0 ltac:(lia)) as H2.
  assert (Hc' : u8Cnt (fst (RGBLED_Interrupt rgb d))
                = u8Cnt (fst (RGBLED_Interrupt [rd rgb k] d')))
    by (unfold RGBLED_Interrupt; cbv zeta; cbn [fst u8Cnt]; now rewrite Hc).
  destruct (RGBLED_Interrupt rgb d) as [x px].
  destruct (RGBLED_Interrupt [rd rgb k] d') as [y py].
  cbn [fst snd] in *. rewrite H1, H2, Hc, (IH x y Hc'). reflexivity.
Qed.

Lemma RGB_duty_table :
  forallb (fun b => forallb (fun c =>
     (RGB_pulse_count 16 [Z.of_nat b] 0 (mkRgbDriver (Z.of_nat c) [])
      =? Z.to_nat (Z.min (Z.of_nat b) 16))%nat)
     (seq 0 16)) (seq 0 256) = true.
Proof. vm_compute. reflexivity. Qed.

(** X19: pulse density of the RGB driver.  The counter stays within
    [0, 16); with it there, any 16 consecutive interrupts over a constant
    colour byte [b] emit exactly [min b 16] pulses on that colour's pin,
    and every interrupt leaves the four pins at 1. *)
Theorem X19_RGB_pulse_density (rgb : list Z) (d : rgb_driver) (k : nat) :
  (k < 4)%nat → 0 ≤ u8Cnt d < 16 → 0 ≤ rd rgb k < 256 →
  RGB_pulse_count 16 rgb k d = Z.to_nat (Z.min (rd rgb k) 16)
  ∧ 0 ≤ u8Cnt (fst (RGBLED_Interrupt rgb d)) < 16
  ∧ (PIN d = replicate 4 true → PIN (fst (RGBLED_Interrupt rgb d)) = replicate 4 true).
Proof.
  intros Hk Hc Hb. split; [|split].
  - rewrite (RGB_pulse_count_canon 16 rgb k Hk d (mkRgbDriver (u8Cnt d) [])) by reflexivity.
    pose proof (forall_below
      (fun b => forallb (fun c =>
         (RGB_pulse_count 16 [b] 0 (mkRgbDriver (Z.of_nat c) [])
          =? Z.to_nat (Z.min b 16))%nat) (seq 0 16))
      256 RGB_duty_table (rd rgb k) ltac:(simpl; lia)) as H1.
    cbv beta in H1.
    pose proof (forall_below
      (fun c =>
         (RGB_pulse_count 16 [rd rgb k] 0 (mkRgbDriver c [])
          =? Z.to_nat (Z.min (rd rgb k) 16))%nat)
      16 H1 (u8Cnt d) ltac:(simpl; lia)) as H2.
    cbv beta in H2. now apply Nat.eqb_eq in H2.
  - unfold RGBLED_Interrupt. cbv zeta. cbn [fst u8Cnt]. unfold COLOR_LEVELS.
    destruct (Z.leb_spec 16 (u8Cnt d + 1)); lia.
  - intros Hp. unfold RGBLED_Interrupt. cbv zeta. cbn [fst PIN]. rewrite Hp.
    cbn [lookup list_lookup replicate default from_option id].
    repeat match goal with |- context [if ?b then _ else _] => destruct b end; reflexivity.
Qed.

Lemma X19_RGB_pulse_density_witness :
  RGB_pulse_count 16 [15; 0; 7; 200] 2 (mkRgbDriver 11 [true; true; true; true]) = 7%nat.
Proof.
  refine (proj1 (X19_RGB_pulse_density [15; 0; 7; 200]
                   (mkRgbDriver 11 [true; true; true; true]) 2 _ _ _));
    cbn [u8Cnt rd default from_option lookup list_lookup id]; lia.
Defined.

(** ** A source beyond the signed range *)

Lemma u8_borrow x : -256 ≤ x < 0 → u8 x = x + 256.
Proof.
  intros H. unfold u8. replace x with (x + 256 + (-1) * 256) at 1 by lia.
  rewrite Z_mod_plus_full. apply Z.mod_small. lia.
Qed.

Lemma SaturateBrightness_under v : 128 ≤ v < 256 → SaturateBrightness v = (0, v - 256).
Proof.
  intros H. unfold SaturateBrightness. rewrite i8_high by lia.
  destruct (Z.ltb_spec (v - 256) 0); [reflexivity | lia].
Qed.

Lemma carry_under src dst (a : list Z) :
  128 ≤ rd a src < 256 →
  carry src dst a
  = <[dst := u8 (rd (<[src := 0]> a) dst + (rd a src - 256))]> (<[src := 0]> a).
Proof. intros H. unfold carry. now rewrite SaturateBrightness_under. Qed.

Lemma saturate_under i (a : list Z) : 128 ≤ rd a i < 256 → saturate_at i a = <[i := 0]> a.
Proof. intros H. unfold saturate_at. now rewrite SaturateBrightness_under. Qed.

Ltac wrap_step :=
  match goal with
  | |- context [carry ?i ?j ?l] =>
      innermost l;
      first [ rewrite (carry_calm i j l) by channel_side
            | rewrite (carry_under i j l) by channel_side; compute_lists;
              rewrite u8_borrow by lia ]
  | |- context [saturate_at ?i ?l] =>
      innermost l;
      first [ rewrite (saturate_calm i l) by channel_side
            | rewrite (saturate_under i l) by channel_side; compute_lists ]
  | |- context [bump ?o ?i ?l] =>
      innermost l;
      change (bump o i l) with (<[i := u8 (rd l i + i8 (rd o i))]> l);
      compute_lists; rewrite ?(i8_small 0), ?Z.add_0_r by lia;
      rewrite ?i8_small by lia; rewrite u8_small by lia
  end.

Ltac wrap_flow :=
  cbv [op_USOURCE op_DSOURCE for_each upto downto LEDS_NUM RIGHT_LEDS_START seq rev app
       fold_left Nat.sub Nat.add replicate insert list_insert take drop length];
  repeat wrap_step; try reflexivity.

(** X20: the far side of the saturation helper.  The helper reads the
    byte as signed, so a channel that a positive source takes to 128 or
    more is taken for negative: on brightness within range, a single
    source [c <= 127] that lifts channel [k] of the left arc to at least
    128 does not fill the arc but blacks it out: USOURCE leaves 0 in the
    channels [k] to 5, DSOURCE in the channels 0 to [k]; the other channels
    keep their values. *)
Theorem X20_source_beyond_signed_range (a : list Z) (c : Z) (k : nat) :
  levels_ok LEDS_NUM a → (k < 6)%nat → c ≤ 127 → 128 ≤ rd a k + c →
  op_USOURCE (<[k := c]> (replicate 7 0)) a = take k a ++ replicate (6 - k) 0 ++ drop 6 a
  ∧ op_DSOURCE (<[k := c]> (replicate 7 0)) a = replicate (S k) 0 ++ drop (S k) a.
Proof.
  intros [Ha Hr] Hk Hc Hv. name_channels a Ha. unfold MAX_LEVEL in Hr.
  repeat match goal with
         | H : Forall _ (_ :: _) |- _ => apply Forall_cons in H as [? H]
         end.
  destruct k as [|[|[|[|[|[|k]]]]]]; [ | | | | | | lia];
    cbn [rd default from_option lookup list_lookup id] in Hv; split; wrap_flow.
Qed.

Lemma X20_source_beyond_signed_range_witness :
  op_USOURCE (<[2%nat := 120]> (replicate 7 0)) [3; 10; 15; 2; 0; 0; 9]
  = [3; 10; 0; 0; 0; 0; 9].
Proof.
  assert (H : levels_ok LEDS_NUM [3; 10; 15; 2; 0; 0; 9])
    by (split; [reflexivity | unfold MAX_LEVEL; repeat constructor; lia]).
  refine (eq_trans (proj1 (X20_source_beyond_signed_range [3; 10; 15; 2; 0; 0; 9] 120 2 H
                             _ _ _)) _);
    [lia | lia | cbn [rd default from_option lookup list_lookup id]; lia
    | vm_compute; reflexivity].
Defined.

(** ** REPEAT on the first instruction of the linear bank *)




(** ** What the RGB LED ignores *)

Lemma has_masked_by m flag op :
  Z.land flag m = flag → has flag (Z.land op m) = has flag op.
Proof.
  intros H. unfold has. rewrite (Z.land_comm op), Z.land_assoc. now rewrite H.
Qed.

(** X22: on the RGB LED only the ADD and DIV bits of an opcode change the
    brightness: RSHIFT, LSHIFT, USOURCE and DSOURCE are accepted and have
    no effect, alone or combined. *)
Theorem X22_RGB_ignores_shift_and_source (op : Z) (ops a : list Z) :
  effect_RGB op ops a = effect_RGB (Z.land op (Z.lor ADD DIV)) ops a
  ∧ (has ADD op = false → has DIV op = false → effect_RGB op ops a = a)
  ∧ effect_RGB (Z.lor (Z.lor RSHIFT LSHIFT) (Z.lor USOURCE DSOURCE)) ops a = a.
Proof.
  split; [|split].
  - unfold effect_RGB. now rewrite !has_masked_by by reflexivity.
  - intros H1 H2. unfold effect_RGB. now rewrite H1, H2.
  - reflexivity.
Qed.

Lemma X22_RGB_ignores_shift_and_source_witness :
  has ADD (Z.lor USOURCE REPEAT) = false ∧ has DIV (Z.lor USOURCE REPEAT) = false
  ∧ effect_RGB (Z.lor USOURCE REPEAT) [5; 5; 5; 5] [1; 2; 3; 4] = [1; 2; 3; 4].
Proof.
  split; [reflexivity|]. split; [reflexivity|].
  exact (proj1 (proj2 (X22_RGB_ignores_shift_and_source (Z.lor USOURCE REPEAT)
                         [5; 5; 5; 5] [1; 2; 3; 4])) eq_refl eq_refl).
Defined.
